(** * SpeakFlow front end: transcript resolution, sentence playback and
      voice-activity detection

    A shallow embedding of the parts of the SpeakFlow client that decide how a
    transcript is obtained and how a sentence is played and stopped:

    - [Base64]      [TTSService.arrayBufferToBase64] (services/ttsService);
    - [Whisper]     [getTranscriptData], [getYouTubeSubtitles],
                    [getWhisperFromCache], [transcribeWithWhisper]
                    (services/whisperService);
    - [Timers]      [setTimeout], [setInterval], [clearTimeout] and a clock;
    - [AudioPlayer] [WebAudioPlayer] with its voice-activity detector, and
                    [NativeAudioPlayer] (components/AudioPlayer.tsx);
    - [Screen]      [playSentenceOnly], [toggleGlobalPlayback] and the timer
                    callbacks (screens/ScriptPracticeScreen.tsx).
    - [Overlapping] [getTranscriptData] with its [await]s as suspension
                    points, for calls that overlap (services/whisperService);
    - [Subtitles]   [processYouTubeSubtitles] (services/whisperService);
    - [LoadTranscript] [loadTranscript] and the messages it shows
                    (screens/ScriptPracticeScreen.tsx);
    - [Handlers]    [handleAutoPlay], [startAutoPlay] and
                    [handleSentencePress] (screens/ScriptPracticeScreen.tsx);
    - [TTS]         [TTSService]: [speakWithOpenAI], [speakWithExpoSpeech],
                    [stop], [pause], [resume] (services/ttsService), and
                    [speakSentence] (screens/ScriptPracticeScreen.tsx).

    JavaScript numbers are modelled by [Z] where the code computes with
    integers far below 2^53 (byte values, counters, millisecond delays,
    sentence times given in whole seconds), and by IEEE 754 doubles
    ([PrimFloat]) in the signal analysis of the detector.

    React state is read the way the code reads it: a callback sees the values
    of the state variables of the render that created it.  These values are
    part of the callback's data ([Practice.Closure], the arguments of
    [Practice.VadTick] and [Practice.CheckEnd]).  The promise of [play()] is
    taken to settle before the next timer fires. *)

From Stdlib Require Import ZArith Lia List Bool Floats Uint63.
From Stdlib.Strings Require Import String Ascii Byte.
From stdpp Require Import base option gmap strings list.
Import ListNotations.

Local Open Scope string_scope.
Local Open Scope Z_scope.

(* ===================================================================== *)
(** * Base64: the manual fallback encoder of the TTS service             *)
(* ===================================================================== *)

Module Base64.

(** [const chars = 'ABC...xyz0123456789+/'] *)
Definition chars : string :=
  "ABCDEFGHIJKLMNOPQRSTUVWXYZabcdefghijklmnopqrstuvwxyz0123456789+/".

(** [String.prototype.charAt]: the one-character string at position [k],
    the empty string when [k] is out of range. *)
Definition charAt (s : string) (k : Z) : string :=
  if k <? 0 then ""
  else match String.get (Z.to_nat k) s with
       | Some c => String c EmptyString
       | None => ""
       end.

(** [buffer[i]] for an index inside the [Uint8Array]. *)
Definition byteAt (buffer : list byte) (i : Z) : Z :=
  Z.of_N (Byte.to_N (nth (Z.to_nat i) buffer x00)).

Definition blen (buffer : list byte) : Z := Z.of_nat (length buffer).

(** One pass through the body of [while (i < buffer.length)]: the new index
    and the four characters appended to [result]. *)
Definition chunk (buffer : list byte) (i0 : Z) : Z * string :=
  let a := byteAt buffer i0 in
  let i := i0 + 1 in
  let '(b, i) := if i <? blen buffer then (byteAt buffer i, i + 1) else (0, i) in
  let '(c, i) := if i <? blen buffer then (byteAt buffer i, i + 1) else (0, i) in
  let bitmap := Z.lor (Z.lor (Z.shiftl a 16) (Z.shiftl b 8)) c in
  let r1 := charAt chars (Z.land (Z.shiftr bitmap 18) 63) in
  let r2 := charAt chars (Z.land (Z.shiftr bitmap 12) 63) in
  let r3 := if i - 2 <? blen buffer
            then charAt chars (Z.land (Z.shiftr bitmap 6) 63) else "=" in
  let r4 := if i - 1 <? blen buffer
            then charAt chars (Z.land bitmap 63) else "=" in
  (i, r1 +:+ r2 +:+ r3 +:+ r4).

(** The [while] loop; every pass consumes at least one byte, so
    [length buffer] passes always suffice ([loop_fuel_irrelevant]). *)
Fixpoint loop (fuel : nat) (buffer : list byte) (i : Z) (result : string)
  : string :=
  match fuel with
  | O => result
  | S fuel' =>
      if i <? blen buffer then
        let '(i', out) := chunk buffer i in
        loop fuel' buffer i' (result +:+ out)
      else result
  end.

Definition arrayBufferToBase64 (buffer : list byte) : string :=
  loop (length buffer) buffer 0 "".

(** ** The reference: RFC 4648, section 4

    A 24-bit group is formed by concatenating three input bytes and is read
    as four 6-bit groups; a final quantum of one byte gives two characters
    and two [=], a final quantum of two bytes gives three characters and
    one [=].  This is the value [btoa] returns on the same bytes. *)

Definition val (x : byte) : Z := Z.of_N (Byte.to_N x).

Definition group24 (a b c : byte) : Z := val a * 65536 + val b * 256 + val c.

Definition sextet (g : Z) (k : Z) : string :=
  charAt chars ((g / 64 ^ (3 - k)) mod 64).

Fixpoint rfc4648_encode (bs : list byte) : string :=
  match bs with
  | [] => ""
  | [a] =>
      let g := group24 a x00 x00 in sextet g 0 +:+ sextet g 1 +:+ "=="
  | [a; b] =>
      let g := group24 a b x00 in
      sextet g 0 +:+ sextet g 1 +:+ sextet g 2 +:+ "="
  | a :: b :: c :: rest =>
      let g := group24 a b c in
      (sextet g 0 +:+ sextet g 1 +:+ sextet g 2 +:+ sextet g 3)
        +:+ rfc4648_encode rest
  end.

(** What the loop computes, in closed form: four characters for every
    started group of three bytes, never a padding character. *)
Fixpoint unpadded_encode (bs : list byte) : string :=
  match bs with
  | [] => ""
  | [a] =>
      let g := group24 a x00 x00 in
      sextet g 0 +:+ sextet g 1 +:+ sextet g 2 +:+ sextet g 3
  | [a; b] =>
      let g := group24 a b x00 in
      sextet g 0 +:+ sextet g 1 +:+ sextet g 2 +:+ sextet g 3
  | a :: b :: c :: rest =>
      let g := group24 a b c in
      (sextet g 0 +:+ sextet g 1 +:+ sextet g 2 +:+ sextet g 3)
        +:+ unpadded_encode rest
  end.

End Base64.

(* ===================================================================== *)
(** * Whisper service: where the transcript of a video comes from         *)
(* ===================================================================== *)

(** [Platform.OS]: the web build against the iOS and Android builds. *)
Inductive PlatformOS := web | native.

Module Whisper.

(** ['youtube' | 'whisper'] *)
Inductive Source := youtube | whisper.

#[export] Instance Source_eq_dec : EqDecision Source.
Proof. solve_decision. Defined.

Record ProcessedSentence := {
  text : string;
  start : Z;
  end_ : Z;
  duration : Z
}.

Record TranscriptResult := {
  success : bool;
  source : Source;
  sentences : list ProcessedSentence;
  transcription : option string;
  totalDuration : option Z          (* the [duration?] field *)
}.

(** ** The outside world

    Every request the service sends is recorded, in order.  The world
    answers a request as a function of the requests sent before it, so that
    the same URL may be answered differently the second time. *)

Inductive Request :=
| GetSubtitles (videoId : string) (useSpacy : bool)
| GetCached (videoId : string) (timeoutMs : Z)
| GetAudioUrl (videoId : string)
| Download (audioUrl audioUri : string)
| GetInfo (audioUri : string)
| PostTranscribe (videoId : string) (audio : string)
| Delete (audioUri : string).

(** The settlement of a promise. *)
Inductive Reply (A : Type) := Resolves (a : A) | Rejects (message : string).
Arguments Resolves {A} a.
Arguments Rejects {A} message.

(** JSON body of [/whisper/youtube-subtitles/:id]. *)
Record SubtitlesData := {
  sd_success : bool;
  sd_sentences : option (list ProcessedSentence);
  sd_error : option string
}.

(** JSON body of [/whisper/cached/:id] and of [/whisper/transcribe]. *)
Record WhisperData := {
  wd_sentences : option (list ProcessedSentence);
  wd_transcription : option string;
  wd_duration : option Z;
  wd_error : option string
}.

(** An HTTP response: [response.ok] and the settlement of
    [response.json()]. *)
Record Response := { ok : bool; json : Reply WhisperData }.

Record World := {
  subtitles : list Request -> string -> bool -> Reply SubtitlesData;
  (** milliseconds until [fetch] settles, and how it settles *)
  cached : list Request -> string -> Z * Reply Response;
  (** [data.audioUrl] of [/youtube/audio/:id] *)
  audio : list Request -> string -> Reply (option string);
  (** [`${FileSystem.cacheDirectory}audio_${videoId}_${Date.now()}.m4a`] *)
  cacheFile : list Request -> string -> string;
  (** [downloadResult.status] *)
  download : list Request -> string -> string -> Reply Z;
  (** [fileInfo.exists] *)
  info : list Request -> string -> Reply bool;
  transcribe : list Request -> string -> string -> Reply Response;
  delete : list Request -> string -> Reply unit
}.

(** ** Asynchronous functions with exceptions

    The module-level [sourceCache] and the log of requests are threaded
    through; an [Error] is carried by its [message]. *)

Record State := {
  sourceCache : gmap string Source;
  requests : list Request
}.

Inductive Outcome (A : Type) := Returns (a : A) | Throws (message : string).
Arguments Returns {A} a.
Arguments Throws {A} message.

Definition Async (A : Type) : Type := State -> Outcome A * State.

#[export] Instance Async_ret : MRet Async := fun A a st => (Returns a, st).

#[export] Instance Async_bind : MBind Async := fun A B k m st =>
  match m st with
  | (Returns a, st') => k a st'
  | (Throws e, st') => (Throws e, st')
  end.

Definition throw {A} (message : string) : Async A :=
  fun st => (Throws message, st).

(** [try { body } catch (error) { handler(error.message) }] *)
Definition try_catch {A} (body : Async A) (handler : string -> Async A)
  : Async A :=
  fun st =>
    match body st with
    | (Returns a, st') => (Returns a, st')
    | (Throws e, st') => handler e st'
    end.

(** [await] of a request: log it, then settle as the world says. *)
Definition await {A} (r : Request) (answer : list Request -> Reply A)
  : Async A :=
  fun st =>
    let st' := {| sourceCache := sourceCache st;
                  requests := requests st ++ [r] |} in
    match answer (requests st) with
    | Resolves a => (Returns a, st')
    | Rejects e => (Throws e, st')
    end.

(** [await] of a promise that is already at hand, such as
    [response.json()]. *)
Definition settle {A} (reply : Reply A) : Async A :=
  fun st =>
    match reply with
    | Resolves a => (Returns a, st)
    | Rejects e => (Throws e, st)
    end.

Definition history : Async (list Request) :=
  fun st => (Returns (requests st), st).

(** [sourceCache.get(videoId)] and [sourceCache.set(videoId, src)] *)
Definition sourceCache_get (videoId : string) : Async (option Source) :=
  fun st => (Returns (sourceCache st !! videoId), st).

Definition sourceCache_set (videoId : string) (src : Source) : Async unit :=
  fun st => (Returns tt,
             {| sourceCache := <[videoId := src]> (sourceCache st);
                requests := requests st |}).

(** [x || dflt] on an optional string: [undefined] and [''] are falsy. *)
Definition or_string (x : option string) (dflt : string) : string :=
  match x with
  | Some s => if String.eqb s "" then dflt else s
  | None => dflt
  end.

(** [data.sentences || []] *)
Definition or_empty {A} (x : option (list A)) : list A :=
  match x with Some l => l | None => [] end.

(** [message.includes(needle)] *)
Definition includes (message needle : string) : bool :=
  match String.index 0 needle message with Some _ => true | None => false end.

Section Service.
Variable W : World.
Variable OS : PlatformOS.

Definition getYouTubeSubtitles (videoId : string) (useSpacy : bool)
  : Async TranscriptResult :=
  try_catch
    (data ← await (GetSubtitles videoId useSpacy)
                  (fun h => subtitles W h videoId useSpacy);
     match sd_success data, sd_sentences data with
     | true, Some ss =>
         mret {| success := true; source := youtube; sentences := ss;
                 transcription := None; totalDuration := None |}
     | _, _ => throw (or_string (sd_error data) "No YouTube subtitles found")
     end)
    (fun e => throw e).

Definition extractAudio (videoId : string) : Async string :=
  try_catch
    (data ← await (GetAudioUrl videoId) (fun h => audio W h videoId);
     match data with
     | None => throw "Failed to extract audio URL"
     | Some audioUrl =>
         if String.eqb audioUrl "" then throw "Failed to extract audio URL"
         else
           match OS with
           | web => mret audioUrl
           | native =>
               h ← history;
               let audioUri := cacheFile W h videoId in
               status ← await (Download audioUrl audioUri)
                              (fun h => download W h audioUrl audioUri);
               if negb (status =? 200) then throw "Failed to download audio file"
               else
                 _ ← await (GetInfo audioUri) (fun h => info W h audioUri);
                 mret audioUri
           end
     end)
    (fun e => throw ("Failed to extract audio: " +:+ e)).

(** The abort timer of the cache check, in milliseconds. *)
Definition cacheTimeoutMs : Z := 5000.

Definition resultOfWhisperData (d : WhisperData) : TranscriptResult :=
  {| success := true; source := whisper;
     sentences := or_empty (wd_sentences d);
     transcription := wd_transcription d;
     totalDuration := wd_duration d |}.

(** [fetch] with an [AbortController] aborted after [cacheTimeoutMs]: a
    response that has not arrived by then is replaced by an [AbortError]. *)
Definition fetchCached (videoId : string) : Async Response :=
  await (GetCached videoId cacheTimeoutMs)
        (fun h => let '(latency, reply) := cached W h videoId in
                  if latency <? cacheTimeoutMs then reply
                  else Rejects "AbortError").

Definition getWhisperFromCache (videoId : string)
  : Async (option TranscriptResult) :=
  try_catch
    (cacheResponse ← fetchCached videoId;
     if ok cacheResponse then
       cachedData ← settle (json cacheResponse);
       mret (Some (resultOfWhisperData cachedData))
     else mret None)
    (fun _ => mret None).

Definition transcribeWithWhisper (videoId : string)
  : Async TranscriptResult :=
  try_catch
    (cachedResult ← getWhisperFromCache videoId;
     match cachedResult with
     | Some r => mret r
     | None =>
         audioUri ← extractAudio videoId;
         _ ← match OS with
             | web => mret tt
             | native =>
                 exists_ ← await (GetInfo audioUri) (fun h => info W h audioUri);
                 if exists_ : bool then mret tt
                 else throw "Audio file does not exist"
             end;
         response ← await (PostTranscribe videoId audioUri)
                          (fun h => transcribe W h videoId audioUri);
         if negb (ok response)
         then
           errorData ← settle (json response);
           throw (or_string (wd_error errorData) "Whisper API error")
         else
           data ← settle (json response);
           _ ← match OS with
               | web => mret tt
               | native => await (Delete audioUri) (fun h => delete W h audioUri)
               end;
           mret (resultOfWhisperData data)
     end)
    (fun e => throw ("Whisper transcription failed: " +:+ e)).

(** [youtubeResult.success && youtubeResult.sentences.length > 0] *)
Definition usable (r : TranscriptResult) : bool :=
  success r && (0 <? Z.of_nat (length (sentences r))).

Definition getTranscriptData (videoId : string) : Async TranscriptResult :=
  try_catch
    (preferredSource ← sourceCache_get videoId;
     early ← match preferredSource with
             | Some whisper =>
                 try_catch
                   (whisperResult ← transcribeWithWhisper videoId;
                    mret (Some whisperResult))
                   (fun _ => mret None)
             | Some youtube =>
                 try_catch
                   (youtubeResult ← getYouTubeSubtitles videoId true;
                    if usable youtubeResult then mret (Some youtubeResult)
                    else mret None)
                   (fun _ => mret None)
             | None => mret None
             end;
     match early with
     | Some result => mret result
     | None =>
         (* 1. Try YouTube subtitles *)
         first ← try_catch
                   (youtubeResult ← getYouTubeSubtitles videoId true;
                    if usable youtubeResult then
                      _ ← sourceCache_set videoId youtube;
                      mret (Some youtubeResult)
                    else mret None)
                   (fun _ => mret None);
         match first with
         | Some result => mret result
         | None =>
             (* 2. Fall back to Whisper AI *)
             try_catch
               (whisperResult ← transcribeWithWhisper videoId;
                _ ← sourceCache_set videoId whisper;
                mret whisperResult)
               (fun e =>
                  throw
                    (if includes e "Network request failed"
                     then "Network connection failed. Please check your internet connection and try again."
                     else "Both YouTube subtitles and Whisper AI are unavailable for this video. Please try a different video or check your connection."))
         end
     end)
    (fun e => throw ("Failed to get transcript: " +:+ e)).

End Service.

(** Steps 1 and 2 of [getTranscriptData] with its outer [catch]: what is
    left of the function once the attempt steered by [sourceCache] is over. *)
Definition captionsThenWhisper (W : World) (OS : PlatformOS)
           (videoId : string) : Async TranscriptResult :=
  try_catch
    (first ← try_catch
               (youtubeResult ← getYouTubeSubtitles W videoId true;
                if usable youtubeResult then
                  _ ← sourceCache_set videoId youtube;
                  mret (Some youtubeResult)
                else mret None)
               (fun _ => mret None);
     match first with
     | Some result => mret result
     | None =>
         try_catch
           (whisperResult ← transcribeWithWhisper W OS videoId;
            _ ← sourceCache_set videoId whisper;
            mret whisperResult)
           (fun e =>
              throw
                (if includes e "Network request failed"
                 then "Network connection failed. Please check your internet connection and try again."
                 else "Both YouTube subtitles and Whisper AI are unavailable for this video. Please try a different video or check your connection."))
     end)
    (fun e => throw ("Failed to get transcript: " +:+ e)).

(** ** Vocabulary of the statements *)

(** A computation that only sends requests satisfying [E], leaves
    [sourceCache] alone and returns values satisfying [P]. *)
Definition frame {A} (E : Request -> Prop) (P : A -> Prop) (m : Async A)
  : Prop :=
  forall st, exists evs,
    requests (m st).2 = (requests st ++ evs)%list
    /\ Forall E evs
    /\ sourceCache (m st).2 = sourceCache st
    /\ (forall a, (m st).1 = Returns a -> P a).

(** Requests of the transcription source: cache probe, audio extraction,
    upload. *)
Definition isTranscription (r : Request) : bool :=
  match r with GetSubtitles _ _ => false | _ => true end.

(** The source a request is addressed to. *)
Definition sourceOf (r : Request) : Source :=
  if isTranscription r then whisper else youtube.

(** The cache probe is a hit: the response arrives before the abort timer,
    is [ok] and has a readable body. *)
Definition cacheHit (W : World) (h : list Request) (videoId : string)
  : option WhisperData :=
  let '(latency, reply) := cached W h videoId in
  if latency <? cacheTimeoutMs then
    match reply with
    | Resolves resp =>
        if ok resp then
          match json resp with Resolves d => Some d | Rejects _ => None end
        else None
    | Rejects _ => None
    end
  else None.

Definition sent (r : Request) (st : State) : State :=
  {| sourceCache := sourceCache st; requests := requests st ++ [r] |}.

(** In a list of requests, some caption request comes before the first
    request of the full transcription path (audio extraction, upload). *)
Fixpoint captionsBeforeFullTranscription (rs : list Request) : bool :=
  match rs with
  | [] => true
  | GetSubtitles _ _ :: _ => true
  | GetCached _ _ :: rest => captionsBeforeFullTranscription rest
  | _ :: _ => false
  end.

(** ** Sample worlds *)

Definition s4 : list ProcessedSentence :=
  [ {| text := "one"; start := 0; end_ := 2; duration := 2 |};
    {| text := "two"; start := 2; end_ := 5; duration := 3 |};
    {| text := "three"; start := 5; end_ := 6; duration := 1 |};
    {| text := "four"; start := 6; end_ := 9; duration := 3 |} ].

Definition noData : WhisperData :=
  {| wd_sentences := None; wd_transcription := None; wd_duration := None;
     wd_error := None |}.

(** A video without captions and without a cached transcription, whose
    audio can be extracted and transcribed. *)
Definition world_uncaptioned : World :=
  {| subtitles := fun _ _ _ =>
       Resolves {| sd_success := false; sd_sentences := None;
                   sd_error := Some "No subtitles" |};
     cached := fun _ _ => (6000, Resolves {| ok := true; json := Resolves noData |});
     audio := fun _ _ => Resolves (Some "https://cdn/abc.m4a");
     cacheFile := fun _ _ => "file:///cache/audio_abc_0.m4a";
     download := fun _ _ _ => Resolves 200;
     info := fun _ _ => Resolves true;
     transcribe := fun _ _ _ =>
       Resolves {| ok := true;
                   json := Resolves {| wd_sentences := Some s4;
                                       wd_transcription := Some "one two three four";
                                       wd_duration := Some 9;
                                       wd_error := None |} |};
     delete := fun _ _ => Resolves tt |}.

Definition fresh : State := {| sourceCache := ∅; requests := [] |}.

Definition captioned_once : State :=
  {| sourceCache := {[ "abc" := youtube ]}; requests := [] |}.

(** A video with captions. *)
Definition world_captioned : World :=
  {| subtitles := fun _ _ _ =>
       Resolves {| sd_success := true; sd_sentences := Some s4;
                   sd_error := None |};
     cached := cached world_uncaptioned;
     audio := audio world_uncaptioned;
     cacheFile := cacheFile world_uncaptioned;
     download := download world_uncaptioned;
     info := info world_uncaptioned;
     transcribe := transcribe world_uncaptioned;
     delete := delete world_uncaptioned |}.

Definition transcribed_once : State :=
  {| sourceCache := {[ "abc" := whisper ]}; requests := [] |}.

Definition captions_abc : TranscriptResult :=
  {| success := true; source := youtube; sentences := s4;
     transcription := None; totalDuration := None |}.

End Whisper.

(* ===================================================================== *)
(** * Timers: [setTimeout], [setInterval] and the clock                   *)
(* ===================================================================== *)

Module Timers.
Section Loop.
Context {Task : Type}.

(** A pending timer: the handle [setTimeout]/[setInterval] returned, the time
    it is due (ms), its period when it is an interval, and its callback. *)
Record Timer := { handle : nat; due : Z; every : option Z; task : Task }.

Record Loop := { now : Z; nextHandle : nat; pending : list Timer }.

(** Handles are positive, so that [if (ref.current)] tests for presence. *)
Definition idle : Loop := {| now := 0; nextHandle := 1; pending := [] |}.

Definition schedule (period : option Z) (t : Task) (delay : Z) (l : Loop)
  : nat * Loop :=
  (nextHandle l,
   {| now := now l;
      nextHandle := S (nextHandle l);
      pending := pending l
                 ++ [{| handle := nextHandle l; due := now l + Z.max 0 delay;
                        every := period; task := t |}] |}).

Definition setTimeout (t : Task) (delay : Z) : Loop -> nat * Loop :=
  schedule None t delay.

Definition setInterval (t : Task) (period : Z) : Loop -> nat * Loop :=
  schedule (Some period) t period.

(** [clearTimeout(h)] and [clearInterval(h)]; a handle that is not pending is
    ignored. *)
Definition clearTimer (h : nat) (l : Loop) : Loop :=
  {| now := now l; nextHandle := nextHandle l;
     pending := filter (fun t => handle t <> h) (pending l) |}.

(** [if (ref.current) { clearTimeout(ref.current) }] *)
Definition clearRef (ref : option nat) (l : Loop) : Loop :=
  match ref with Some h => clearTimer h l | None => l end.

(** The callback of an interval keeps its local variables between runs:
    [retask] stores them back while the interval is still pending. *)
Definition retask (h : nat) (t : Task) (l : Loop) : Loop :=
  {| now := now l; nextHandle := nextHandle l;
     pending := map (fun x => if Nat.eqb (handle x) h
                              then {| handle := h; due := due x;
                                      every := every x; task := t |}
                              else x) (pending l) |}.

(** The timer to run next: the earliest due, the first registered among
    equals. *)
Fixpoint earliest (ts : list Timer) : option Timer :=
  match ts with
  | [] => None
  | t :: rest =>
      match earliest rest with
      | Some t' => if due t' <? due t then Some t' else Some t
      | None => Some t
      end
  end.

(** Take the next timer off the queue and move the clock to its due time; an
    interval is put back, due one period later. *)
Definition next (l : Loop) : option (Timer * Loop) :=
  match earliest (pending l) with
  | None => None
  | Some t =>
      let rest :=
        match every t with
        | None => filter (fun x => handle x <> handle t) (pending l)
        | Some period =>
            map (fun x => if Nat.eqb (handle x) (handle t)
                          then {| handle := handle t; due := due t + period;
                                  every := every t; task := task t |}
                          else x) (pending l)
        end in
      Some (t, {| now := Z.max (now l) (due t);
                  nextHandle := nextHandle l; pending := rest |})
  end.

End Loop.
Arguments Timer : clear implicits.
Arguments Loop : clear implicits.
End Timers.

(* ===================================================================== *)
(** * The closures of the practice screen and of the audio player, as data *)
(* ===================================================================== *)

Module Practice.

Record PracticeSentence := {
  text : string;
  start : Z;
  end_ : Z;
  duration : Z
}.

(** The state variables of [ScriptPracticeScreen] that the callbacks created
    by [playSentenceOnly] close over: their values at the render the handler
    belongs to. *)
Record Closure := { isAutoPlay : bool; sentences : list PracticeSentence }.

(** The arrow function [playSentenceOnly] hands to [playWithVAD]. *)
Inductive Callback := OnSilence (sentence : PracticeSentence) (cl : Closure).

Inductive Task :=
(** [stopTimer] of [playSentenceOnly] *)
| StopSentence (sentence : PracticeSentence) (cl : Closure)
(** [setTimeout(() => playSentenceOnly(sentences[currentIndex + 1]), 500)] *)
| PlayNext (sentence : PracticeSentence) (cl : Closure)
(** the interval of [startVoiceActivityDetection], with the [isPlaying] it
    closes over and its local [silenceCount] and [speechCount] *)
| VadTick (isPlaying : bool) (silenceCount speechCount : Z)
(** the 5 second fallback of [startVoiceActivityDetection] *)
| VadFallback
(** [checkAndStopAtSentenceEnd], with the [sentenceEndTime] it closes over *)
| CheckEnd (sentenceEndTime : option Z).

End Practice.

(* ===================================================================== *)
(** * AudioPlayer: playback of the audio track and voice-activity detection *)
(* ===================================================================== *)

Module AudioPlayer.
Import Practice.

(** The audio element (web) or the loaded sound (native): paused or playing,
    and where.  The position is kept in milliseconds at the time [since]. *)
Record Audio := { paused : bool; positionMs : Z; since : Z }.

(** [audio.currentTime], in milliseconds. *)
Definition currentTimeMs (a : Audio) (now : Z) : Z :=
  positionMs a + (if paused a then 0 else now - since a).

Definition audio_pause (now : Z) (a : Audio) : Audio :=
  {| paused := true; positionMs := currentTimeMs a now; since := now |}.

Definition audio_play (now : Z) (a : Audio) : Audio :=
  {| paused := false; positionMs := currentTimeMs a now; since := now |}.

Definition audio_seek (now : Z) (timeInSeconds : Z) (a : Audio) : Audio :=
  {| paused := paused a; positionMs := timeInSeconds * 1000; since := now |}.

(** How building the analysis graph of [startVoiceActivityDetection] goes. *)
Inductive GraphOutcome :=
| GraphBuilt
(** [new AudioContext()] or [createAnalyser()] throws *)
| ContextThrows
(** [createMediaElementSource] throws: the element is attached already *)
| SourceAttached
(** [connect] or the analyser settings throw *)
| WiringThrows.

(** What the analyser hands out at a tick: [getByteTimeDomainData] and
    [getByteFrequencyData]. *)
Record Frame := { dataArray : list byte; frequencyData : list byte }.

(** What the player does not decide: the platform, the outcome of each
    attempt to build the graph, the signal, and whether [audio.play()] is
    refused at a given time. *)
Record Env := {
  OS : PlatformOS;
  graph : nat -> GraphOutcome;
  analyse : Z -> Frame;
  playRejects : Z -> bool
}.

Record Player := {
  (* state *)
  isPlaying : bool;
  sentenceEndTime : option Z;
  (* refs *)
  audioRef : option Audio;            (* [sound] on native *)
  audioContextRef : option nat;
  analyserRef : option nat;
  vadIntervalRef : option nat;
  onSilenceDetectedRef : option Callback;
  endCheckInterval : option nat;
  (* how many times the graph has been built so far *)
  attempts : nat
}.

Definition mounted (a : option Audio) : Player :=
  {| isPlaying := false; sentenceEndTime := None; audioRef := a;
     audioContextRef := None; analyserRef := None; vadIntervalRef := None;
     onSilenceDetectedRef := None; endCheckInterval := None; attempts := 0 |}.

Definition PS : Type := Timers.Loop Task * Player.

(** ** The signal *)

Definition ofByte (b : byte) : float :=
  PrimFloat.of_uint63 (Uint63.of_Z (Z.of_N (Byte.to_N b))).

Definition ofNat (n : nat) : float :=
  PrimFloat.of_uint63 (Uint63.of_Z (Z.of_nat n)).

Definition silenceThreshold : Z := 8.
Definition speechThreshold : Z := 3.
Definition volumeThreshold : float := 15.
Definition speechFrequencyThreshold : float := 25.

(** [Math.floor(300 / 21.5)] and [Math.floor(3400 / 21.5)] *)
Definition speechStartBin : nat := 13.
Definition speechEndBin : nat := 158.

(** [rms]: the samples are normalised to -1..1, squared, averaged. *)
Definition rmsOf (dataArray : list byte) : float :=
  let rms :=
    fold_left (fun rms d => let sample := ((ofByte d - 128) / 128)%float in
                            (rms + sample * sample)%float)
              dataArray 0%float in
  (PrimFloat.sqrt (rms / ofNat (length dataArray)) * 100)%float.

(** [speechEnergy]: the bins from [speechStartBin] up to [speechEndBin] or
    the end of the data, over the width of the band. *)
Definition speechEnergyOf (frequencyData : list byte) : float :=
  let band := take (speechEndBin - speechStartBin)
                   (drop speechStartBin frequencyData) in
  (fold_left (fun e d => (e + ofByte d)%float) band 0
   / ofNat (speechEndBin - speechStartBin))%float.

(** [rms > volumeThreshold && speechEnergy > speechFrequencyThreshold] *)
Definition isSpeech (f : Frame) : bool :=
  PrimFloat.ltb volumeThreshold (rmsOf (dataArray f))
  && PrimFloat.ltb speechFrequencyThreshold (speechEnergyOf (frequencyData f)).

(** ** Updates of the player *)

Definition set_audio (a : option Audio) (p : Player) : Player :=
  {| isPlaying := isPlaying p; sentenceEndTime := sentenceEndTime p;
     audioRef := a; audioContextRef := audioContextRef p;
     analyserRef := analyserRef p; vadIntervalRef := vadIntervalRef p;
     onSilenceDetectedRef := onSilenceDetectedRef p;
     endCheckInterval := endCheckInterval p; attempts := attempts p |}.

Definition setIsPlaying (b : bool) (p : Player) : Player :=
  {| isPlaying := b; sentenceEndTime := sentenceEndTime p;
     audioRef := audioRef p; audioContextRef := audioContextRef p;
     analyserRef := analyserRef p; vadIntervalRef := vadIntervalRef p;
     onSilenceDetectedRef := onSilenceDetectedRef p;
     endCheckInterval := endCheckInterval p; attempts := attempts p |}.

Definition setSentenceEndTime (e : option Z) (p : Player) : Player :=
  {| isPlaying := isPlaying p; sentenceEndTime := e;
     audioRef := audioRef p; audioContextRef := audioContextRef p;
     analyserRef := analyserRef p; vadIntervalRef := vadIntervalRef p;
     onSilenceDetectedRef := onSilenceDetectedRef p;
     endCheckInterval := endCheckInterval p; attempts := attempts p |}.

Definition set_endCheckInterval (h : option nat) (p : Player) : Player :=
  {| isPlaying := isPlaying p; sentenceEndTime := sentenceEndTime p;
     audioRef := audioRef p; audioContextRef := audioContextRef p;
     analyserRef := analyserRef p; vadIntervalRef := vadIntervalRef p;
     onSilenceDetectedRef := onSilenceDetectedRef p;
     endCheckInterval := h; attempts := attempts p |}.

Definition set_onSilenceDetectedRef (cb : option Callback) (p : Player)
  : Player :=
  {| isPlaying := isPlaying p; sentenceEndTime := sentenceEndTime p;
     audioRef := audioRef p; audioContextRef := audioContextRef p;
     analyserRef := analyserRef p; vadIntervalRef := vadIntervalRef p;
     onSilenceDetectedRef := cb;
     endCheckInterval := endCheckInterval p; attempts := attempts p |}.

(** ** Voice-activity detection *)

(** [stopVoiceActivityDetection]: [clearInterval] and [close()] do not throw,
    so the [try] block runs to its end. *)
Definition stopVoiceActivityDetection (s : PS) : PS :=
  let '(l, p) := s in
  (Timers.clearRef (vadIntervalRef p) l,
   {| isPlaying := isPlaying p; sentenceEndTime := sentenceEndTime p;
      audioRef := audioRef p; audioContextRef := None; analyserRef := None;
      vadIntervalRef := None; onSilenceDetectedRef := None;
      endCheckInterval := endCheckInterval p; attempts := attempts p |}).

(** [startVoiceActivityDetection(onSilenceDetected)], called from a render in
    which the state variable [isPlaying] has the value [isPlaying0]. *)
Definition startVoiceActivityDetection (E : Env) (isPlaying0 : bool)
           (onSilenceDetected : Callback) (s : PS) : PS :=
  match OS E with
  | native => s
  | web =>
      let '(l, p) := stopVoiceActivityDetection s in
      let p := set_onSilenceDetectedRef (Some onSilenceDetected) p in
      let n := attempts p in
      let p := {| isPlaying := isPlaying p; sentenceEndTime := sentenceEndTime p;
                  audioRef := audioRef p; audioContextRef := audioContextRef p;
                  analyserRef := analyserRef p;
                  vadIntervalRef := vadIntervalRef p;
                  onSilenceDetectedRef := onSilenceDetectedRef p;
                  endCheckInterval := endCheckInterval p;
                  attempts := S n |} in
      match graph E n with
      | SourceAttached => (l, p)
      | ContextThrows | WiringThrows =>
          let '(_, l) := Timers.setTimeout VadFallback 5000 l in (l, p)
      | GraphBuilt =>
          let '(h, l) := Timers.setInterval (VadTick isPlaying0 0 0) 100 l in
          (l, {| isPlaying := isPlaying p; sentenceEndTime := sentenceEndTime p;
                 audioRef := audioRef p; audioContextRef := Some n;
                 analyserRef := Some n; vadIntervalRef := Some h;
                 onSilenceDetectedRef := onSilenceDetectedRef p;
                 endCheckInterval := endCheckInterval p;
                 attempts := attempts p |})
      end
  end.

(** One run of the interval callback, on the frame [f]; [h] is the handle of
    the interval.  The result carries the callback to invoke, if any. *)
Definition vadTick (f : Frame) (h : nat) (isPlaying0 : bool)
           (silenceCount speechCount : Z) (s : PS) : PS * option Callback :=
  let '(l, p) := s in
  match analyserRef p with
  | None => (s, None)
  | Some _ =>
      if negb isPlaying0 then (s, None)
      else if isSpeech f then
        let speechCount := speechCount + 1 in
        let silenceCount :=
          if speechThreshold <=? speechCount then 0 else silenceCount in
        ((Timers.retask h (VadTick isPlaying0 silenceCount speechCount) l, p),
         None)
      else
        let speechCount := 0 in
        let silenceCount := silenceCount + 1 in
        let l := Timers.retask h (VadTick isPlaying0 silenceCount speechCount) l in
        if silenceThreshold <=? silenceCount then
          let '(l, p) := stopVoiceActivityDetection (l, p) in
          ((l, p), onSilenceDetectedRef p)
        else ((l, p), None)
  end.

(** The callback of the 5 second fallback. *)
Definition vadFallback (s : PS) : PS * option Callback :=
  (s, onSilenceDetectedRef (snd s)).

(** [checkAndStopAtSentenceEnd], from a render in which [sentenceEndTime] has
    the value [sentenceEndTime0]. *)
Definition checkAndStopAtSentenceEnd (sentenceEndTime0 : option Z) (s : PS)
  : PS :=
  let '(l, p) := s in
  match audioRef p, sentenceEndTime0 with
  | Some a, Some e =>
      if e * 1000 <=? currentTimeMs a (Timers.now l) then
        let p := set_audio (Some (audio_pause (Timers.now l) a)) p in
        let p := setIsPlaying false p in
        let '(l, p) := stopVoiceActivityDetection (l, p) in
        let p := setSentenceEndTime None p in
        (Timers.clearRef (endCheckInterval p) l, set_endCheckInterval None p)
      else s
  | _, _ => s
  end.

(** ** The imperative handle *)

(** Shared by [play] and [playWithVAD]: stop what is playing and clean up. *)
Definition stopCurrent (a : Audio) (s : PS) : PS :=
  let '(l, p) := s in
  if isPlaying p then
    let p := set_audio (Some (audio_pause (Timers.now l) a)) p in
    let p := setIsPlaying false p in          (* [audio.onpause] *)
    let '(l, p) := stopVoiceActivityDetection (l, p) in
    (Timers.clearRef (endCheckInterval p) l, set_endCheckInterval None p)
  else s.

Definition seekTo (timeInSeconds : Z) (s : PS) : PS :=
  let '(l, p) := s in
  match audioRef p with
  | Some a => (l, set_audio (Some (audio_seek (Timers.now l) timeInSeconds a)) p)
  | None => s
  end.

Definition play (E : Env) (s : PS) : PS :=
  let '(l, p) := s in
  match audioRef p with
  | None => s
  | Some a =>
      match OS E with
      | web =>
          let '(l, p) := stopCurrent a s in
          if playRejects E (Timers.now l) then (l, p)
          else
            let a' := match audioRef p with Some a' => a' | None => a end in
            let p := set_audio (Some (audio_play (Timers.now l) a')) p in
            (l, setSentenceEndTime None (setIsPlaying true p))
      | native =>
          (l, setIsPlaying true
                (set_audio (Some (audio_play (Timers.now l) a)) p))
      end
  end.

Definition pause (E : Env) (s : PS) : PS :=
  let '(l, p) := s in
  match audioRef p with
  | None => s
  | Some a =>
      let p := set_audio (Some (audio_pause (Timers.now l) a)) p in
      let p := setIsPlaying false p in
      match OS E with
      | web =>
          let '(l, p) := stopVoiceActivityDetection (l, p) in
          let p := setSentenceEndTime None p in
          (Timers.clearRef (endCheckInterval p) l, set_endCheckInterval None p)
      | native => (l, p)
      end
  end.

Definition playWithVAD (E : Env) (onSilenceDetected : Callback) (endTime : Z)
           (s : PS) : PS :=
  let '(l0, p0) := s in
  match audioRef p0 with
  | None => s
  | Some a =>
      match OS E with
      | web =>
          let '(l, p) := stopCurrent a s in
          let '(l, p) :=
            if endTime =? 0 then (l, p)
            else
              let p := setSentenceEndTime (Some endTime) p in
              let l := Timers.clearRef (endCheckInterval p) l in
              let '(h, l) :=
                Timers.setInterval (CheckEnd (sentenceEndTime p0)) 100 l in
              (l, set_endCheckInterval (Some h) p) in
          if playRejects E (Timers.now l) then (l, p)
          else
            let a' := match audioRef p with Some a' => a' | None => a end in
            let p := set_audio (Some (audio_play (Timers.now l) a')) p in
            let p := setIsPlaying true p in
            startVoiceActivityDetection E (isPlaying p0) onSilenceDetected (l, p)
      | native =>
          (l0, setIsPlaying true
                 (set_audio (Some (audio_play (Timers.now l0) a)) p0))
      end
  end.

(** ** A detection run on its own

    The interval of an armed detector, fed one frame per tick: [ticks] runs the
    callback once per frame for as long as the interval is pending, and
    collects the callbacks it invokes. *)

Definition intervalTask (s : PS) : option (nat * Task) :=
  match vadIntervalRef (snd s) with
  | None => None
  | Some h =>
      match filter (fun t => Timers.handle t = h) (Timers.pending (fst s)) with
      | t :: _ => Some (h, Timers.task t)
      | [] => None
      end
  end.

Fixpoint ticks (frames : list Frame) (s : PS) : PS * list Callback :=
  match frames with
  | [] => (s, [])
  | f :: rest =>
      match intervalTask s with
      | Some (h, VadTick isPlaying0 silenceCount speechCount) =>
          let '(s, fired) := vadTick f h isPlaying0 silenceCount speechCount s in
          let '(s, later) := ticks rest s in
          (s, match fired with Some cb => cb :: later | None => later end)
      | _ => (s, [])
      end
  end.

(** The timers that are sampling intervals of the detector. *)
Definition isSampling (t : Timers.Timer Task) : bool :=
  match Timers.task t with VadTick _ _ _ => true | _ => false end.

(** The counters of the pending interval. *)
Definition counters (s : PS) : option (Z * Z) :=
  match intervalTask s with
  | Some (_, VadTick _ silenceCount speechCount) => Some (silenceCount, speechCount)
  | _ => None
  end.

End AudioPlayer.

(* ===================================================================== *)
(** * ScriptPracticeScreen: playing the current sentence, global pause     *)
(* ===================================================================== *)

Module Screen.
Import Practice.

(** ['tts' | 'original' | 'video'] *)
Inductive Mode := tts | original | video.

Record Screen := {
  sentences : list PracticeSentence;
  currentSentenceIndex : Z;
  isPlaying : bool;
  isAutoPlay : bool;
  isAudioPlaying : bool;
  playbackMode : option Mode;
  isTTSPlaying : bool;
  isGlobalPlaying : bool;
  currentSentence : option PracticeSentence;
  sentenceTimerRef : option nat;
  (** [audioPlayerRef.current] is set while the [AudioPlayer] is mounted *)
  audioPlayerRef : bool;
  (** the text [TTSService] is speaking; how a speech ends is left out *)
  speaking : option string
}.

(** The whole of the running screen: what it does not decide, the timers, the
    audio player, its own state, and the [onSilenceDetected] callbacks invoked
    so far. *)
Record App := {
  env : AudioPlayer.Env;
  loop : Timers.Loop Task;
  player : AudioPlayer.Player;
  screen : Screen;
  fired : list Callback
}.

Definition with_ps (s : AudioPlayer.PS) (a : App) : App :=
  {| env := env a; loop := fst s; player := snd s; screen := screen a;
     fired := fired a |}.

Definition with_loop (l : Timers.Loop Task) (a : App) : App :=
  {| env := env a; loop := l; player := player a; screen := screen a;
     fired := fired a |}.

Definition with_screen (sc : Screen) (a : App) : App :=
  {| env := env a; loop := loop a; player := player a; screen := sc;
     fired := fired a |}.

Definition ps (a : App) : AudioPlayer.PS := (loop a, player a).

(** ** State setters *)

Definition setIsPlaying (b : bool) (sc : Screen) : Screen :=
  {| sentences := sentences sc; currentSentenceIndex := currentSentenceIndex sc;
     isPlaying := b; isAutoPlay := isAutoPlay sc;
     isAudioPlaying := isAudioPlaying sc; playbackMode := playbackMode sc;
     isTTSPlaying := isTTSPlaying sc; isGlobalPlaying := isGlobalPlaying sc;
     currentSentence := currentSentence sc;
     sentenceTimerRef := sentenceTimerRef sc;
     audioPlayerRef := audioPlayerRef sc; speaking := speaking sc |}.

Definition setIsAutoPlay (b : bool) (sc : Screen) : Screen :=
  {| sentences := sentences sc; currentSentenceIndex := currentSentenceIndex sc;
     isPlaying := isPlaying sc; isAutoPlay := b;
     isAudioPlaying := isAudioPlaying sc; playbackMode := playbackMode sc;
     isTTSPlaying := isTTSPlaying sc; isGlobalPlaying := isGlobalPlaying sc;
     currentSentence := currentSentence sc;
     sentenceTimerRef := sentenceTimerRef sc;
     audioPlayerRef := audioPlayerRef sc; speaking := speaking sc |}.

Definition setIsAudioPlaying (b : bool) (sc : Screen) : Screen :=
  {| sentences := sentences sc; currentSentenceIndex := currentSentenceIndex sc;
     isPlaying := isPlaying sc; isAutoPlay := isAutoPlay sc;
     isAudioPlaying := b; playbackMode := playbackMode sc;
     isTTSPlaying := isTTSPlaying sc; isGlobalPlaying := isGlobalPlaying sc;
     currentSentence := currentSentence sc;
     sentenceTimerRef := sentenceTimerRef sc;
     audioPlayerRef := audioPlayerRef sc; speaking := speaking sc |}.

Definition setPlaybackMode (m : option Mode) (sc : Screen) : Screen :=
  {| sentences := sentences sc; currentSentenceIndex := currentSentenceIndex sc;
     isPlaying := isPlaying sc; isAutoPlay := isAutoPlay sc;
     isAudioPlaying := isAudioPlaying sc; playbackMode := m;
     isTTSPlaying := isTTSPlaying sc; isGlobalPlaying := isGlobalPlaying sc;
     currentSentence := currentSentence sc;
     sentenceTimerRef := sentenceTimerRef sc;
     audioPlayerRef := audioPlayerRef sc; speaking := speaking sc |}.

Definition setIsTTSPlaying (b : bool) (sc : Screen) : Screen :=
  {| sentences := sentences sc; currentSentenceIndex := currentSentenceIndex sc;
     isPlaying := isPlaying sc; isAutoPlay := isAutoPlay sc;
     isAudioPlaying := isAudioPlaying sc; playbackMode := playbackMode sc;
     isTTSPlaying := b; isGlobalPlaying := isGlobalPlaying sc;
     currentSentence := currentSentence sc;
     sentenceTimerRef := sentenceTimerRef sc;
     audioPlayerRef := audioPlayerRef sc; speaking := speaking sc |}.

Definition setIsGlobalPlaying (b : bool) (sc : Screen) : Screen :=
  {| sentences := sentences sc; currentSentenceIndex := currentSentenceIndex sc;
     isPlaying := isPlaying sc; isAutoPlay := isAutoPlay sc;
     isAudioPlaying := isAudioPlaying sc; playbackMode := playbackMode sc;
     isTTSPlaying := isTTSPlaying sc; isGlobalPlaying := b;
     currentSentence := currentSentence sc;
     sentenceTimerRef := sentenceTimerRef sc;
     audioPlayerRef := audioPlayerRef sc; speaking := speaking sc |}.

Definition setCurrentSentence (s : option PracticeSentence) (sc : Screen)
  : Screen :=
  {| sentences := sentences sc; currentSentenceIndex := currentSentenceIndex sc;
     isPlaying := isPlaying sc; isAutoPlay := isAutoPlay sc;
     isAudioPlaying := isAudioPlaying sc; playbackMode := playbackMode sc;
     isTTSPlaying := isTTSPlaying sc; isGlobalPlaying := isGlobalPlaying sc;
     currentSentence := s;
     sentenceTimerRef := sentenceTimerRef sc;
     audioPlayerRef := audioPlayerRef sc; speaking := speaking sc |}.

Definition set_sentenceTimerRef (h : option nat) (sc : Screen) : Screen :=
  {| sentences := sentences sc; currentSentenceIndex := currentSentenceIndex sc;
     isPlaying := isPlaying sc; isAutoPlay := isAutoPlay sc;
     isAudioPlaying := isAudioPlaying sc; playbackMode := playbackMode sc;
     isTTSPlaying := isTTSPlaying sc; isGlobalPlaying := isGlobalPlaying sc;
     currentSentence := currentSentence sc;
     sentenceTimerRef := h;
     audioPlayerRef := audioPlayerRef sc; speaking := speaking sc |}.

Definition set_speaking (t : option string) (sc : Screen) : Screen :=
  {| sentences := sentences sc; currentSentenceIndex := currentSentenceIndex sc;
     isPlaying := isPlaying sc; isAutoPlay := isAutoPlay sc;
     isAudioPlaying := isAudioPlaying sc; playbackMode := playbackMode sc;
     isTTSPlaying := isTTSPlaying sc; isGlobalPlaying := isGlobalPlaying sc;
     currentSentence := currentSentence sc;
     sentenceTimerRef := sentenceTimerRef sc;
     audioPlayerRef := audioPlayerRef sc; speaking := t |}.

Definition on_screen (f : Screen -> Screen) (a : App) : App :=
  with_screen (f (screen a)) a.

(** The closure of the handlers of the current render. *)
Definition closure (a : App) : Closure :=
  {| Practice.isAutoPlay := isAutoPlay (screen a);
     Practice.sentences := sentences (screen a) |}.

(** ** Array helpers *)

(** [sentences.findIndex(s => s.start === sentence.start)], -1 if none *)
Fixpoint findIndex (start0 : Z) (ss : list PracticeSentence) (i : Z) : Z :=
  match ss with
  | [] => -1
  | s :: rest => if start s =? start0 then i else findIndex start0 rest (i + 1)
  end.

(** [sentences[i]], [undefined] out of range *)
Definition at_ (ss : list PracticeSentence) (i : Z) : option PracticeSentence :=
  if i <? 0 then None else nth_error ss (Z.to_nat i).

Definition paddingMs : Z := 200.

(** ** playSentenceOnly and its callbacks *)

(** The auto-advance both end-of-sentence callbacks share. *)
Definition autoAdvance (sentence : PracticeSentence) (cl : Closure) (a : App)
  : App :=
  if Practice.isAutoPlay cl then
    let currentIndex := findIndex (start sentence) (Practice.sentences cl) 0 in
    if currentIndex <? Z.of_nat (length (Practice.sentences cl)) - 1 then
      match at_ (Practice.sentences cl) (currentIndex + 1) with
      | Some next =>
          let '(_, l) := Timers.setTimeout (PlayNext next cl) 500 (loop a) in
          with_loop l a
      | None => a
      end
    else a
  else a.

(** The callback handed to [playWithVAD]. *)
Definition onSilenceDetected (sentence : PracticeSentence) (cl : Closure)
           (a : App) : App :=
  let a := {| env := env a; loop := loop a; player := player a;
              screen := screen a;
              fired := fired a ++ [OnSilence sentence cl] |} in
  let a := on_screen (setIsPlaying false) a in
  let a := on_screen (setCurrentSentence None) a in
  autoAdvance sentence cl a.

(** The callback of [stopTimer]. *)
Definition stopSentence (sentence : PracticeSentence) (cl : Closure) (a : App)
  : App :=
  if audioPlayerRef (screen a) then
    let a := with_ps (AudioPlayer.pause (env a) (ps a)) a in
    let a := on_screen (setIsPlaying false) a in
    let a := on_screen (setCurrentSentence None) a in
    autoAdvance sentence cl a
  else a.

(** [playSentenceOnly(sentence)], called from a render whose state variables
    are [cl]. *)
Definition playSentenceOnly (sentence : PracticeSentence) (cl : Closure)
           (a : App) : App :=
  if negb (audioPlayerRef (screen a)) then a
  else
    let a := on_screen (setCurrentSentence (Some sentence)) a in
    let a := on_screen (setIsPlaying true) a in
    let a := with_ps (AudioPlayer.seekTo (start sentence) (ps a)) a in
    let endTime := start sentence + duration sentence in
    match AudioPlayer.OS (env a) with
    | web =>
        with_ps (AudioPlayer.playWithVAD (env a) (OnSilence sentence cl)
                   endTime (ps a)) a
    | native =>
        let a := with_ps (AudioPlayer.play (env a) (ps a)) a in
        let '(stopTimer, l) :=
          Timers.setTimeout (StopSentence sentence cl)
                            (duration sentence * 1000 + paddingMs) (loop a) in
        let l := Timers.clearRef (sentenceTimerRef (screen a)) l in
        on_screen (set_sentenceTimerRef (Some stopTimer)) (with_loop l a)
    end.

(** ** TTS, as far as the flags of the screen go *)

Definition TTSService_stop (a : App) : App := on_screen (set_speaking None) a.

Definition speakSentence (t : string) (a : App) : App :=
  let a := on_screen (setIsTTSPlaying true) a in
  let a := on_screen (setIsGlobalPlaying true) a in
  on_screen (set_speaking (Some t)) a.

(** ** toggleGlobalPlayback *)

(** The branch taken while [isGlobalPlaying]: the global pause. *)
Definition pauseAll (a : App) : App :=
  (* Stop TTS *)
  let a := if isTTSPlaying (screen a)
           then on_screen (setIsTTSPlaying false) (TTSService_stop a)
           else a in
  (* Stop original audio *)
  let a := if isAudioPlaying (screen a) && audioPlayerRef (screen a)
           then on_screen (setIsAudioPlaying false)
                  (with_ps (AudioPlayer.pause (env a) (ps a)) a)
           else a in
  (* Stop Auto Play *)
  let a := if isAutoPlay (screen a)
           then on_screen (setIsAutoPlay false) a else a in
  (* Clear timers *)
  let a := match sentenceTimerRef (screen a) with
           | Some h =>
               on_screen (set_sentenceTimerRef None)
                 (with_loop (Timers.clearTimer h (loop a)) a)
           | None => a
           end in
  on_screen (setIsGlobalPlaying false) a.

(** The branch taken otherwise: play the current sentence in the current
    mode. *)
Definition playCurrent (a : App) : App :=
  match at_ (sentences (screen a)) (currentSentenceIndex (screen a)) with
  | None => a
  | Some current =>
      let cl := closure a in
      let a := on_screen (setIsGlobalPlaying true) a in
      match playbackMode (screen a) with
      | Some tts => speakSentence (text current) a
      | Some original => playSentenceOnly current cl a
      | _ =>
          let a := on_screen (setPlaybackMode (Some original)) a in
          playSentenceOnly current cl a
      end
  end.

Definition toggleGlobalPlayback (a : App) : App :=
  if isGlobalPlaying (screen a) then pauseAll a else playCurrent a.

(** ** Time passing *)

Definition invoke (cb : option Callback) (a : App) : App :=
  match cb with
  | Some (OnSilence sentence cl) => onSilenceDetected sentence cl a
  | None => a
  end.

(** Run the callback of the timer [t]. *)
Definition run (t : Timers.Timer Task) (a : App) : App :=
  match Timers.task t with
  | StopSentence sentence cl => stopSentence sentence cl a
  | PlayNext sentence cl => playSentenceOnly sentence cl a
  | VadTick isPlaying0 silenceCount speechCount =>
      let '(s, cb) :=
        AudioPlayer.vadTick (AudioPlayer.analyse (env a) (Timers.now (loop a)))
          (Timers.handle t) isPlaying0 silenceCount speechCount (ps a) in
      invoke cb (with_ps s a)
  | VadFallback =>
      let '(s, cb) := AudioPlayer.vadFallback (ps a) in
      invoke cb (with_ps s a)
  | CheckEnd sentenceEndTime0 =>
      with_ps (AudioPlayer.checkAndStopAtSentenceEnd sentenceEndTime0 (ps a)) a
  end.

(** Let the next timer fire, if one is pending. *)
Definition step (a : App) : option App :=
  match Timers.next (loop a) with
  | None => None
  | Some (t, l) => Some (run t (with_loop l a))
  end.

(** Let up to [n] timers fire. *)
Fixpoint steps (n : nat) (a : App) : App :=
  match n with
  | O => a
  | S n' => match step a with Some a' => steps n' a' | None => a end
  end.

(** The end-of-sentence triggers that are armed: the stop timers, the
    detector intervals and the fallback delays among the pending timers. *)
Definition isTrigger (t : Timers.Timer Task) : bool :=
  match Timers.task t with
  | StopSentence _ _ | VadTick _ _ _ | VadFallback => true
  | PlayNext _ _ | CheckEnd _ => false
  end.

Definition armedTriggers (a : App) : list (Timers.Timer Task) :=
  List.filter isTrigger (Timers.pending (loop a)).

(** What the screen can come to: handlers and timers from a loaded screen. *)
Inductive reachable (a0 : App) : App -> Prop :=
| reach_start : reachable a0 a0
| reach_toggle a : reachable a0 a -> reachable a0 (toggleGlobalPlayback a)
| reach_play a s : reachable a0 a -> reachable a0 (playSentenceOnly s (closure a) a)
| reach_step a a' : reachable a0 a -> step a = Some a' -> reachable a0 a'.

End Screen.

(* ===================================================================== *)
(** * Sample runs                                                         *)
(* ===================================================================== *)

Module Scenarios.
Import Practice.

(** The sentence of the timer scenario. *)
Definition sentence_10_13 : PracticeSentence :=
  {| text := "ten to thirteen"; start := 10; end_ := 13; duration := 3 |}.

Definition sentence_13_15 : PracticeSentence :=
  {| text := "thirteen to fifteen"; start := 13; end_ := 15; duration := 2 |}.

Definition twoSentences : list PracticeSentence :=
  [sentence_10_13; sentence_13_15].

(** A frame of digital silence and a loud frame with energy in every bin. *)
Definition silentFrame : AudioPlayer.Frame :=
  {| AudioPlayer.dataArray := repeat "128"%byte 1024;
     AudioPlayer.frequencyData := repeat "000"%byte 1024 |}.

Definition loudFrame : AudioPlayer.Frame :=
  {| AudioPlayer.dataArray := repeat "255"%byte 1024;
     AudioPlayer.frequencyData := repeat "200"%byte 1024 |}.

Definition stoppedAudio : AudioPlayer.Audio :=
  {| AudioPlayer.paused := true; AudioPlayer.positionMs := 0;
     AudioPlayer.since := 0 |}.

Definition env_of (os : PlatformOS) (g : nat -> AudioPlayer.GraphOutcome)
  : AudioPlayer.Env :=
  {| AudioPlayer.OS := os; AudioPlayer.graph := g;
     AudioPlayer.analyse := fun _ => silentFrame;
     AudioPlayer.playRejects := fun _ => false |}.

(** A browser on which the graph can be built. *)
Definition browser : AudioPlayer.Env := env_of web (fun _ => AudioPlayer.GraphBuilt).

(** A browser without the Web Audio API. *)
Definition oldBrowser : AudioPlayer.Env :=
  env_of web (fun _ => AudioPlayer.ContextThrows).

(** A browser in which the audio element is attached already. *)
Definition attachedBrowser : AudioPlayer.Env :=
  env_of web (fun _ => AudioPlayer.SourceAttached).

Definition phone : AudioPlayer.Env := env_of native (fun _ => AudioPlayer.GraphBuilt).

(** The screen once transcript and audio are loaded, in Original mode. *)
Definition loaded (E : AudioPlayer.Env) (autoPlay : bool) : Screen.App :=
  {| Screen.env := E;
     Screen.loop := Timers.idle;
     Screen.player := AudioPlayer.mounted (Some stoppedAudio);
     Screen.screen :=
       {| Screen.sentences := twoSentences;
          Screen.currentSentenceIndex := 0;
          Screen.isPlaying := false;
          Screen.isAutoPlay := autoPlay;
          Screen.isAudioPlaying := false;
          Screen.playbackMode := Some Screen.original;
          Screen.isTTSPlaying := false;
          Screen.isGlobalPlaying := false;
          Screen.currentSentence := None;
          Screen.sentenceTimerRef := None;
          Screen.audioPlayerRef := true;
          Screen.speaking := None |};
     Screen.fired := [] |}.

Definition cb_10_13 : Callback :=
  OnSilence sentence_10_13
            {| Practice.isAutoPlay := false; Practice.sentences := twoSentences |}.

(** A detector armed on a fresh player, from a render in which [isPlaying]
    is [isPlaying0]. *)
Definition armed (isPlaying0 : bool) : AudioPlayer.PS :=
  AudioPlayer.startVoiceActivityDetection browser isPlaying0 cb_10_13
    (Timers.idle, AudioPlayer.mounted (Some stoppedAudio)).

(** A sentence longer than the 5 second fallback of the detector. *)
Definition sentence_20_28 : PracticeSentence :=
  {| text := "twenty to twenty-eight"; start := 20; end_ := 28; duration := 8 |}.

Definition cb_20_28 : Callback :=
  OnSilence sentence_20_28
            {| Practice.isAutoPlay := false; Practice.sentences := twoSentences |}.

(** The stop timer of [sentence_10_13], as [playSentenceOnly] arms it on [a]. *)
Definition stopTimer_10_13 (a : Screen.App) : Timers.Timer Task :=
  {| Timers.handle := Timers.nextHandle (Screen.loop a);
     Timers.due := Timers.now (Screen.loop a) + 3200;
     Timers.every := None;
     Timers.task := StopSentence sentence_10_13 (Screen.closure a) |}.

(** The 8 second sentence played twice in succession on a loaded screen. *)
Definition playedOnce (E : AudioPlayer.Env) : Screen.App :=
  Screen.playSentenceOnly sentence_20_28 (Screen.closure (loaded E false))
    (loaded E false).

Definition playedTwice (E : AudioPlayer.Env) : Screen.App :=
  Screen.playSentenceOnly sentence_20_28 (Screen.closure (playedOnce E))
    (playedOnce E).

(** The armed detector after five silent ticks. *)
Definition fiveSilent : AudioPlayer.PS :=
  fst (AudioPlayer.ticks (repeat silentFrame 5) (armed true)).

End Scenarios.

(* ===================================================================== *)
(** * Whisper service: vocabulary and sample worlds of further statements *)
(* ===================================================================== *)

Module WhisperVocabulary.
Import Whisper.

(** A world without a network: every request is refused. *)
Definition world_offline : World :=
  {| subtitles := fun _ _ _ => Rejects "Network request failed";
     cached := fun _ _ => (10, Rejects "Network request failed");
     audio := fun _ _ => Rejects "Network request failed";
     cacheFile := fun _ _ => "file:///cache/audio_abc_0.m4a";
     download := fun _ _ _ => Rejects "Network request failed";
     info := fun _ _ => Rejects "Network request failed";
     transcribe := fun _ _ _ => Rejects "Network request failed";
     delete := fun _ _ => Rejects "Network request failed" |}.

(** A video without captions whose cached transcription is empty. *)
Definition world_empty_transcription : World :=
  {| subtitles := subtitles world_uncaptioned;
     cached := fun _ _ => (10, Resolves {| ok := true; json := Resolves noData |});
     audio := audio world_uncaptioned;
     cacheFile := cacheFile world_uncaptioned;
     download := download world_uncaptioned;
     info := info world_uncaptioned;
     transcribe := transcribe world_uncaptioned;
     delete := delete world_uncaptioned |}.

(** A video without captions whose audio cannot be extracted. *)
Definition world_no_audio : World :=
  {| subtitles := subtitles world_uncaptioned;
     cached := cached world_uncaptioned;
     audio := fun _ _ => Resolves None;
     cacheFile := cacheFile world_uncaptioned;
     download := download world_uncaptioned;
     info := info world_uncaptioned;
     transcribe := transcribe world_uncaptioned;
     delete := delete world_uncaptioned |}.

(** Requests to the file system of the device. *)
Definition touchesFile (r : Request) : bool :=
  match r with
  | Download _ _ | GetInfo _ | Delete _ => true
  | _ => false
  end.

Definition isDelete (r : Request) : bool :=
  match r with Delete _ => true | _ => false end.

(** The caption request sent after the requests [h] comes back with a
    transcript [getTranscriptData] accepts. *)
Definition captionsUsable (W : World) (h : list Request) (videoId : string)
  : bool :=
  match subtitles W h videoId true with
  | Resolves data =>
      sd_success data
      && match sd_sentences data with
         | Some ss => 0 <? Z.of_nat (length ss)
         | None => false
         end
  | Rejects _ => false
  end.

Definition networkError : string :=
  "Failed to get transcript: Network connection failed. Please check your internet connection and try again.".

Definition unavailableError : string :=
  "Failed to get transcript: Both YouTube subtitles and Whisper AI are unavailable for this video. Please try a different video or check your connection.".

End WhisperVocabulary.

(* ===================================================================== *)
(** * loadTranscript: what the practice screen shows for a transcript      *)
(* ===================================================================== *)

Module Overlapping.
Import Whisper.

(** [await m] in a call that is not alone: the call is suspended until the
    promise settles, and goes on with [sourceCache] and the request log as
    the tasks that ran in the meantime have left them.  [meanwhile] is what
    those tasks do while the last request of [m] is in flight. *)
Definition awaiting {A} (meanwhile : State -> State) (m : Async A) : Async A :=
  fun st => let '(o, st') := m st in (o, meanwhile st').

Section Service.
Variable W : World.
Variable OS : PlatformOS.
Variable meanwhile : State -> State.

(** [getTranscriptData], with its four [await]s as the points where other
    tasks run.  The functions it awaits do not touch [sourceCache]. *)
Definition getTranscriptData (videoId : string) : Async TranscriptResult :=
  try_catch
    (preferredSource ← sourceCache_get videoId;
     early ← match preferredSource with
             | Some whisper =>
                 try_catch
                   (whisperResult ← awaiting meanwhile
                                      (transcribeWithWhisper W OS videoId);
                    mret (Some whisperResult))
                   (fun _ => mret None)
             | Some youtube =>
                 try_catch
                   (youtubeResult ← awaiting meanwhile
                                      (getYouTubeSubtitles W videoId true);
                    if usable youtubeResult then mret (Some youtubeResult)
                    else mret None)
                   (fun _ => mret None)
             | None => mret None
             end;
     match early with
     | Some result => mret result
     | None =>
         first ← try_catch
                   (youtubeResult ← awaiting meanwhile
                                      (getYouTubeSubtitles W videoId true);
                    if usable youtubeResult then
                      _ ← sourceCache_set videoId youtube;
                      mret (Some youtubeResult)
                    else mret None)
                   (fun _ => mret None);
         match first with
         | Some result => mret result
         | None =>
             try_catch
               (whisperResult ← awaiting meanwhile
                                  (transcribeWithWhisper W OS videoId);
                _ ← sourceCache_set videoId whisper;
                mret whisperResult)
               (fun e =>
                  throw
                    (if includes e "Network request failed"
                     then "Network connection failed. Please check your internet connection and try again."
                     else "Both YouTube subtitles and Whisper AI are unavailable for this video. Please try a different video or check your connection."))
         end
     end)
    (fun e => throw ("Failed to get transcript: " +:+ e)).

End Service.

(** Another call of [getTranscriptData], started and settled while the
    first is suspended. *)
Definition overlappingCall (W : World) (OS : PlatformOS) (videoId : string)
  : State -> State :=
  fun st => (Whisper.getTranscriptData W OS videoId st).2.

Definition isUpload (r : Request) : bool :=
  match r with PostTranscribe _ _ => true | _ => false end.

(** A video with captions whose transcription endpoint takes one upload at
    a time: an upload sent after another is refused. *)
Definition world_busy : World :=
  {| subtitles := subtitles world_captioned;
     cached := cached world_uncaptioned;
     audio := audio world_uncaptioned;
     cacheFile := cacheFile world_uncaptioned;
     download := download world_uncaptioned;
     info := info world_uncaptioned;
     transcribe := fun h videoId audio =>
       if existsb isUpload h
       then Resolves {| ok := false;
                        json := Resolves
                                  {| wd_sentences := None;
                                     wd_transcription := None;
                                     wd_duration := None;
                                     wd_error := Some "Transcription in progress" |} |}
       else transcribe world_uncaptioned h videoId audio;
     delete := delete world_uncaptioned |}.

(** The first call, with the video remembered as transcribed, at the time
    its upload is in flight. *)
Definition uploading : State :=
  {| sourceCache := {[ "abc" := whisper ]};
     requests := [GetCached "abc" 5000; GetAudioUrl "abc";
                  PostTranscribe "abc" "https://cdn/abc.m4a"] |}.

Definition transcript_abc : TranscriptResult :=
  {| success := true; source := whisper; sentences := s4;
     transcription := Some "one two three four"; totalDuration := Some 9 |}.

End Overlapping.

Module LoadTranscript.
Import Whisper.

(** [message.toLowerCase()], on the ASCII messages the screen is handed. *)
Definition lowerAscii (c : ascii) : ascii :=
  let n := nat_of_ascii c in
  if ((65 <=? n) && (n <=? 90))%nat then ascii_of_nat (n + 32) else c.

Fixpoint toLowerCase (s : string) : string :=
  match s with
  | EmptyString => EmptyString
  | String c rest => String (lowerAscii c) (toLowerCase rest)
  end.

(** The five texts [userMessage] can hold. *)
Inductive UserMessage :=
(** 'Failed to load transcript. Please try again.' *)
| defaultMessage
(** 'This video doesn't have English subtitles. ...' *)
| noSubtitlesMessage
(** 'This video is not accessible. ...' *)
| notAccessibleMessage
(** 'Network connection failed. ...' *)
| networkMessage
(** 'This video doesn't have English subtitles and audio extraction
    failed. ...' *)
| extractionMessage.

(** The [if]/[else if] chain of the [catch] block. *)
Definition userMessageOf (message : string) : UserMessage :=
  let errorMessage := toLowerCase message in
  if includes errorMessage "no english subtitles"
     || includes errorMessage "no subtitles available"
     || includes errorMessage "no english captions"
  then noSubtitlesMessage
  else if includes errorMessage "video not accessible"
          || includes errorMessage "private"
          || includes errorMessage "age-restricted"
  then notAccessibleMessage
  else if includes errorMessage "network"
          || includes errorMessage "connection"
  then networkMessage
  else if includes errorMessage "both youtube subtitles and whisper"
  then extractionMessage
  else defaultMessage.

(** The state variables [loadTranscript] writes, the alert it raises and the
    [transcriptSource] it reports to the history service. *)
Record View := {
  sentences : list Practice.PracticeSentence;
  loading : bool;
  transcriptError : option UserMessage;
  alert : option UserMessage;
  historySource : option Source
}.

(** The screen as it is mounted. *)
Definition initial : View :=
  {| sentences := []; loading := true; transcriptError := None;
     alert := None; historySource := None |}.

(** The [map] of [loadTranscript]; [correctedWords] and [originalWords] are
    copies of [text]. *)
Definition practiceSentence (s : ProcessedSentence) : Practice.PracticeSentence :=
  {| Practice.text := text s; Practice.start := start s;
     Practice.end_ := end_ s; Practice.duration := duration s |}.

(** The [catch] and [finally] blocks. *)
Definition failed (OS : PlatformOS) (message : string) (v : View) : View :=
  let userMessage := userMessageOf message in
  {| sentences := sentences v; loading := false;
     transcriptError := Some userMessage;
     alert := match OS with web => alert v | native => Some userMessage end;
     historySource := historySource v |}.

(** [loadTranscript].  [addToHistory] catches its own errors, so the [await]
    on it always returns. *)
Definition loadTranscript (W : World) (OS : PlatformOS) (videoId : string)
           (v : View) (st : State) : View * State :=
  match getTranscriptData W OS videoId st with
  | (Returns result, st') =>
      if usable result then
        ({| sentences := practiceSentence <$> Whisper.sentences result;
            loading := false;
            transcriptError := transcriptError v;
            alert := alert v;
            historySource := Some (source result) |}, st')
      else (failed OS "No transcript data available" v, st')
  | (Throws message, st') => (failed OS message v, st')
  end.

End LoadTranscript.

(* ===================================================================== *)
(** * ScriptPracticeScreen: the Auto button and a press on a sentence      *)
(* ===================================================================== *)

Module Handlers.
Import Practice Screen.

Definition setCurrentSentenceIndex (i : Z) (sc : Screen) : Screen :=
  {| sentences := sentences sc; currentSentenceIndex := i;
     isPlaying := isPlaying sc; isAutoPlay := isAutoPlay sc;
     isAudioPlaying := isAudioPlaying sc; playbackMode := playbackMode sc;
     isTTSPlaying := isTTSPlaying sc; isGlobalPlaying := isGlobalPlaying sc;
     currentSentence := currentSentence sc;
     sentenceTimerRef := sentenceTimerRef sc;
     audioPlayerRef := audioPlayerRef sc; speaking := speaking sc |}.

(** The timer [playNextSentence] arms inside [startAutoPlay]: its delay and
    the index it would move to.  It is handed back rather than queued. *)
Record AutoPlayTimer := { delayMs : Z; nextIndex : Z }.

(** [sentences[currentSentenceIndex]?.duration || 3] *)
Definition durationOr3 (ss : list PracticeSentence) (i : Z) : Z :=
  match at_ ss i with
  | Some s => if duration s =? 0 then 3 else duration s
  | None => 3
  end.

(** [startAutoPlay()], called from the render whose state is [sc0]. *)
Definition startAutoPlay (sc0 : Screen) (a : App) : App * option AutoPlayTimer :=
  if negb (isAutoPlay sc0)
     || (Z.of_nat (length (sentences sc0)) <=? currentSentenceIndex sc0)
  then (on_screen (setIsGlobalPlaying false) a, None)
  else
    let nextIndex := currentSentenceIndex sc0 + 1 in
    if (nextIndex <? Z.of_nat (length (sentences sc0))) && isAutoPlay sc0
    then (a, Some {| delayMs := durationOr3 (sentences sc0)
                                   (currentSentenceIndex sc0) * 1000 + 1000;
                     nextIndex := nextIndex |})
    else (on_screen (setIsAutoPlay false)
            (on_screen (setIsGlobalPlaying false) a), None).

(** [handleAutoPlay()]: the handler of the Auto / Stop button. *)
Definition handleAutoPlay (a : App) : App * option AutoPlayTimer :=
  let sc0 := screen a in
  if isAutoPlay sc0 then
    let a := on_screen (setIsAutoPlay false) a in
    let a := on_screen (setIsGlobalPlaying false) a in
    let a := on_screen (setIsPlaying false) a in
    let a := on_screen (setIsTTSPlaying false) a in
    let a := on_screen (setIsAudioPlaying false) a in
    let a := if audioPlayerRef (screen a)
             then on_screen (setIsAudioPlaying false)
                    (with_ps (AudioPlayer.pause (env a) (ps a)) a)
             else a in
    let a := if isTTSPlaying sc0
             then on_screen (setIsTTSPlaying false) (TTSService_stop a)
             else a in
    let a := match sentenceTimerRef (screen a) with
             | Some h =>
                 on_screen (set_sentenceTimerRef None)
                   (with_loop (Timers.clearTimer h (loop a)) a)
             | None => a
             end in
    (a, None)
  else
    let a := on_screen (setIsAutoPlay true) a in
    let a := match playbackMode sc0 with
             | None => on_screen (setPlaybackMode (Some original)) a
             | Some _ => a
             end in
    startAutoPlay sc0 a.

(** [handleSentencePress(index)].  The second component tells whether the
    mode alert is shown (and its 3 second hiding armed).  A [sentences[index]]
    that is [undefined] makes the handler throw where it first reads the
    sentence. *)
Definition handleSentencePress (index : Z) (a : App) : App * bool :=
  let sc0 := screen a in
  let cl := closure a in
  if isPlaying sc0 || isTTSPlaying sc0 then
    let a := if audioPlayerRef (screen a)
             then on_screen (setIsPlaying false)
                    (with_ps (AudioPlayer.pause (env a) (ps a)) a)
             else a in
    let a := TTSService_stop a in
    (on_screen (setIsTTSPlaying false) a, false)
  else
    let a := on_screen (setCurrentSentenceIndex index) a in
    match playbackMode sc0 with
    | None => (a, true)
    | Some mode =>
        let a := match sentenceTimerRef (screen a) with
                 | Some h =>
                     on_screen (set_sentenceTimerRef None)
                       (with_loop (Timers.clearTimer h (loop a)) a)
                 | None => a
                 end in
        match mode, at_ (sentences sc0) index with
        | tts, Some sentence =>
            (speakSentence (text sentence) (TTSService_stop a), false)
        | tts, None => (TTSService_stop a, false)
        | original, Some sentence => (playSentenceOnly sentence cl a, false)
        | original, None =>
            (if audioPlayerRef (screen a)
             then on_screen (setIsPlaying true)
                    (on_screen (setCurrentSentence None) a)
             else a, false)
        | video, _ => (a, false)
        end
    end.

(** The end of a speech: the [then] of [speakWithExpoSpeech]. *)
Definition speechDone (a : App) : App :=
  on_screen (setIsGlobalPlaying false) (on_screen (setIsTTSPlaying false) a).

(** What the screen can come to through its buttons, its sentences and its
    timers. *)
Inductive reaches (a0 : App) : App -> Prop :=
| reaches_start : reaches a0 a0
| reaches_toggle a : reaches a0 a -> reaches a0 (toggleGlobalPlayback a)
| reaches_auto a : reaches a0 a -> reaches a0 (fst (handleAutoPlay a))
| reaches_press a i : reaches a0 a -> reaches a0 (fst (handleSentencePress i a))
| reaches_mode a m :
    reaches a0 a -> reaches a0 (on_screen (setPlaybackMode (Some m)) a)
| reaches_speechDone a : reaches a0 a -> reaches a0 (speechDone a)
| reaches_step a a' : reaches a0 a -> step a = Some a' -> reaches a0 a'.


(** The queue of a device: stop timers and auto-advance delays only, with
    distinct handles below [nextHandle], every stop timer being the one
    [sentenceTimerRef] refers to. *)
Definition isStopOrNext (t : Timers.Timer Task) : bool :=
  match Timers.task t with
  | StopSentence _ _ | PlayNext _ _ => true
  | _ => false
  end.

Record wellTimedAt (l : Timers.Loop Task) (ref : option nat) : Prop := {
  wt_tasks : forall t, t ∈ Timers.pending l ->
                       isStopOrNext t = true /\ Timers.every t = None;
  wt_ref : forall t, t ∈ Timers.pending l -> isTrigger t = true ->
                     ref = Some (Timers.handle t);
  wt_distinct : NoDup (Timers.handle <$> Timers.pending l);
  wt_below : forall t, t ∈ Timers.pending l ->
                       (Timers.handle t < Timers.nextHandle l)%nat;
  wt_ref_below : forall h, ref = Some h -> (h < Timers.nextHandle l)%nat
}.

(** The intervals of the player: every sampling interval on the queue is
    the one [vadIntervalRef] holds, every end check the one
    [endCheckInterval] holds; handles are distinct and below [nextHandle]. *)
Definition isCheckEnd (t : Timers.Timer Task) : bool :=
  match Timers.task t with CheckEnd _ => true | _ => false end.

Record tidyAt (l : Timers.Loop Task) (vadIntervalRef endCheckInterval : option nat)
  : Prop := {
  tidy_sampling : forall t, t ∈ Timers.pending l ->
                            AudioPlayer.isSampling t = true ->
                            vadIntervalRef = Some (Timers.handle t);
  tidy_check : forall t, t ∈ Timers.pending l -> isCheckEnd t = true ->
                         endCheckInterval = Some (Timers.handle t);
  tidy_distinct : NoDup (Timers.handle <$> Timers.pending l);
  tidy_below : forall t, t ∈ Timers.pending l ->
                         (Timers.handle t < Timers.nextHandle l)%nat
}.

Definition tidy (s : AudioPlayer.PS) : Prop :=
  tidyAt (fst s) (AudioPlayer.vadIntervalRef (snd s))
         (AudioPlayer.endCheckInterval (snd s)).

Definition wellTimed (a : App) : Prop :=
  AudioPlayer.OS (env a) = native
  /\ wellTimedAt (loop a) (sentenceTimerRef (screen a)).

End Handlers.

(* ===================================================================== *)
(** * Whisper service: processYouTubeSubtitles                              *)
(* ===================================================================== *)

Module Subtitles.

(** A caption as [processYouTubeSubtitles] reads it: [subtitle.text], and
    the numbers [parseFloat] makes of [subtitle.start] and [subtitle.dur]. *)
Record Subtitle := { text : string; start : float; dur : float }.

Record Sentence := {
  s_text : string;
  s_start : float;
  s_end : float;
  s_duration : float
}.

(** White space of [String.prototype.trim] among the code units below 256:
    tab, line feed, vertical tab, form feed, carriage return, space and
    no-break space. *)
Definition isSpace (c : ascii) : bool :=
  let n := nat_of_ascii c in
  ((9 <=? n) && (n <=? 13) || (n =? 32) || (n =? 160))%nat.

Fixpoint trimStart (s : string) : string :=
  match s with
  | EmptyString => EmptyString
  | String c rest => if isSpace c then trimStart rest else s
  end.

Fixpoint trimEnd (s : string) : string :=
  match s with
  | EmptyString => EmptyString
  | String c rest =>
      match trimEnd rest with
      | EmptyString => if isSpace c then EmptyString else String c EmptyString
      | rest' => String c rest'
      end
  end.

Definition trim (s : string) : string := trimEnd (trimStart s).

Fixpoint lastChar (s : string) : option ascii :=
  match s with
  | EmptyString => None
  | String c EmptyString => Some c
  | String _ rest => lastChar rest
  end.

(** [/[.!?]$/.test(text)] *)
Definition endsSentence (t : string) : bool :=
  match lastChar t with
  | Some c => Ascii.eqb c "." || Ascii.eqb c "!" || Ascii.eqb c "?"
  | None => false
  end.

(** [currentSentence] *)
Record Current := { c_text : string; c_start : float; c_end : float }.

Definition reset : Current := {| c_text := ""; c_start := 0; c_end := 0 |}.

(** The body of the [forEach]; [isLast] is [index === subtitles.length - 1]. *)
Definition visit (subtitle : Subtitle) (isLast : bool)
           (st : list Sentence * Current) : list Sentence * Current :=
  let '(sentences, currentSentence) := st in
  let text0 := trim (text subtitle) in
  let start0 := start subtitle in
  let end0 := (start0 + dur subtitle)%float in
  let currentSentence :=
    if String.eqb (c_text currentSentence) ""
    then {| c_text := text0; c_start := start0; c_end := end0 |}
    else {| c_text := c_text currentSentence +:+ " " +:+ text0;
            c_start := c_start currentSentence; c_end := end0 |} in
  if endsSentence text0 || isLast
  then ((sentences
           ++ [{| s_text := trim (c_text currentSentence);
                  s_start := c_start currentSentence;
                  s_end := c_end currentSentence;
                  s_duration := (c_end currentSentence
                                 - c_start currentSentence)%float |}])%list,
        reset)
  else (sentences, currentSentence).

Fixpoint forEach (subtitles : list Subtitle) (st : list Sentence * Current)
  : list Sentence * Current :=
  match subtitles with
  | [] => st
  | subtitle :: rest =>
      forEach rest (visit subtitle (match rest with [] => true | _ => false end) st)
  end.

Definition processYouTubeSubtitles (subtitles : list Subtitle) : list Sentence :=
  fst (forEach subtitles ([], reset)).

(** The sentence a caption makes on its own. *)
Definition alone (subtitle : Subtitle) : Sentence :=
  {| s_text := trim (text subtitle);
     s_start := start subtitle;
     s_end := (start subtitle + dur subtitle)%float;
     s_duration := ((start subtitle + dur subtitle) - start subtitle)%float |}.

(** The captions that close a sentence: those that end in [.], [!] or [?],
    and the last one. *)
Fixpoint closers (subtitles : list Subtitle) : nat :=
  match subtitles with
  | [] => 0
  | [_] => 1
  | subtitle :: rest =>
      ((if endsSentence (trim (text subtitle)) then 1 else 0) + closers rest)%nat
  end.

Definition twoCaptions : list Subtitle :=
  [ {| text := " Hello there. "; start := 1; dur := 2 |};
    {| text := "How are you?"; start := 3; dur := 2 |} ].

End Subtitles.

(* ===================================================================== *)
(** * TTSService: speaking a sentence                                       *)
(* ===================================================================== *)

Module TTS.

(** What the service asks of [expo-speech], [expo-av], [fetch] and
    [expo-file-system]. *)
Inductive Call :=
| SpeechSpeak (text : string)
| SpeechStop
| StopAsync (sound : nat)
| UnloadAsync (sound : nat)
| PauseAsync (sound : nat)
| PlayAsync (sound : nat)
(** [POST /tts/speak] with [{text, voice, speed}] *)
| FetchSpeech (text voice : string) (speed : float)
| ArrayBuffer
(** [FileSystem.writeAsStringAsync(tempUri, base64Audio, Base64)] *)
| WriteFile (base64Audio : string)
| CreateSound.

(** What a call that is awaited resolves to: [response.ok], the bytes of
    the body, the sound created. *)
Definition Answer (c : Call) : Type :=
  match c with
  | FetchSpeech _ _ _ => bool
  | ArrayBuffer => list byte
  | CreateSound => nat
  | _ => unit
  end.

(** The fields of the service, and the calls it has made so far. *)
Record Service := { sound : option nat; isPlaying : bool; calls : list Call }.

Definition call (c : Call) (t : Service) : Service :=
  {| sound := sound t; isPlaying := isPlaying t;
     calls := (calls t ++ [c])%list |}.

Definition set_sound (s : option nat) (t : Service) : Service :=
  {| sound := s; isPlaying := isPlaying t; calls := calls t |}.

Definition set_isPlaying (b : bool) (t : Service) : Service :=
  {| sound := sound t; isPlaying := b; calls := calls t |}.

(** An [async] method: it runs until it is done, returning or throwing, or
    until it awaits a call; it goes on when the call settles ([None]: the
    promise is rejected), on the service as it is by then. *)
Inductive Run :=
| Done (threw : bool) (t : Service)
| Await (c : Call) (t : Service) (resume : option (Answer c) -> Service -> Run).

(** [await] on a call made now. *)
Definition await (c : Call) (t : Service)
           (resume : option (Answer c) -> Service -> Run) : Run :=
  Await c (call c t) resume.

(** The service when the method first yields: what a caller that does not
    [await] sees on the next line. *)
Definition yielded (r : Run) : Service :=
  match r with Done _ t => t | Await _ t _ => t end.

(** A method awaited on its own, every call answered by [world]. *)
Fixpoint complete (world : forall c, list Call -> option (Answer c)) (r : Run)
  : bool * Service :=
  match r with
  | Done threw t => (threw, t)
  | Await c t resume => complete world (resume (world c (calls t)) t)
  end.

(** A state some settlement of the awaited calls leads to, whatever became
    of the service while the method was suspended. *)
Fixpoint finishes (r : Run) (threw : bool) (final : Service) : Prop :=
  match r with
  | Done threw0 t => threw0 = threw /\ t = final
  | Await c t resume =>
      exists answer t', finishes (resume answer t') threw final
  end.

(** The lines of [stop] after its [if], when [Speech.stop()] returns: the
    call and the flag. *)
Definition stopSpeech (t : Service) : Service :=
  set_isPlaying false (call SpeechStop t).

(** [Speech.stop()] and the line after it, as they stand in [stop] and in
    [pause]: outside the [try] block, the promise of [Speech.stop()] not
    awaited.  A rejection of that promise reaches nobody; the call itself
    returns ([speechStops]) or throws, and what it throws leaves the
    method. *)
Definition speechStop (speechStops : bool) (t : Service) : Run :=
  if speechStops then Done false (stopSpeech t)
  else Done true (call SpeechStop t).

(** [stop()].  [this.sound] is read again after each [await]; reading
    [unloadAsync] of [null] throws into the [catch]. *)
Definition stopWith (speechStops : bool) (t : Service) : Run :=
  match sound t with
  | Some s =>
      await (StopAsync s) t (fun stopped t =>
        match stopped, sound t with
        | Some _, Some s' =>
            await (UnloadAsync s') t (fun unloaded t =>
              match unloaded with
              | Some _ =>
                  speechStop speechStops
                    (set_isPlaying false (set_sound None t))
              | None => speechStop speechStops t
              end)
        | _, _ => speechStop speechStops t
        end)
  | None => speechStop speechStops t
  end.

(** [stop()] where [Speech.stop()] returns. *)
Definition stop (t : Service) : Run := stopWith true t.

(** [pause()] *)
Definition pause (speechStops : bool) (t : Service) : Run :=
  match sound t with
  | Some s =>
      await (PauseAsync s) t (fun paused t =>
        match paused with
        | Some _ => speechStop speechStops (set_isPlaying false t)
        | None => speechStop speechStops t
        end)
  | None => speechStop speechStops t
  end.

(** [resume()] *)
Definition resume (t : Service) : Run :=
  match sound t with
  | Some s =>
      await (PlayAsync s) t (fun played t =>
        match played with
        | Some _ => Done false (set_isPlaying true t)
        | None => Done false t
        end)
  | None => Done false t
  end.

(** [cleanup()]: [unloadAsync] is called and not awaited. *)
Definition cleanup (t : Service) : Service :=
  match sound t with
  | Some s => set_sound None (call (UnloadAsync s) t)
  | None => t
  end.

(** [speakWithExpoSpeech(text)], up to the promise it returns. *)
Definition speakWithExpoSpeech (text : string) (t : Service) : Service :=
  call (SpeechSpeak text) (set_isPlaying true t).

(** [onDone], [onStopped] and [onError] of that speech. *)
Definition speechEnded (t : Service) : Service := set_isPlaying false t.

(** The status callback of the sound [speakWithOpenAI] created. *)
Definition onPlaybackStatusUpdate (isLoaded didJustFinish : bool) (t : Service)
  : Service :=
  if isLoaded && didJustFinish then cleanup (set_isPlaying false t) else t.

(** [TTSOptions] *)
Record TTSOptions := { voice : option string; speed : option float }.

(** [options.speed || 1.0]: [undefined], [0] and [NaN] are falsy. *)
Definition speedOr1 (x : option float) : float :=
  match x with
  | Some v => if PrimFloat.eqb v 0 || negb (PrimFloat.eqb v v) then 1 else v
  | None => 1
  end.

(** [speakWithOpenAI(text, options)].  [hasBtoa] tells whether [btoa] is
    defined.  [this.stop()] is called and not awaited: the method goes on
    with the service as [stop] leaves it when it first yields.  Every error
    is thrown again. *)
Definition speakWithOpenAI (hasBtoa : bool) (text : string)
           (options : TTSOptions) (t : Service) : Run :=
  let t := yielded (stop t) in
  await (FetchSpeech text (Whisper.or_string (voice options) "nova")
                     (speedOr1 (speed options))) t
    (fun response t =>
       match response with
       | Some true =>
           await ArrayBuffer t (fun body t =>
             match body with
             | Some uint8Array =>
                 let base64Audio :=
                   if hasBtoa then Base64.rfc4648_encode uint8Array
                   else Base64.arrayBufferToBase64 uint8Array in
                 await (WriteFile base64Audio) t (fun written t =>
                   match written with
                   | Some _ =>
                       await CreateSound t (fun created t =>
                         match created with
                         | Some s =>
                             Done false (set_isPlaying true (set_sound (Some s) t))
                         | None => Done true t
                         end)
                   | None => Done true t
                   end)
             | None => Done true t
             end)
       | _ => Done true t
       end).

(** The part of [speakSentence] that concerns the service: both ways of
    speaking are started, neither is awaited. *)
Definition speakSentence (hasBtoa : bool) (text selectedVoice : string)
           (t : Service) : Service :=
  let t := speakWithExpoSpeech text t in
  yielded (speakWithOpenAI hasBtoa text
             {| voice := Some selectedVoice; speed := Some 1%float |} t).

Definition silent : Service :=
  {| sound := None; isPlaying := false; calls := [] |}.

(** A world in which every call succeeds; the speech that is downloaded is
    the five bytes of "Hello". *)
Definition hello (c : Call) (log : list Call) : option (Answer c) :=
  match c return option (Answer c) with
  | FetchSpeech _ _ _ => Some true
  | ArrayBuffer => Some ["H"; "e"; "l"; "l"; "o"]%byte
  | CreateSound => Some 1%nat
  | _ => Some tt
  end.

End TTS.

(** Take a running screen apart into its components. *)
Ltac open_app a :=
  destruct a as [[os g an pr] l p sc fi];
  destruct p as [pl se ar ac anr vi onr ec att];
  destruct sc as [ss idx ip iap iaud pm itts igp cs str apr sp].

(** Decide the comparisons [x <? y] of a goal by [lia]. *)
Ltac zltb :=
  repeat match goal with
    | |- context [?x <? ?y] =>
        first [ rewrite (proj2 (Z.ltb_lt x y)) by lia
              | rewrite (proj2 (Z.ltb_ge x y)) by lia ]
    end.

(* ===================================================================== *)
(** * Theorems                                                            *)
(* ===================================================================== *)

Module TimersFacts.
Section Selection.
Context {Task : Type} (q : Timers.Timer Task -> bool).

(** Clearing the handle that every selected timer carries leaves none of
    them. *)
Lemma none_after_clear (h : nat) (pend : list (Timers.Timer Task)) :
  (forall t, t ∈ pend -> q t = true -> Timers.handle t = h) ->
  List.filter q (filter (fun t => Timers.handle t <> h) pend) = [].
Proof.
  induction pend as [| t pend IH]; intros Hall; [reflexivity |].
  rewrite filter_cons.
  assert (Hrest : List.filter q
                    (filter (fun t => Timers.handle t <> h) pend) = [])
    by (apply IH; intros t' Hin; apply Hall; now right).
  destruct (decide (Timers.handle t <> h)) as [Hne | Heq]; [| exact Hrest].
  cbn [List.filter]. destruct (q t) eqn:Hq; [| exact Hrest].
  exfalso. apply Hne, Hall; [left | exact Hq].
Qed.

Lemma none_selected (pend : list (Timers.Timer Task)) :
  (forall t, t ∈ pend -> q t = true -> False) ->
  List.filter q pend = [].
Proof.
  induction pend as [| t pend IH]; intros Hall; [reflexivity |].
  cbn [List.filter]. destruct (q t) eqn:Hq.
  - exfalso. apply (Hall t); [left | exact Hq].
  - apply IH. intros t' Hin. apply Hall. now right.
Qed.

End Selection.
End TimersFacts.

Module AudioPlayerFacts.
Import Practice AudioPlayer Scenarios.

(** *** The interval and its closure variables *)

Lemma filter_handle_map (h : nat) (g : Timers.Timer Task -> Timers.Timer Task)
      (ts : list (Timers.Timer Task)) :
  (forall t, Timers.handle (g t) = Timers.handle t) ->
  filter (fun t => Timers.handle t = h) (map g ts)
  = map g (filter (fun t => Timers.handle t = h) ts).
Proof.
  intros Hg. induction ts as [| t ts IH]; [reflexivity |].
  cbn [map]. rewrite !filter_cons, Hg.
  destruct (decide (Timers.handle t = h)); cbn [map]; now rewrite IH.
Qed.

Lemma intervalTask_retask (l : Timers.Loop Task) (p : Player) (h : nat)
      (t0 t : Task) :
  intervalTask (l, p) = Some (h, t0) ->
  intervalTask (Timers.retask h t l, p) = Some (h, t).
Proof.
  unfold intervalTask. cbn [fst snd].
  destruct (vadIntervalRef p) as [h' |]; [| discriminate].
  destruct (filter _ (Timers.pending l)) as [| x xs] eqn:Hf; [discriminate |].
  intros [= -> _]. unfold Timers.retask. cbn [Timers.pending].
  rewrite filter_handle_map.
  2: { intros y. destruct (Nat.eqb (Timers.handle y) h) eqn:Hy; [| reflexivity].
       cbn. symmetry. now apply Nat.eqb_eq. }
  rewrite Hf. cbn [map].
  assert (Hx : Timers.handle x = h).
  { assert (Hin : x ∈ filter (fun t => Timers.handle t = h) (Timers.pending l))
      by (rewrite Hf; left).
    now apply list_elem_of_filter in Hin as [? _]. }
  rewrite Hx, Nat.eqb_refl. reflexivity.
Qed.

(** *** One tick *)

(** The interval callback never has a callback to invoke: when the silence
    threshold is reached it calls [stopVoiceActivityDetection], which empties
    [onSilenceDetectedRef], before it tests that ref. *)
Lemma vadTick_invokes_nothing (f : Frame) (h : nat) (isPlaying0 : bool)
      (silenceCount speechCount : Z) (s : PS) :
  snd (vadTick f h isPlaying0 silenceCount speechCount s) = None.
Proof.
  unfold vadTick. destruct s as [l p].
  destruct (analyserRef p); [| reflexivity].
  destruct (negb isPlaying0); [reflexivity |].
  destruct (isSpeech f); [reflexivity |].
  destruct (silenceThreshold <=? silenceCount + 1); reflexivity.
Qed.

Lemma ticks_invoke_nothing (frames : list Frame) (s : PS) :
  snd (ticks frames s) = [].
Proof.
  revert s. induction frames as [| f frames IH]; intros s; [reflexivity |].
  cbn [ticks]. destruct (intervalTask s) as [[h [| | ip sc spc | |]] |];
    try reflexivity.
  pose proof (vadTick_invokes_nothing f h ip sc spc s) as Hnone.
  destruct (vadTick f h ip sc spc s) as [s1 fired]. cbn in Hnone. subst fired.
  specialize (IH s1). destruct (ticks frames s1) as [s2 later].
  cbn in IH |- *. exact IH.
Qed.

(** A tick of a detector that is not sampling ([isPlaying] false in its
    closure, or no analyser) changes nothing. *)
Lemma vadTick_idle (f : Frame) (h : nat) (isPlaying0 : bool)
      (silenceCount speechCount : Z) (s : PS) :
  isPlaying0 = false \/ analyserRef (snd s) = None ->
  vadTick f h isPlaying0 silenceCount speechCount s = (s, None).
Proof.
  unfold vadTick. destruct s as [l p]. cbn [snd].
  intros [-> | ->]; [destruct (analyserRef p) |]; reflexivity.
Qed.

(** A Speech tick: [speechCount] grows, and [silenceCount] is reset exactly
    when [speechCount] has reached [speechThreshold]. *)
Lemma vadTick_speech (f : Frame) (h : nat) (silenceCount speechCount : Z)
      (s : PS) :
  intervalTask s = Some (h, VadTick true silenceCount speechCount) ->
  analyserRef (snd s) <> None ->
  isSpeech f = true ->
  let s' := fst (vadTick f h true silenceCount speechCount s) in
  intervalTask s'
  = Some (h, VadTick true
               (if speechThreshold <=? speechCount + 1 then 0 else silenceCount)
               (speechCount + 1))
  /\ snd s' = snd s.
Proof.
  intros Harmed Han Hsp. unfold vadTick. destruct s as [l p]. cbn [snd] in *.
  destruct (analyserRef p); [| congruence]. rewrite Hsp. cbn.
  split; [| reflexivity]. eapply intervalTask_retask, Harmed.
Qed.

(** A Silence tick below the threshold: [silenceCount] grows, [speechCount]
    starts over. *)
Lemma vadTick_silence (f : Frame) (h : nat) (silenceCount speechCount : Z)
      (s : PS) :
  intervalTask s = Some (h, VadTick true silenceCount speechCount) ->
  analyserRef (snd s) <> None ->
  isSpeech f = false ->
  silenceCount + 1 < silenceThreshold ->
  let s' := fst (vadTick f h true silenceCount speechCount s) in
  intervalTask s' = Some (h, VadTick true (silenceCount + 1) 0)
  /\ snd s' = snd s.
Proof.
  intros Harmed Han Hsp Hlt. unfold vadTick. destruct s as [l p]. cbn [snd] in *.
  destruct (analyserRef p); [| congruence]. rewrite Hsp. cbn [negb].
  replace (silenceThreshold <=? silenceCount + 1) with false
    by (symmetry; apply Z.leb_gt; exact Hlt).
  cbn. split; [| reflexivity]. eapply intervalTask_retask, Harmed.
Qed.

(** *** A run of Speech ticks *)

Lemma speech_run (frames : list Frame) :
  forall (s : PS) (h : nat) (silenceCount speechCount : Z),
    intervalTask s = Some (h, VadTick true silenceCount speechCount) ->
    analyserRef (snd s) <> None ->
    0 <= speechCount ->
    Forall (fun f => isSpeech f = true) frames ->
    let n := Z.of_nat (length frames) in
    counters (fst (ticks frames s))
    = Some (if (speechThreshold <=? speechCount + n) && (0 <? n)
            then 0 else silenceCount,
            speechCount + n).
Proof.
  induction frames as [| f frames IH];
    intros s h silenceCount speechCount Harmed Han Hpos Hall n.
  - subst n. cbn [ticks fst length]. unfold counters. rewrite Harmed.
    change (Z.of_nat 0) with 0. rewrite andb_false_r, Z.add_0_r. reflexivity.
  - inversion Hall as [| ? ? Hf Hrest]; subst.
    destruct (vadTick_speech f h silenceCount speechCount s Harmed Han Hf)
      as (Harmed' & Hp').
    pose proof (vadTick_invokes_nothing f h true silenceCount speechCount s)
      as Hnone.
    cbn [ticks]. rewrite Harmed.
    destruct (vadTick f h true silenceCount speechCount s) as [s1 fired].
    cbn [fst snd] in *. subst fired.
    assert (Han' : analyserRef (snd s1) <> None) by now rewrite Hp'.
    specialize (IH s1 h _ _ Harmed' Han' ltac:(lia) Hrest).
    cbv zeta in IH.
    destruct (ticks frames s1) as [s2 later]. cbn [fst] in *.
    rewrite IH. subst n.
    replace (Z.of_nat (length (f :: frames)))
      with (Z.of_nat (length frames) + 1) by (cbn [length]; lia).
    unfold speechThreshold in *.
    f_equal. f_equal; [| lia].
    destruct (Z.of_nat (length frames)) as [| k | k] eqn:Hlen; try lia.
    + cbn. rewrite Z.add_0_r. destruct (3 <=? speechCount + 1) eqn:H1;
        rewrite ?andb_false_r; cbn; try reflexivity.
      all: replace (3 <=? speechCount + (0 + 1)) with (3 <=? speechCount + 1)
        by (f_equal; lia); rewrite H1; reflexivity.
    + replace (0 <? Z.pos k) with true by reflexivity.
      replace (0 <? Z.pos k + 1) with true by (symmetry; apply Z.ltb_lt; lia).
      rewrite !andb_true_r.
      replace (speechCount + 1 + Z.pos k) with (speechCount + (Z.pos k + 1)) by lia.
      destruct (3 <=? speechCount + (Z.pos k + 1)) eqn:H2; [reflexivity |].
      replace (3 <=? speechCount + 1) with false; [reflexivity |].
      symmetry. apply Z.leb_gt. apply Z.leb_gt in H2. lia.
Qed.

Lemma idle_run (frames : list Frame) (s : PS) (h : nat) (isPlaying0 : bool)
      (silenceCount speechCount : Z) :
  intervalTask s = Some (h, VadTick isPlaying0 silenceCount speechCount) ->
  isPlaying0 = false \/ analyserRef (snd s) = None ->
  fst (ticks frames s) = s.
Proof.
  intros Harmed Hidle. induction frames as [| f frames IH]; [reflexivity |].
  cbn [ticks]. rewrite Harmed, vadTick_idle by exact Hidle.
  destruct (ticks frames s) as [s2 later]. exact IH.
Qed.

(** C9.  A tick is Speech exactly when its RMS is above [volumeThreshold] and
    its speech-band energy above [speechFrequencyThreshold].  On any armed
    detector whose speech run starts, a run of Speech ticks shorter than
    [speechThreshold] (3) leaves [silenceCount] as it was; on a sampling
    detector a run that reaches [speechThreshold] leaves it at 0. *)
Theorem short_speech_run_keeps_silence_count
        (frames : list Frame) (s : PS) (h : nat) (isPlaying0 : bool)
        (silenceCount : Z) :
  intervalTask s = Some (h, VadTick isPlaying0 silenceCount 0) ->
  Forall (fun f => isSpeech f = true) frames ->
  let n := Z.of_nat (length frames) in
  let after := counters (fst (ticks frames s)) in
  (forall f,
      isSpeech f = true
      <-> PrimFloat.ltb volumeThreshold (rmsOf (dataArray f)) = true
          /\ PrimFloat.ltb speechFrequencyThreshold
                           (speechEnergyOf (frequencyData f)) = true)
  /\ (n < speechThreshold -> fst <$> after = Some silenceCount)
  /\ (isPlaying0 = true -> analyserRef (snd s) <> None ->
      speechThreshold <= n -> after = Some (0, n)).
Proof.
  intros Harmed Hall n after. split; [| split].
  - intros f. unfold isSpeech. apply andb_true_iff.
  - intros Hshort. subst after.
    destruct isPlaying0.
    + destruct (analyserRef (snd s)) as [c |] eqn:Han.
      * rewrite (speech_run frames s h silenceCount 0 Harmed) by
          (rewrite ?Han; first [discriminate | lia | assumption]).
        fold n. cbn [fmap option_fmap option_map fst]. f_equal.
        replace (speechThreshold <=? 0 + n) with false; [reflexivity |].
        symmetry. apply Z.leb_gt. lia.
      * rewrite (idle_run frames s h true silenceCount 0 Harmed) by now right.
        unfold counters. now rewrite Harmed.
    + rewrite (idle_run frames s h false silenceCount 0 Harmed) by now left.
      unfold counters. now rewrite Harmed.
  - intros -> Han Hlong. subst after.
    rewrite (speech_run frames s h silenceCount 0 Harmed Han) by (lia || assumption).
    fold n. f_equal. unfold speechThreshold in *.
    replace (3 <=? 0 + n) with true by (symmetry; apply Z.leb_le; lia).
    replace (0 <? n) with true by (symmetry; apply Z.ltb_lt; lia).
    reflexivity.
Qed.

Lemma short_speech_run_keeps_silence_count_witness :
  intervalTask fiveSilent = Some (1%nat, VadTick true 5 0)
  /\ Forall (fun f => isSpeech f = true) [loudFrame; loudFrame]
  /\ fst <$> counters (fst (ticks [loudFrame; loudFrame] fiveSilent)) = Some 5.
Proof.
  assert (Harmed : intervalTask fiveSilent = Some (1%nat, VadTick true 5 0))
    by (vm_compute; reflexivity).
  assert (Hall : Forall (fun f => isSpeech f = true) [loudFrame; loudFrame])
    by (repeat constructor; vm_compute; reflexivity).
  split; [exact Harmed |]. split; [exact Hall |].
  apply (short_speech_run_keeps_silence_count
           [loudFrame; loudFrame] fiveSilent 1 true 5 Harmed Hall).
  reflexivity.
Defined.

(** *** Arming stops the sampling of the previous attempt *)

(** When every sampling interval is the one [vadIntervalRef] refers to, a
    successful arming leaves exactly one: its own. *)
Lemma startVoiceActivityDetection_one_interval
      (E : Env) (isPlaying0 : bool) (cb : Callback) (l : Timers.Loop Task)
      (p : Player) :
  OS E = web ->
  graph E (attempts p) = GraphBuilt ->
  (forall t, t ∈ Timers.pending l -> isSampling t = true ->
             vadIntervalRef p = Some (Timers.handle t)) ->
  List.filter isSampling
    (Timers.pending (fst (startVoiceActivityDetection E isPlaying0 cb (l, p))))
  = [{| Timers.handle := Timers.nextHandle l;
        Timers.due := Timers.now l + 100;
        Timers.every := Some 100;
        Timers.task := VadTick isPlaying0 0 0 |}].
Proof.
  intros Hweb Hbuilt Hinv.
  unfold startVoiceActivityDetection. rewrite Hweb.
  cbn [stopVoiceActivityDetection set_onSilenceDetectedRef attempts].
  rewrite Hbuilt.
  destruct (vadIntervalRef p) as [h |] eqn:Hh; cbn.
  - rewrite List.filter_app, TimersFacts.none_after_clear; [reflexivity |].
    intros t Hin Hs. specialize (Hinv t Hin Hs). congruence.
  - rewrite List.filter_app, TimersFacts.none_selected; [reflexivity |].
    intros t Hin Hs. specialize (Hinv t Hin Hs). discriminate.
Qed.

(** C1 does not hold of the code.  A detector armed with a callback,
    sampling, fed eight silent frames: after seven the interval is pending
    with [silenceCount] 7; the eighth reaches [silenceThreshold], the interval
    is cleared, and the callback is invoked not once but never, because
    [stopVoiceActivityDetection] has emptied [onSilenceDetectedRef] before the
    tick tests it.  On the screen, for a sentence replayed in a silent
    browser: after eight ticks of the detector nothing is armed, no callback
    has run and the screen still says [isPlaying]. *)
Theorem silence_threshold_stops_sampling_without_callback :
  onSilenceDetectedRef (snd (armed true)) = Some cb_10_13
  /\ counters (fst (ticks (repeat silentFrame 7) (armed true))) = Some (7, 0)
  /\ snd (ticks (repeat silentFrame 7) (armed true)) = []
  /\ Timers.pending (fst (fst (ticks (repeat silentFrame 8) (armed true)))) = []
  /\ vadIntervalRef (snd (fst (ticks (repeat silentFrame 8) (armed true)))) = None
  /\ snd (ticks (repeat silentFrame 8) (armed true)) = []
  /\ Timers.task <$> Screen.armedTriggers (playedTwice browser)
     = [VadTick true 0 0]
  /\ Timers.task <$> Screen.armedTriggers (Screen.steps 15 (playedTwice browser))
     = [VadTick true 7 0]
  /\ Screen.armedTriggers (Screen.steps 16 (playedTwice browser)) = []
  /\ Screen.fired (Screen.steps 16 (playedTwice browser)) = []
  /\ Screen.isPlaying (Screen.screen (Screen.steps 16 (playedTwice browser)))
     = true.
Proof. vm_compute. repeat split. Qed.

(** C6, as stated, fails: when the audio element is attached already, the
    arming returns with no timer pending at all, so nothing is left that
    could invoke the callback. *)
Lemma attached_source_arms_no_fallback :
  graph attachedBrowser 0 = SourceAttached
  /\ Timers.pending
       (fst (startVoiceActivityDetection attachedBrowser false cb_10_13
               (Timers.idle, mounted (Some stoppedAudio)))) = []
  /\ Timers.next
       (fst (startVoiceActivityDetection attachedBrowser false cb_10_13
               (Timers.idle, mounted (Some stoppedAudio)))) = None.
Proof. vm_compute. repeat split. Qed.

(** C6, amended.  On the web, when creating the context or analyser or
    wiring the graph throws, [startVoiceActivityDetection] returns normally
    with one new timer, due 5000 ms later, whose callback invokes the
    [onSilenceDetected] just registered; when the audio element is attached
    already it returns normally with nothing armed. *)
Theorem detector_setup_failure_fallback
        (E : Env) (isPlaying0 : bool) (cb : Callback) (l : Timers.Loop Task)
        (p : Player) :
  OS E = web ->
  let cleared := Timers.clearRef (vadIntervalRef p) l in
  let after := startVoiceActivityDetection E isPlaying0 cb (l, p) in
  match graph E (attempts p) with
  | ContextThrows | WiringThrows =>
      Timers.pending (fst after)
      = (Timers.pending cleared
           ++ [{| Timers.handle := Timers.nextHandle l;
                  Timers.due := Timers.now l + 5000;
                  Timers.every := None;
                  Timers.task := VadFallback |}])%list
      /\ vadIntervalRef (snd after) = None
      /\ onSilenceDetectedRef (snd after) = Some cb
      /\ snd (vadFallback after) = Some cb
  | SourceAttached =>
      fst after = cleared
      /\ vadIntervalRef (snd after) = None
  | GraphBuilt =>
      exists h, vadIntervalRef (snd after) = Some h
  end.
Proof.
  intros Hweb cleared after. subst cleared after.
  unfold startVoiceActivityDetection. rewrite Hweb.
  cbn [stopVoiceActivityDetection set_onSilenceDetectedRef attempts].
  destruct (graph E (attempts p)); cbn; eauto;
    (repeat split; destruct (vadIntervalRef p); reflexivity).
Qed.

Lemma detector_setup_failure_fallback_witness :
  OS oldBrowser = web
  /\ onSilenceDetectedRef
       (snd (startVoiceActivityDetection oldBrowser false cb_10_13
               (Timers.idle, mounted (Some stoppedAudio)))) = Some cb_10_13.
Proof.
  split; [reflexivity |].
  exact (proj1 (proj2 (proj2
           (detector_setup_failure_fallback
              oldBrowser false cb_10_13 Timers.idle
              (mounted (Some stoppedAudio)) eq_refl)))).
Defined.

End AudioPlayerFacts.

Module ScreenFacts.
Import Practice Screen Scenarios.

(** *** The queue with a single timer *)

Lemma clearRef_fresh (ref : option nat) (now0 : Z) (next0 : nat)
      (t : Timers.Timer Task) :
  (forall h, ref = Some h -> (h < next0)%nat) ->
  Timers.handle t = next0 ->
  Timers.clearRef ref
    {| Timers.now := now0; Timers.nextHandle := S next0;
       Timers.pending := [t] |}
  = {| Timers.now := now0; Timers.nextHandle := S next0;
       Timers.pending := [t] |}.
Proof.
  intros Hfresh Ht. destruct ref as [h |]; [| reflexivity].
  specialize (Hfresh h eq_refl).
  unfold Timers.clearRef, Timers.clearTimer. cbn [Timers.pending Timers.now Timers.nextHandle].
  rewrite filter_cons, filter_nil, Ht.
  destruct (decide (next0 <> h)); [reflexivity | lia].
Qed.

(** C8.  Timer mode (native), sentence {start 10, end 13, duration 3}, no
    timer pending, auto-play off: [playSentenceOnly] seeks the audio to 10 s
    and starts it, and arms one timer, due 3 * 1000 + 200 = 3200 ms later,
    kept in [sentenceTimerRef]; when that timer fires the audio is paused,
    [isPlaying] is false, no timer is pending and [currentSentenceIndex] is
    what it was. *)
Theorem timer_mode_sentence_10_13 (a : App) (au : AudioPlayer.Audio) :
  AudioPlayer.OS (env a) = native ->
  audioPlayerRef (screen a) = true ->
  AudioPlayer.audioRef (player a) = Some au ->
  Timers.pending (loop a) = [] ->
  isAutoPlay (screen a) = false ->
  (forall h, sentenceTimerRef (screen a) = Some h ->
             (h < Timers.nextHandle (loop a))%nat) ->
  let a1 := playSentenceOnly sentence_10_13 (closure a) a in
  AudioPlayer.audioRef (player a1)
  = Some {| AudioPlayer.paused := false; AudioPlayer.positionMs := 10 * 1000;
            AudioPlayer.since := Timers.now (loop a) |}
  /\ Timers.pending (loop a1) = [stopTimer_10_13 a]
  /\ sentenceTimerRef (screen a1) = Some (Timers.nextHandle (loop a))
  /\ isPlaying (screen a1) = true
  /\ exists a2,
      step a1 = Some a2
      /\ Timers.now (loop a2) = Timers.now (loop a) + 3200
      /\ isPlaying (screen a2) = false
      /\ AudioPlayer.isPlaying (player a2) = false
      /\ AudioPlayer.paused <$> AudioPlayer.audioRef (player a2) = Some true
      /\ Timers.pending (loop a2) = []
      /\ currentSentenceIndex (screen a2) = currentSentenceIndex (screen a).
Proof.
  intros Hos Href Hau Hpend Hauto Hfresh a1. subst a1.
  destruct a as [[os g an pr] [now0 next0 pend] p sc fired0].
  destruct p as [pl se ar ac anr vi onr ec att].
  destruct sc as [ss idx ip iap iaud pm itts igp cs str apr sp].
  cbn in Hos, Href, Hau, Hpend, Hauto, Hfresh. subst os apr ar pend iap.
  unfold stopTimer_10_13, playSentenceOnly.
  cbn -[Z.add Z.mul Z.max filter Timers.clearRef closure].
  rewrite clearRef_fresh by (assumption || reflexivity).
  cbn -[Z.add Z.mul Z.max filter closure].
  change (0 `max` (3 * 1000 + paddingMs)) with 3200.
  assert (Hseek : AudioPlayer.audio_play now0 (AudioPlayer.audio_seek now0 10 au)
                  = {| AudioPlayer.paused := false;
                       AudioPlayer.positionMs := 10 * 1000;
                       AudioPlayer.since := now0 |}).
  { unfold AudioPlayer.audio_play, AudioPlayer.audio_seek,
      AudioPlayer.currentTimeMs. cbn.
    destruct (AudioPlayer.paused au); f_equal; lia. }
  rewrite Hseek.
  repeat (split; [reflexivity |]).
  eexists. split; [reflexivity |].
  cbn -[Z.add Z.mul Z.max filter].
  rewrite filter_cons, filter_nil. cbn [Timers.handle].
  destruct (decide (next0 <> next0)); [congruence |].
  repeat split. lia.
Qed.

Lemma timer_mode_sentence_10_13_witness :
  AudioPlayer.OS (env (loaded phone false)) = native
  /\ Timers.pending (loop (loaded phone false)) = []
  /\ isAutoPlay (screen (loaded phone false)) = false
  /\ Timers.pending
       (loop (playSentenceOnly sentence_10_13 (closure (loaded phone false))
                (loaded phone false)))
     = [stopTimer_10_13 (loaded phone false)].
Proof.
  assert (Hfresh : forall h,
             sentenceTimerRef (screen (loaded phone false)) = Some h ->
             (h < Timers.nextHandle (loop (loaded phone false)))%nat)
    by (intros h Hh; discriminate Hh).
  repeat (split; [reflexivity |]).
  exact (proj1 (proj2
           (timer_mode_sentence_10_13 (loaded phone false) stoppedAudio
              eq_refl eq_refl eq_refl eq_refl eq_refl Hfresh))).
Defined.

(** *** Timer mode arms one trigger at a time *)

(** In timer mode, when every armed trigger is the one [sentenceTimerRef]
    refers to, [playSentenceOnly] leaves exactly one trigger armed: its own
    stop timer. *)
Lemma playSentenceOnly_native_one_trigger (sentence : PracticeSentence)
      (cl : Closure) (a : App) :
  AudioPlayer.OS (env a) = native ->
  audioPlayerRef (screen a) = true ->
  (forall t, t ∈ Timers.pending (loop a) -> isTrigger t = true ->
             sentenceTimerRef (screen a) = Some (Timers.handle t)) ->
  (forall h, sentenceTimerRef (screen a) = Some h ->
             (h < Timers.nextHandle (loop a))%nat) ->
  armedTriggers (playSentenceOnly sentence cl a)
  = [{| Timers.handle := Timers.nextHandle (loop a);
        Timers.due := Timers.now (loop a)
                      + Z.max 0 (duration sentence * 1000 + paddingMs);
        Timers.every := None;
        Timers.task := StopSentence sentence cl |}].
Proof.
  intros Hos Href Hinv Hfresh.
  assert (Hloop : forall s, fst (AudioPlayer.play (env a) s) = fst s).
  { intros [l p]. unfold AudioPlayer.play. rewrite Hos.
    destruct (AudioPlayer.audioRef p); reflexivity. }
  assert (Hseek : forall t s, fst (AudioPlayer.seekTo t s) = fst s).
  { intros t [l p]. unfold AudioPlayer.seekTo.
    destruct (AudioPlayer.audioRef p); reflexivity. }
  unfold playSentenceOnly, armedTriggers. rewrite Href. cbn [negb].
  cbn [on_screen with_screen with_ps env screen loop ps]. rewrite Hos.
  cbn [on_screen with_screen with_ps with_loop env screen loop ps player
       Timers.setTimeout Timers.schedule set_sentenceTimerRef sentenceTimerRef
       setIsPlaying setCurrentSentence].
  rewrite !Hloop. unfold ps at 1 2 3 4 5. unfold with_ps.
  cbn [loop player fst snd]. rewrite !Hseek.
  cbn [ps on_screen with_screen loop fst].
  destruct (sentenceTimerRef (screen a)) as [h |] eqn:Hh.
  - specialize (Hfresh h eq_refl).
    unfold Timers.clearRef, Timers.clearTimer. cbn [Timers.pending].
    rewrite filter_app, filter_cons, filter_nil. cbn [Timers.handle].
    destruct (decide (Timers.nextHandle (loop a) <> h)); [| lia].
    rewrite List.filter_app, TimersFacts.none_after_clear; [reflexivity |].
    intros t Hin Htr. specialize (Hinv t Hin Htr). congruence.
  - cbn [Timers.clearRef Timers.pending].
    rewrite List.filter_app, TimersFacts.none_selected; [reflexivity |].
    intros t Hin Htr. specialize (Hinv t Hin Htr). discriminate.
Qed.

(** *** [isAudioPlaying] is never set *)

Lemma autoAdvance_screen (sentence : PracticeSentence) (cl : Closure) (a : App) :
  screen (autoAdvance sentence cl a) = screen a
  /\ player (autoAdvance sentence cl a) = player a.
Proof.
  unfold autoAdvance. destruct (Practice.isAutoPlay cl); [| now split].
  destruct (_ <? _); [| now split].
  destruct (at_ _ _); now split.
Qed.

Lemma playSentenceOnly_isAudioPlaying (sentence : PracticeSentence)
      (cl : Closure) (a : App) :
  isAudioPlaying (screen (playSentenceOnly sentence cl a))
  = isAudioPlaying (screen a).
Proof.
  unfold playSentenceOnly. destruct (negb (audioPlayerRef (screen a))); [reflexivity |].
  cbn [on_screen with_screen screen env with_ps].
  destruct (AudioPlayer.OS (env a)); [reflexivity |].
  cbn [on_screen with_screen screen env with_ps with_loop loop].
  destruct (Timers.setTimeout _ _ _). reflexivity.
Qed.

Lemma run_isAudioPlaying (t : Timers.Timer Task) (a : App) :
  isAudioPlaying (screen (run t a)) = isAudioPlaying (screen a).
Proof.
  unfold run. destruct (Timers.task t) as [s cl | s cl | ip sc spc | | e].
  - unfold stopSentence. destruct (audioPlayerRef (screen a)); [| reflexivity].
    now rewrite (proj1 (autoAdvance_screen _ _ _)).
  - apply playSentenceOnly_isAudioPlaying.
  - destruct (AudioPlayer.vadTick _ _ _ _ _ _) as [s [[sentence cl] |]];
      cbn [invoke]; [| reflexivity].
    unfold onSilenceDetected. now rewrite (proj1 (autoAdvance_screen _ _ _)).
  - unfold AudioPlayer.vadFallback. cbn [invoke snd ps].
    destruct (AudioPlayer.onSilenceDetectedRef (player a)) as [[sentence cl] |];
      cbn [invoke]; [| reflexivity].
    unfold onSilenceDetected. now rewrite (proj1 (autoAdvance_screen _ _ _)).
  - reflexivity.
Qed.

Lemma toggleGlobalPlayback_isAudioPlaying (a : App) :
  isAudioPlaying (screen a) = false ->
  isAudioPlaying (screen (toggleGlobalPlayback a)) = false.
Proof.
  intros Hno. unfold toggleGlobalPlayback.
  destruct (isGlobalPlaying (screen a)).
  - unfold pauseAll.
    destruct (isTTSPlaying (screen a)); cbn [on_screen with_screen screen
      TTSService_stop setIsTTSPlaying set_speaking isAudioPlaying];
      rewrite Hno; cbn [andb];
      destruct (isAutoPlay _); cbn [on_screen with_screen screen];
      destruct (sentenceTimerRef _); cbn; exact Hno.
  - unfold playCurrent. destruct (at_ _ _) as [current |]; [| exact Hno].
    cbn [on_screen with_screen screen setIsGlobalPlaying playbackMode].
    destruct (playbackMode (screen a)) as [[] |];
      rewrite ?playSentenceOnly_isAudioPlaying; exact Hno.
Qed.

Lemma isAudioPlaying_stays_false (a0 a : App) :
  isAudioPlaying (screen a0) = false ->
  reachable a0 a -> isAudioPlaying (screen a) = false.
Proof.
  intros H0 Hreach. induction Hreach as [| a _ IH | a s _ IH | a a' _ IH Hstep].
  - exact H0.
  - now apply toggleGlobalPlayback_isAudioPlaying.
  - now rewrite playSentenceOnly_isAudioPlaying.
  - unfold step in Hstep. destruct (Timers.next (loop a)) as [[t l] |];
      [| discriminate].
    injection Hstep as <-. now rewrite run_isAudioPlaying.
Qed.

(** The global pause never reaches the audio player. *)
Lemma pauseAll_keeps_player (a0 a : App) :
  isAudioPlaying (screen a0) = false ->
  reachable a0 a -> player (pauseAll a) = player a.
Proof.
  intros H0 Hreach.
  pose proof (isAudioPlaying_stays_false a0 a H0 Hreach) as Hno.
  unfold pauseAll.
  destruct (isTTSPlaying (screen a)); cbn [on_screen with_screen screen
    TTSService_stop setIsTTSPlaying set_speaking isAudioPlaying];
    rewrite Hno; cbn [andb];
    destruct (isAutoPlay _); cbn [on_screen with_screen screen];
    destruct (sentenceTimerRef _); reflexivity.
Qed.

(** C4 does not hold of the code.  On a phone, global Play on [sentence_10_13] and then
    global Pause: [isGlobalPlaying] goes back to false and the stop timer is
    cleared, but the audio is still playing and the screen still says
    [isPlaying]: the pause of the player is guarded by [isAudioPlaying], which
    nothing ever sets.  On the web the same pause leaves the detector's
    interval pending. *)
Theorem global_pause_leaves_audio_playing :
  let playing := toggleGlobalPlayback (loaded phone false) in
  let paused := toggleGlobalPlayback playing in
  isGlobalPlaying (screen playing) = true
  /\ isGlobalPlaying (screen paused) = false
  /\ Timers.pending (loop paused) = []
  /\ AudioPlayer.paused <$> AudioPlayer.audioRef (player paused) = Some false
  /\ AudioPlayer.isPlaying (player paused) = true
  /\ isPlaying (screen paused) = true
  /\ let onWeb := toggleGlobalPlayback
                    (toggleGlobalPlayback (loaded browser false)) in
     isGlobalPlaying (screen onWeb) = false
     /\ AudioPlayer.paused <$> AudioPlayer.audioRef (player onWeb) = Some false
     /\ Timers.task <$> armedTriggers onWeb = [VadTick false 0 0].
Proof. vm_compute. repeat split. Qed.

(** C3 does not hold of the code.  In a browser without the Web Audio API,
    the 8 second sentence played twice in succession: two fallback delays are
    armed at once, the first attempt's among them, and when time has passed
    both have fired, each invoking the callback registered last. *)
Theorem second_play_leaves_first_fallback_armed :
  Timers.task <$> armedTriggers (playedOnce oldBrowser) = [VadFallback]
  /\ Timers.handle <$> armedTriggers (playedOnce oldBrowser) = [2%nat]
  /\ Timers.task <$> armedTriggers (playedTwice oldBrowser)
     = [VadFallback; VadFallback]
  /\ Timers.handle <$> armedTriggers (playedTwice oldBrowser) = [2%nat; 4%nat]
  /\ fired (steps 49 (playedTwice oldBrowser)) = []
  /\ Timers.now (loop (steps 52 (playedTwice oldBrowser))) = 5000
  /\ fired (steps 52 (playedTwice oldBrowser)) = [cb_20_28; cb_20_28]
  /\ armedTriggers (steps 52 (playedTwice oldBrowser)) = [].
Proof. vm_compute. repeat split. Qed.

End ScreenFacts.

Module WhisperFacts.
Import Whisper.


(** *** Rules for [frame] *)

Section Frame.
Context {A B : Type} (E : Request -> Prop).

Lemma frame_ret (P : A -> Prop) (a : A) : P a -> frame E P (mret a).
Proof.
  intros HP st. exists []. cbn. rewrite app_nil_r.
  repeat split; [constructor | congruence].
Qed.

Lemma frame_throw (P : A -> Prop) (e : string) : frame E P (throw e).
Proof.
  intros st. exists []. cbn. rewrite app_nil_r.
  repeat split; [constructor | discriminate].
Qed.

Lemma frame_settle (P : A -> Prop) (r : Reply A) :
  (forall a, r = Resolves a -> P a) -> frame E P (settle r).
Proof.
  intros HP st. exists []. unfold settle. rewrite app_nil_r.
  destruct r; cbn; repeat split; try constructor; try discriminate.
  intros a' [= <-]. now apply HP.
Qed.

Lemma frame_await (P : A -> Prop) (r : Request)
      (answer : list Request -> Reply A) :
  E r -> (forall h a, answer h = Resolves a -> P a) ->
  frame E P (await r answer).
Proof.
  intros Hr HP st. exists [r]. unfold await.
  destruct (answer (requests st)) eqn:Hans; cbn;
    repeat split; try (constructor; [assumption | constructor]);
    try discriminate.
  intros a' [= <-]. eapply HP, Hans.
Qed.

Lemma frame_bind (Q : A -> Prop) (P : B -> Prop) (m : Async A)
      (k : A -> Async B) :
  frame E Q m -> (forall a, Q a -> frame E P (k a)) -> frame E P (m ≫= k).
Proof.
  intros Hm Hk st. destruct (Hm st) as (evs & Hreq & HE & Hc & HQ).
  unfold mbind, Async_bind.
  destruct (m st) as [[a | e] st1] eqn:Hmst; cbn in *.
  - destruct (Hk a (HQ a eq_refl) st1) as (evs' & Hreq' & HE' & Hc' & HP).
    exists (evs ++ evs')%list. rewrite Hreq', Hreq, Hc', Hc, app_assoc.
    repeat split; [now apply Forall_app | exact HP].
  - exists evs. repeat split; try assumption. discriminate.
Qed.

Lemma frame_try (P : A -> Prop) (body : Async A)
      (handler : string -> Async A) :
  frame E P body -> (forall e, frame E P (handler e)) ->
  frame E P (try_catch body handler).
Proof.
  intros Hm Hh st. destruct (Hm st) as (evs & Hreq & HE & Hc & HQ).
  unfold try_catch.
  destruct (body st) as [[a | e] st1] eqn:Hmst; cbn in *.
  - exists evs. repeat split; try assumption.
  - destruct (Hh e st1) as (evs' & Hreq' & HE' & Hc' & HP).
    exists (evs ++ evs')%list. rewrite Hreq', Hreq, Hc', Hc, app_assoc.
    repeat split; [now apply Forall_app | exact HP].
Qed.

Lemma frame_weaken (P Q : A -> Prop) (m : Async A) :
  (forall a, P a -> Q a) -> frame E P m -> frame E Q m.
Proof.
  intros HPQ Hm st. destruct (Hm st) as (evs & ? & ? & ? & HP).
  exists evs. repeat split; auto.
Qed.
End Frame.

Lemma frame_history (E : Request -> Prop) :
  frame E (fun _ => True) history.
Proof.
  intros st. exists []. cbn. rewrite app_nil_r.
  repeat split; constructor.
Qed.

Section ServiceFacts.
Variable W : World.
Variable OS : PlatformOS.

Lemma getYouTubeSubtitles_frame (videoId : string) (useSpacy : bool) :
  frame (fun r => r = GetSubtitles videoId useSpacy)
        (fun res => source res = youtube /\ success res = true)
        (getYouTubeSubtitles W videoId useSpacy).
Proof.
  unfold getYouTubeSubtitles.
  apply frame_try; [| intros e; apply frame_throw].
  eapply frame_bind with (Q := fun _ => True).
  - apply frame_await; [reflexivity | trivial].
  - intros data _. destruct (sd_success data), (sd_sentences data);
      first [ apply frame_throw | apply frame_ret; split; reflexivity ].
Qed.

Lemma extractAudio_frame (videoId : string) :
  frame (fun r => isTranscription r = true /\ forall v t, r <> GetCached v t)
        (fun _ => True) (extractAudio W OS videoId).
Proof.
  unfold extractAudio.
  apply frame_try; [| intros e; apply frame_throw].
  eapply frame_bind with (Q := fun _ => True).
  - apply frame_await; [split; [reflexivity | discriminate] | trivial].
  - intros [audioUrl |] _; [| apply frame_throw].
    destruct (String.eqb audioUrl ""); [apply frame_throw |].
    destruct OS; [now apply frame_ret |].
    eapply frame_bind with (Q := fun _ => True); [apply frame_history |].
    intros h _. cbv zeta.
    eapply frame_bind with (Q := fun _ => True).
    + apply frame_await; [split; [reflexivity | discriminate] | trivial].
    + intros status _. destruct (negb (status =? 200)); [apply frame_throw |].
      eapply frame_bind with (Q := fun _ => True).
      * apply frame_await; [split; [reflexivity | discriminate] | trivial].
      * intros; now apply frame_ret.
Qed.

Lemma getWhisperFromCache_frame (videoId : string) :
  frame (fun r => r = GetCached videoId cacheTimeoutMs)
        (fun res => forall r, res = Some r -> source r = whisper)
        (getWhisperFromCache W videoId).
Proof.
  unfold getWhisperFromCache.
  apply frame_try; [| intros e; apply frame_ret; discriminate].
  eapply frame_bind with (Q := fun _ => True).
  - apply frame_await; [reflexivity | trivial].
  - intros resp _. destruct (ok resp); [| apply frame_ret; discriminate].
    eapply frame_bind with (Q := fun _ => True).
    + now apply frame_settle.
    + intros d _. apply frame_ret. now intros r [= <-].
Qed.

Lemma transcribeWithWhisper_frame (videoId : string) :
  frame (fun r => isTranscription r = true)
        (fun res => source res = whisper)
        (transcribeWithWhisper W OS videoId).
Proof.
  unfold transcribeWithWhisper.
  apply frame_try; [| intros e; apply frame_throw].
  eapply frame_bind.
  - eapply frame_weaken with (P := fun res => forall r, res = Some r -> source r = whisper);
      [intros a Ha; exact Ha |].
    intros st. destruct (getWhisperFromCache_frame videoId st) as (evs & ? & HE & ? & ?).
    exists evs. repeat split; auto.
    eapply Forall_impl; [exact HE |]. now intros r ->.
  - intros [r |] Hr; [apply frame_ret; now apply Hr |].
    eapply frame_bind with (Q := fun _ => True).
    { intros st. destruct (extractAudio_frame videoId st) as (evs & ? & HE & ? & ?).
      exists evs. repeat split; auto.
      eapply Forall_impl; [exact HE |]. now intros r [? _]. }
    intros audioUri _.
    eapply frame_bind with (Q := fun _ => True).
    { destruct OS; [now apply frame_ret |].
      eapply frame_bind with (Q := fun _ => True).
      - now apply frame_await.
      - intros [] _; [now apply frame_ret | apply frame_throw]. }
    intros _ _.
    eapply frame_bind with (Q := fun _ => True); [now apply frame_await |].
    intros response _.
    destruct (negb (ok response)).
    + eapply frame_bind with (Q := fun _ => True); [now apply frame_settle |].
      intros; apply frame_throw.
    + eapply frame_bind with (Q := fun _ => True); [now apply frame_settle |].
      intros data _.
      eapply frame_bind with (Q := fun _ => True).
      { destruct OS; [now apply frame_ret | now apply frame_await]. }
      intros; now apply frame_ret.
Qed.

(** The caption request is the one and only request of
    [getYouTubeSubtitles]. *)
Lemma getYouTubeSubtitles_requests (videoId : string) (useSpacy : bool)
      (st : State) :
  (getYouTubeSubtitles W videoId useSpacy st).2
  = sent (GetSubtitles videoId useSpacy) st.
Proof.
  unfold getYouTubeSubtitles, try_catch, mbind, Async_bind, await, sent.
  destruct (subtitles W (requests st) videoId useSpacy) as [data | e];
    [| reflexivity].
  destruct (sd_success data), (sd_sentences data); reflexivity.
Qed.

(** The cache check never throws; it sends one request and answers by
    [cacheHit]. *)
Lemma getWhisperFromCache_spec (videoId : string) (st : State) :
  getWhisperFromCache W videoId st
  = (Returns (resultOfWhisperData <$> cacheHit W (requests st) videoId),
     sent (GetCached videoId cacheTimeoutMs) st).
Proof.
  unfold getWhisperFromCache, fetchCached, try_catch, mbind, Async_bind,
    await, cacheHit, sent, settle.
  destruct (cached W (requests st) videoId) as [latency reply].
  destruct (latency <? cacheTimeoutMs); [| reflexivity].
  destruct reply as [resp | e]; [| reflexivity].
  destruct (ok resp); [| reflexivity].
  destruct (json resp); reflexivity.
Qed.

(** On a hit [transcribeWithWhisper] returns the cached transcript after
    that one request. *)
Lemma transcribeWithWhisper_hit (videoId : string) (st : State)
      (d : WhisperData) :
  cacheHit W (requests st) videoId = Some d ->
  transcribeWithWhisper W OS videoId st
  = (Returns (resultOfWhisperData d),
     sent (GetCached videoId cacheTimeoutMs) st).
Proof.
  intros Hhit. unfold transcribeWithWhisper, try_catch, mbind, Async_bind.
  now rewrite getWhisperFromCache_spec, Hhit.
Qed.

Lemma extractAudio_first_request (videoId : string) (st : State) :
  exists rest,
    requests (extractAudio W OS videoId st).2
    = (requests st ++ GetAudioUrl videoId :: rest)%list
    /\ Forall (fun r => isTranscription r = true) rest.
Proof.
  unfold extractAudio, try_catch, mbind, Async_bind, await, history, throw.
  destruct (audio W (requests st) videoId) as [[audioUrl |] | e]; cbn;
    try (exists []; split; [reflexivity | constructor]).
  destruct (String.eqb audioUrl ""); cbn;
    try (exists []; split; [reflexivity | constructor]).
  destruct OS; cbn; try (exists []; split; [reflexivity | constructor]).
  destruct (download W _ _ _) as [status | e]; cbn.
  - destruct (negb (status =? 200)); cbn.
    + eexists [_]. rewrite <- app_assoc. split; [reflexivity |].
      repeat constructor.
    + destruct (info W _ _) as [b | e]; cbn;
        (eexists [_; _]; rewrite <- !app_assoc; split; [reflexivity |];
         repeat constructor).
  - eexists [_]. rewrite <- app_assoc. split; [reflexivity |].
    repeat constructor.
Qed.

(** On a miss or a timeout [transcribeWithWhisper] goes on, in the same
    call, to the audio extraction of the full transcription path. *)
Lemma transcribeWithWhisper_miss (videoId : string) (st : State) :
  cacheHit W (requests st) videoId = None ->
  exists rest,
    requests (transcribeWithWhisper W OS videoId st).2
    = (requests st
         ++ GetCached videoId cacheTimeoutMs :: GetAudioUrl videoId :: rest)%list
    /\ Forall (fun r => isTranscription r = true) rest.
Proof.
  intros Hmiss.
  set (st0 := sent (GetCached videoId cacheTimeoutMs) st).
  destruct (extractAudio_first_request videoId st0) as (rest & Hreq & Hrest).
  unfold transcribeWithWhisper, try_catch at 1, mbind at 1, Async_bind at 1.
  rewrite getWhisperFromCache_spec, Hmiss. cbn [fmap option_fmap option_map].
  fold st0.
  unfold mbind at 1, Async_bind at 1.
  destruct (extractAudio W OS videoId st0) as [[audioUri | e] st1] eqn:Hex;
    cbn [snd] in Hreq.
  2: { exists rest. cbn. rewrite Hreq. cbn. rewrite <- app_assoc.
       split; [reflexivity | assumption]. }
  assert (Htail : forall (m : Async TranscriptResult),
             frame (fun r => isTranscription r = true) (fun _ => True) m ->
             exists rest',
               requests (match m st1 with
                         | (Returns a, st') => (Returns a, st')
                         | (Throws e, st') =>
                             throw ("Whisper transcription failed: " +:+ e) st'
                         end).2
               = (requests st
                    ++ GetCached videoId cacheTimeoutMs
                    :: GetAudioUrl videoId :: rest')%list
               /\ Forall (fun r => isTranscription r = true) rest').
  { intros m Hm. destruct (Hm st1) as (evs & Hreq' & HE & _ & _).
    exists (rest ++ evs)%list. split; [| now apply Forall_app].
    destruct (m st1) as [[a | e] st2]; cbn in *;
      rewrite Hreq', Hreq; cbn; now rewrite <- !app_assoc. }
  apply Htail.
  eapply frame_bind with (Q := fun _ => True).
  { destruct OS; [now apply frame_ret |].
    eapply frame_bind with (Q := fun _ => True).
    - now apply frame_await.
    - intros [] _; [now apply frame_ret | apply frame_throw]. }
  intros _ _.
  eapply frame_bind with (Q := fun _ => True); [now apply frame_await |].
  intros response _.
  destruct (negb (ok response)).
  + eapply frame_bind with (Q := fun _ => True); [now apply frame_settle |].
    intros; apply frame_throw.
  + eapply frame_bind with (Q := fun _ => True); [now apply frame_settle |].
    intros data _.
    eapply frame_bind with (Q := fun _ => True).
    { destruct OS; [now apply frame_ret | now apply frame_await]. }
    intros; now apply frame_ret.
Qed.

Lemma transcribeWithWhisper_requests (videoId : string) (st : State) :
  exists rest,
    requests (transcribeWithWhisper W OS videoId st).2
    = (requests st ++ GetCached videoId cacheTimeoutMs :: rest)%list
    /\ Forall (fun r => isTranscription r = true) rest.
Proof.
  destruct (cacheHit W (requests st) videoId) as [d |] eqn:Hhit.
  - rewrite (transcribeWithWhisper_hit _ _ _ Hhit).
    exists []. split; [reflexivity | constructor].
  - destruct (transcribeWithWhisper_miss _ _ Hhit) as (rest & -> & Hrest).
    eexists; split; [reflexivity |]. now constructor.
Qed.

Lemma last_request_of (P : Request -> Prop) (r : Request)
      (rest : list Request) :
  P r -> Forall P rest ->
  exists evs req, r :: rest = (evs ++ [req])%list /\ P req.
Proof.
  intros Hr Hrest.
  destruct (exists_last (l := r :: rest)) as (evs & req & Heq); [discriminate |].
  exists evs, req. split; [exact Heq |].
  assert (Hall : Forall P (r :: rest)) by now constructor.
  rewrite Heq in Hall. apply Forall_app in Hall as [_ Hl].
  now inversion Hl.
Qed.

(** What a successful attempt at one source leaves behind. *)
Lemma transcribeWithWhisper_returns (videoId : string) (st st' : State)
      (r : TranscriptResult) :
  transcribeWithWhisper W OS videoId st = (Returns r, st') ->
  source r = whisper
  /\ sourceCache st' = sourceCache st
  /\ exists evs req, requests st' = (requests st ++ evs ++ [req])%list
                     /\ sourceOf req = whisper.
Proof.
  intros Hrun.
  destruct (transcribeWithWhisper_frame videoId st) as (_ & _ & _ & Hc & HP).
  destruct (transcribeWithWhisper_requests videoId st) as (rest & Hreq & Hrest).
  rewrite Hrun in *. cbn in *.
  repeat split; [now apply HP | exact Hc |].
  destruct (last_request_of (fun r => isTranscription r = true)
              (GetCached videoId cacheTimeoutMs) rest eq_refl Hrest)
    as (evs & req & Heq & Hlast).
  exists evs, req. rewrite Hreq, Heq. split; [reflexivity |].
  unfold sourceOf. now rewrite Hlast.
Qed.

Lemma transcribeWithWhisper_throws (videoId : string) (st st' : State)
      (e : string) :
  transcribeWithWhisper W OS videoId st = (Throws e, st') ->
  sourceCache st' = sourceCache st
  /\ exists evs, requests st' = (requests st ++ evs)%list
                 /\ Forall (fun r => isTranscription r = true) evs.
Proof.
  intros Hrun.
  destruct (transcribeWithWhisper_frame videoId st) as (evs & Hreq & HE & Hc & _).
  rewrite Hrun in *. cbn in *. eauto.
Qed.

Lemma getYouTubeSubtitles_run (videoId : string) (st : State) :
  exists o, getYouTubeSubtitles W videoId true st
            = (o, sent (GetSubtitles videoId true) st)
            /\ forall r, o = Returns r -> source r = youtube.
Proof.
  pose proof (getYouTubeSubtitles_requests videoId true st) as Hst.
  destruct (getYouTubeSubtitles_frame videoId true st) as (_ & _ & _ & _ & HP).
  destruct (getYouTubeSubtitles W videoId true st) as [o st'].
  cbn in *. subst st'. exists o. split; [reflexivity |].
  intros r ->. now apply HP.
Qed.
End ServiceFacts.

(** What [getTranscriptData] does, by the branch that settles it.  [Stage]
    names the attempt that produced the result. *)
Lemma getTranscriptData_run (W : World) (OS : PlatformOS) (videoId : string)
      (st : State) :
  match getTranscriptData W OS videoId st with
  | (Returns r, st') =>
      sourceCache st' = <[videoId := source r]> (sourceCache st)
      /\ exists evs req, requests st' = (requests st ++ evs ++ [req])%list
                         /\ sourceOf req = source r
  | (Throws _, st') => sourceCache st' = sourceCache st
  end.
Proof.
  unfold getTranscriptData.
  unfold try_catch at 1, mbind at 1, Async_bind at 1, sourceCache_get.
  unfold mbind at 1, Async_bind at 1.
  (* the attempt steered by the remembered source *)
  assert (Hearly :
    match (match sourceCache st !! videoId with
           | Some whisper =>
               try_catch
                 (whisperResult ← transcribeWithWhisper W OS videoId;
                  mret (Some whisperResult))
                 (fun _ => mret None)
           | Some youtube =>
               try_catch
                 (youtubeResult ← getYouTubeSubtitles W videoId true;
                  if usable youtubeResult then mret (Some youtubeResult)
                  else mret None)
                 (fun _ => mret None)
           | None => mret None
           end) st with
    | (Returns (Some r), st1) =>
        sourceCache st !! videoId = Some (source r)
        /\ sourceCache st1 = sourceCache st
        /\ exists evs req, requests st1 = (requests st ++ evs ++ [req])%list
                           /\ sourceOf req = source r
    | (Returns None, st1) =>
        sourceCache st1 = sourceCache st
        /\ exists evs, requests st1 = (requests st ++ evs)%list
    | (Throws _, _) => False
    end).
  { destruct (sourceCache st !! videoId) as [[] |] eqn:Hpref.
    - unfold try_catch, mbind, Async_bind.
      destruct (getYouTubeSubtitles_run W videoId st) as (o & -> & Ho).
      destruct o as [r | e]; [| cbn; split; [reflexivity | eauto]].
      pose proof (Ho r eq_refl) as Hr.
      destruct (usable r); cbn.
      + rewrite Hr. repeat split.
        exists [], (GetSubtitles videoId true). split; reflexivity.
      + split; [reflexivity | eauto].
    - unfold try_catch, mbind, Async_bind.
      destruct (transcribeWithWhisper W OS videoId st) as [[r | e] st1] eqn:Hrun.
      + apply transcribeWithWhisper_returns in Hrun as (Hs & Hc & Hreq).
        cbn. rewrite Hs. auto.
      + apply transcribeWithWhisper_throws in Hrun as (Hc & evs & Hreq & _).
        cbn. eauto.
    - cbn. split; [reflexivity |]. exists []. now rewrite app_nil_r. }
  destruct (_ st) as [[[r |] | e] st1]; [| | contradiction].
  { destruct Hearly as (Hpref & Hc & Hreq). cbn.
    split; [| exact Hreq]. rewrite Hc. symmetry. now apply insert_id. }
  destruct Hearly as (Hc1 & evs1 & Hreq1).
  (* 1. captions *)
  unfold try_catch, mbind, Async_bind.
  destruct (getYouTubeSubtitles_run W videoId st1) as (o & -> & Ho).
  assert (Hyt : forall r : TranscriptResult,
             source r = youtube ->
             exists evs req,
               (requests st1 ++ [GetSubtitles videoId true])%list
               = (requests st ++ evs ++ [req])%list
               /\ sourceOf req = source r).
  { intros r Hr. exists evs1, (GetSubtitles videoId true).
    rewrite Hreq1, Hr, <- app_assoc. split; reflexivity. }
  assert (Hstep2 :
    match
      try_catch
        (whisperResult ← transcribeWithWhisper W OS videoId;
         _ ← sourceCache_set videoId whisper;
         mret whisperResult)
        (fun e =>
           throw
             (if includes e "Network request failed"
              then "Network connection failed. Please check your internet connection and try again."
              else "Both YouTube subtitles and Whisper AI are unavailable for this video. Please try a different video or check your connection."))
        (sent (GetSubtitles videoId true) st1)
    with
    | (Returns r, st') =>
        sourceCache st' = <[videoId := source r]> (sourceCache st)
        /\ exists evs req, requests st' = (requests st ++ evs ++ [req])%list
                           /\ sourceOf req = source r
    | (Throws _, st') => sourceCache st' = sourceCache st
    end).
  { unfold try_catch, mbind, Async_bind, sourceCache_set, mret, Async_ret.
    destruct (transcribeWithWhisper W OS videoId _) as [[r' | e'] st3] eqn:Hrun.
    - apply transcribeWithWhisper_returns in Hrun as (Hw & Hc & evs & req & Hreq & Hs).
      cbn in *. rewrite Hw, Hc, Hc1. split; [reflexivity |].
      exists (evs1 ++ GetSubtitles videoId true :: evs)%list, req.
      rewrite Hreq, Hreq1. split; [| exact Hs].
      now rewrite <- !app_assoc.
    - apply transcribeWithWhisper_throws in Hrun as (Hc & _).
      cbn in *. now rewrite Hc. }
  unfold try_catch, mbind, Async_bind, sourceCache_set, mret, Async_ret, throw
    in Hstep2 |- *.
  destruct o as [r | e].
  - pose proof (Ho r eq_refl) as Hr.
    destruct (usable r) eqn:Hus.
    + cbn. rewrite Hc1, Hr. split; [reflexivity |]. rewrite <- Hr. now apply Hyt.
    + revert Hstep2.
      destruct (transcribeWithWhisper W OS videoId _) as [[r' | e'] st3];
        cbn; trivial.
  - revert Hstep2.
    destruct (transcribeWithWhisper W OS videoId _) as [[r' | e'] st3];
      cbn; trivial.
Qed.


(** [getTranscriptData] by the remembered source: one steered attempt, then
    [captionsThenWhisper]. *)
Lemma getTranscriptData_steered (W : World) (OS : PlatformOS)
      (videoId : string) (st : State) :
  getTranscriptData W OS videoId st
  = match sourceCache st !! videoId with
    | Some whisper =>
        match transcribeWithWhisper W OS videoId st with
        | (Returns r, st1) => (Returns r, st1)
        | (Throws _, st1) => captionsThenWhisper W OS videoId st1
        end
    | Some youtube =>
        match getYouTubeSubtitles W videoId true st with
        | (Returns r, st1) =>
            if usable r then (Returns r, st1)
            else captionsThenWhisper W OS videoId st1
        | (Throws _, st1) => captionsThenWhisper W OS videoId st1
        end
    | None => captionsThenWhisper W OS videoId st
    end.
Proof.
  unfold getTranscriptData, captionsThenWhisper.
  unfold try_catch at 1 5, mbind at 1, Async_bind at 1, sourceCache_get.
  unfold mbind at 1, Async_bind at 1.
  destruct (sourceCache st !! videoId) as [[] |].
  - unfold try_catch at 1, mbind at 1, Async_bind at 1.
    destruct (getYouTubeSubtitles W videoId true st) as [[r | e] st1];
      [destruct (usable r) |]; reflexivity.
  - unfold try_catch at 1, mbind at 1, Async_bind at 1.
    destruct (transcribeWithWhisper W OS videoId st) as [[r | e] st1];
      reflexivity.
  - reflexivity.
Qed.

(** The first request of [captionsThenWhisper] is the caption request. *)
Lemma captionsThenWhisper_requests (W : World) (OS : PlatformOS)
      (videoId : string) (st : State) :
  exists rest,
    requests (captionsThenWhisper W OS videoId st).2
    = (requests st ++ GetSubtitles videoId true :: rest)%list.
Proof.
  unfold captionsThenWhisper, try_catch, mbind, Async_bind, sourceCache_set,
    mret, Async_ret, throw.
  destruct (getYouTubeSubtitles_run W videoId st) as (o & -> & _).
  assert (Hstep2 : forall st0 : State,
             st0 = sent (GetSubtitles videoId true) st ->
             exists rest,
               requests (transcribeWithWhisper W OS videoId st0).2
               = (requests st ++ GetSubtitles videoId true :: rest)%list).
  { intros st0 ->.
    destruct (transcribeWithWhisper_requests W OS videoId
                (sent (GetSubtitles videoId true) st)) as (rest & -> & _).
    eexists. cbn. now rewrite <- app_assoc. }
  destruct o as [r | e]; [destruct (usable r) |]; cbv beta iota.
  - exists []. reflexivity.
  - destruct (Hstep2 _ eq_refl) as (rest & Hreq). exists rest.
    destruct (transcribeWithWhisper W OS videoId _) as [[r' | e'] st3];
      exact Hreq.
  - destruct (Hstep2 _ eq_refl) as (rest & Hreq). exists rest.
    destruct (transcribeWithWhisper W OS videoId _) as [[r' | e'] st3];
      exact Hreq.
Qed.

(** A call that no other call overlaps: after it has returned, the entry of
    the video in [sourceCache] is the source of the returned transcript,
    which is the source the last request went to, and no other entry has
    changed.  A call that throws leaves [sourceCache] as it was. *)
Lemma getTranscriptData_records_winning_source
        (W : World) (OS : PlatformOS) (videoId : string) (st : State) :
  match getTranscriptData W OS videoId st with
  | (Returns r, st') =>
      sourceCache st' !! videoId = Some (source r)
      /\ (exists evs req, requests st' = (requests st ++ evs ++ [req])%list
                          /\ sourceOf req = source r)
      /\ (forall v, v <> videoId -> sourceCache st' !! v = sourceCache st !! v)
  | (Throws _, st') => sourceCache st' = sourceCache st
  end.
Proof.
  pose proof (getTranscriptData_run W OS videoId st) as Hrun.
  destruct (getTranscriptData W OS videoId st) as [[r | e] st']; [| exact Hrun].
  destruct Hrun as (Hc & Hreq). rewrite Hc.
  split; [apply lookup_insert_eq |]. split; [exact Hreq |].
  intros v Hv. now apply lookup_insert_ne.
Qed.





(** C2, as stated, fails: with the video remembered as transcribed and the
    cache check timing out, the audio is extracted and uploaded at once; no
    caption request is sent at all. *)
Lemma whisper_affinity_miss_skips_captions :
  sourceCache transcribed_once !! "abc" = Some whisper
  /\ cacheHit world_uncaptioned (requests transcribed_once) "abc" = None
  /\ requests (getTranscriptData world_uncaptioned web "abc" transcribed_once).2
     = [GetCached "abc" 5000; GetAudioUrl "abc";
        PostTranscribe "abc" "https://cdn/abc.m4a"]
  /\ captionsBeforeFullTranscription
       (requests (getTranscriptData world_uncaptioned web "abc"
                    transcribed_once).2) = false.
Proof. vm_compute. repeat split. Qed.

(** C2, amended.  With the video remembered as transcribed,
    [getTranscriptData] first checks the transcription cache, under a
    5000 ms abort timer (a response that takes 5000 ms or more is no hit);
    on a hit it returns the cached transcript after that single request; on
    a miss or timeout its next request starts the full transcription path
    (audio extraction), and a caption request is sent only as a backup,
    after that transcription attempt has thrown. *)
Theorem whisper_affinity_resolution
        (W : World) (OS : PlatformOS) (videoId : string) (st : State) :
  sourceCache st !! videoId = Some whisper ->
  let run := getTranscriptData W OS videoId st in
  (exists rest,
      requests run.2
      = (requests st ++ GetCached videoId 5000 :: rest)%list)
  /\ (forall latency reply,
         cached W (requests st) videoId = (latency, reply) ->
         5000 <= latency -> cacheHit W (requests st) videoId = None)
  /\ (forall d,
         cacheHit W (requests st) videoId = Some d ->
         run = (Returns (resultOfWhisperData d),
                sent (GetCached videoId 5000) st))
  /\ (cacheHit W (requests st) videoId = None ->
      exists full,
        Forall (fun r => isTranscription r = true) full
        /\ ((exists r,
                run.1 = Returns r /\ source r = whisper
                /\ requests run.2
                   = (requests st ++ GetCached videoId 5000
                        :: GetAudioUrl videoId :: full)%list)
            \/ (exists e rest,
                   (transcribeWithWhisper W OS videoId st).1 = Throws e
                   /\ requests run.2
                      = (requests st ++ GetCached videoId 5000
                           :: GetAudioUrl videoId
                           :: full ++ GetSubtitles videoId true :: rest)%list))).
Proof.
  intros Hpref run. subst run. rewrite getTranscriptData_steered, Hpref.
  assert (Hfall : forall st1 evs,
             requests st1 = (requests st ++ evs)%list ->
             exists rest,
               requests (captionsThenWhisper W OS videoId st1).2
               = (requests st ++ evs ++ GetSubtitles videoId true :: rest)%list).
  { intros st1 evs Hreq.
    destruct (captionsThenWhisper_requests W OS videoId st1) as (rest & ->).
    exists rest. now rewrite Hreq, <- app_assoc. }
  repeat split.
  - destruct (transcribeWithWhisper_requests W OS videoId st) as (rest & Hreq & _).
    destruct (transcribeWithWhisper W OS videoId st) as [[r | e] st1];
      cbn [snd] in Hreq; [eauto |].
    destruct (Hfall st1 _ Hreq) as (rest' & ->). eexists. reflexivity.
  - intros latency reply Hworld Hlate. unfold cacheHit. rewrite Hworld.
    replace (latency <? cacheTimeoutMs) with false; [reflexivity |].
    symmetry. apply Z.ltb_ge. exact Hlate.
  - intros d Hhit. now rewrite (transcribeWithWhisper_hit W OS videoId st d Hhit).
  - intros Hmiss.
    destruct (transcribeWithWhisper_miss W OS videoId st Hmiss)
      as (full & Hreq & Hfull).
    exists full. split; [exact Hfull |].
    destruct (transcribeWithWhisper W OS videoId st) as [[r | e] st1] eqn:Hrun;
      cbn [snd] in Hreq.
    + left. exists r. repeat split; [| exact Hreq].
      now apply transcribeWithWhisper_returns in Hrun as (? & _).
    + right. destruct (Hfall st1 _ Hreq) as (rest & ->).
      exists e, rest. split; [reflexivity |]. cbn. reflexivity.
Qed.

Lemma whisper_affinity_resolution_witness :
  sourceCache transcribed_once !! "abc" = Some whisper
  /\ exists rest,
      requests (getTranscriptData world_uncaptioned web "abc" transcribed_once).2
      = (requests transcribed_once ++ GetCached "abc" 5000 :: rest)%list.
Proof.
  assert (Hpref : sourceCache transcribed_once !! "abc" = Some whisper)
    by (vm_compute; reflexivity).
  split; [exact Hpref |].
  exact (proj1 (whisper_affinity_resolution
                  world_uncaptioned web "abc" transcribed_once Hpref)).
Defined.

End WhisperFacts.

Module Base64Facts.
Import Base64.

Lemma lor_shiftl_add (hi lo n : Z) :
  0 <= n -> 0 <= lo < 2 ^ n -> Z.lor (Z.shiftl hi n) lo = hi * 2 ^ n + lo.
Proof.
  intros Hn Hlo.
  rewrite <- Z.shiftl_mul_pow2 by assumption.
  rewrite <- Z.add_lor_land.
  assert (Hz : Z.land (Z.shiftl hi n) lo = 0).
  { apply Z.bits_inj'. intros k Hk.
    rewrite Z.land_spec, Z.bits_0.
    destruct (Z.lt_ge_cases k n) as [Hlt | Hge].
    - rewrite Z.shiftl_spec_low by assumption. reflexivity.
    - rewrite <- (Z.mod_small lo (2 ^ n)) by assumption.
      rewrite Z.mod_pow2_bits_high by lia. apply andb_false_r. }
  rewrite Hz. lia.
Qed.

Lemma val_range (x : byte) : 0 <= val x < 256.
Proof. unfold val. pose proof (Byte.to_N_bounded x). lia. Qed.

Lemma bitmap_group24 (a b c : byte) :
  Z.lor (Z.lor (Z.shiftl (val a) 16) (Z.shiftl (val b) 8)) (val c)
  = group24 a b c.
Proof.
  pose proof (val_range a) as Ha. pose proof (val_range b) as Hb.
  pose proof (val_range c) as Hc.
  assert (Hb8 : Z.shiftl (val b) 8 = val b * 256)
    by (rewrite Z.shiftl_mul_pow2 by lia; reflexivity).
  assert (Hin : Z.lor (Z.shiftl (val a) 16) (Z.shiftl (val b) 8)
                = Z.shiftl (val a * 256 + val b) 8).
  { rewrite lor_shiftl_add by (rewrite ?Hb8; change (2 ^ 16) with 65536; lia).
    rewrite Hb8, Z.shiftl_mul_pow2 by lia.
    change (2 ^ 16) with 65536. change (2 ^ 8) with 256. lia. }
  rewrite Hin, lor_shiftl_add by (change (2 ^ 8) with 256; lia).
  unfold group24. change (2 ^ 8) with 256. lia.
Qed.

Lemma land63_shiftr (g k : Z) :
  0 <= k -> Z.land (Z.shiftr g k) 63 = (g / 2 ^ k) mod 64.
Proof.
  intros Hk. change 63 with (Z.ones 6).
  rewrite Z.land_ones by lia. rewrite Z.shiftr_div_pow2 by assumption.
  reflexivity.
Qed.

Lemma string_app_assoc (s1 s2 s3 : string) :
  (s1 +:+ s2) +:+ s3 = s1 +:+ (s2 +:+ s3).
Proof.
  induction s1 as [| ch s1 IH]; [reflexivity |].
  change (String ch ((s1 +:+ s2) +:+ s3) = String ch (s1 +:+ (s2 +:+ s3))).
  now rewrite IH.
Qed.

Lemma string_app_empty_r (s : string) : s +:+ "" = s.
Proof.
  induction s as [| ch s IH]; [reflexivity |].
  change (String ch (s +:+ "") = String ch s). now rewrite IH.
Qed.

Lemma byteAt_app (pre bs : list byte) (k : nat) :
  byteAt (pre ++ bs) (blen pre + Z.of_nat k) = val (nth k bs x00).
Proof.
  unfold byteAt, blen, val.
  replace (Z.to_nat (Z.of_nat (length pre) + Z.of_nat k))
    with (length pre + k)%nat by lia.
  rewrite app_nth2_plus. reflexivity.
Qed.

Lemma blen_app (pre bs : list byte) : blen (pre ++ bs) = blen pre + blen bs.
Proof. unfold blen. rewrite length_app. lia. Qed.

Lemma sextets_of_bitmap (a b c : byte) :
  let bitmap := Z.lor (Z.lor (Z.shiftl (val a) 16) (Z.shiftl (val b) 8)) (val c) in
  charAt chars (Z.land (Z.shiftr bitmap 18) 63) = sextet (group24 a b c) 0
  /\ charAt chars (Z.land (Z.shiftr bitmap 12) 63) = sextet (group24 a b c) 1
  /\ charAt chars (Z.land (Z.shiftr bitmap 6) 63) = sextet (group24 a b c) 2
  /\ charAt chars (Z.land bitmap 63) = sextet (group24 a b c) 3.
Proof.
  cbv zeta. rewrite bitmap_group24. unfold sextet.
  repeat split; try (rewrite land63_shiftr by lia; reflexivity).
  rewrite <- (Z.shiftr_0_r (group24 a b c)) at 1.
  rewrite land63_shiftr by lia. reflexivity.
Qed.

(** One pass of the loop body on a buffer [pre ++ bs], started at the first
    byte of [bs]. *)
Lemma chunk_spec (pre bs : list byte) :
  bs <> [] ->
  chunk (pre ++ bs) (blen pre)
  = (blen pre + Z.min 3 (blen bs),
     match bs with
     | a :: b :: c :: _ =>
         let g := group24 a b c in
         sextet g 0 +:+ sextet g 1 +:+ sextet g 2 +:+ sextet g 3
     | [a; b] =>
         let g := group24 a b x00 in
         sextet g 0 +:+ sextet g 1 +:+ sextet g 2 +:+ sextet g 3
     | [a] =>
         let g := group24 a x00 x00 in
         sextet g 0 +:+ sextet g 1 +:+ sextet g 2 +:+ sextet g 3
     | [] => ""
     end).
Proof.
  intros Hne.
  pose proof (byteAt_app pre bs 0) as H0. rewrite Z.add_0_r in H0.
  pose proof (byteAt_app pre bs 1) as H1.
  pose proof (byteAt_app pre bs 2) as H2.
  change (Z.of_nat 1) with 1 in H1.
  replace (blen pre + Z.of_nat 2) with (blen pre + 1 + 1) in H2 by lia.
  assert (Hlen : blen (pre ++ bs) = blen pre + blen bs) by apply blen_app.
  unfold chunk.
  destruct bs as [| a [| b [| c rest]]]; [congruence | | |];
    simpl nth in H0, H1, H2; rewrite H0.
  - (* one byte left *)
    change (blen [a]) with 1 in *.
    zltb. cbv beta iota zeta. zltb. cbv beta iota zeta. zltb.
    change (Z.lor (Z.lor (Z.shiftl (val a) 16) (Z.shiftl 0 8)) 0)
      with (Z.lor (Z.lor (Z.shiftl (val a) 16) (Z.shiftl (val x00) 8)) (val x00)).
    destruct (sextets_of_bitmap a x00 x00) as (-> & -> & -> & ->).
    reflexivity.
  - (* two bytes left *)
    change (blen [a; b]) with 2 in *.
    zltb. cbv beta iota zeta. rewrite H1. zltb. cbv beta iota zeta. zltb.
    change (Z.lor (Z.lor (Z.shiftl (val a) 16) (Z.shiftl (val b) 8)) 0)
      with (Z.lor (Z.lor (Z.shiftl (val a) 16) (Z.shiftl (val b) 8)) (val x00)).
    destruct (sextets_of_bitmap a b x00) as (-> & -> & -> & ->).
    f_equal. lia.
  - (* three bytes or more *)
    assert (H3 : 3 <= blen (a :: b :: c :: rest))
      by (unfold blen; simpl length; lia).
    zltb. cbv beta iota zeta. rewrite H1. zltb. cbv beta iota zeta.
    rewrite H2. zltb.
    destruct (sextets_of_bitmap a b c) as (-> & -> & -> & ->).
    f_equal. lia.
Qed.

Lemma unpadded_encode_skip (bs : list byte) :
  bs <> [] ->
  unpadded_encode bs
  = match bs with
    | a :: b :: c :: _ =>
        let g := group24 a b c in
        sextet g 0 +:+ sextet g 1 +:+ sextet g 2 +:+ sextet g 3
    | [a; b] =>
        let g := group24 a b x00 in
        sextet g 0 +:+ sextet g 1 +:+ sextet g 2 +:+ sextet g 3
    | [a] =>
        let g := group24 a x00 x00 in
        sextet g 0 +:+ sextet g 1 +:+ sextet g 2 +:+ sextet g 3
    | [] => ""
    end +:+ unpadded_encode (skipn 3 bs).
Proof.
  destruct bs as [| a [| b [| c rest]]]; intros Hne;
    [congruence | | | reflexivity];
    cbn [unpadded_encode skipn]; now rewrite string_app_empty_r.
Qed.

Lemma loop_spec (n : nat) :
  forall (bs pre : list byte) (fuel : nat) (result : string),
    (length bs <= n)%nat -> (length bs <= fuel)%nat ->
    loop fuel (pre ++ bs) (blen pre) result = result +:+ unpadded_encode bs.
Proof.
  induction n as [| n IH]; intros bs pre fuel result Hn Hfuel.
  - destruct bs; [| simpl in Hn; lia].
    rewrite app_nil_r. cbn [unpadded_encode]. rewrite string_app_empty_r.
    destruct fuel; cbn [loop]; [reflexivity |]. now rewrite Z.ltb_irrefl.
  - destruct (list_eq_nil_dec bs) as [-> | Hne].
    + rewrite app_nil_r. cbn [unpadded_encode]. rewrite string_app_empty_r.
      destruct fuel; cbn [loop]; [reflexivity |]. now rewrite Z.ltb_irrefl.
    + destruct fuel as [| fuel]; [destruct bs; [congruence | simpl in Hfuel; lia] |].
      cbn [loop].
      assert (Hlt : (blen pre <? blen (pre ++ bs)) = true).
      { apply Z.ltb_lt. rewrite blen_app. unfold blen.
        destruct bs; [congruence | simpl length; lia]. }
      rewrite Hlt. rewrite (chunk_spec pre bs Hne).
      rewrite (unpadded_encode_skip bs Hne), <- string_app_assoc.
      rewrite <- (firstn_skipn 3 bs) at 1. rewrite app_assoc.
      assert (Hpre : blen pre + Z.min 3 (blen bs) = blen (pre ++ firstn 3 bs)).
      { rewrite blen_app. unfold blen. rewrite length_firstn. lia. }
      rewrite Hpre. apply IH.
      * rewrite length_skipn. destruct bs; [congruence | simpl in *; lia].
      * rewrite length_skipn. destruct bs; [congruence | simpl in *; lia].
Qed.

(** The loop never runs out of passes: any fuel from [length buffer] on
    gives the result of [arrayBufferToBase64]. *)
Lemma loop_fuel_irrelevant (buffer : list byte) (fuel : nat) :
  (length buffer <= fuel)%nat ->
  loop fuel buffer 0 "" = arrayBufferToBase64 buffer.
Proof.
  intros Hfuel. unfold arrayBufferToBase64.
  pose proof (loop_spec (length buffer) buffer [] fuel "") as H1.
  pose proof (loop_spec (length buffer) buffer [] (length buffer) "") as H2.
  cbn [app] in H1, H2. change (blen []) with 0 in H1, H2.
  now rewrite H1, H2 by lia.
Qed.

Lemma arrayBufferToBase64_closed_form (buffer : list byte) :
  arrayBufferToBase64 buffer = unpadded_encode buffer.
Proof.
  unfold arrayBufferToBase64.
  pose proof (loop_spec (length buffer) buffer [] (length buffer) "") as H.
  cbn [app] in H. change (blen []) with 0 in H.
  now rewrite H by lia.
Qed.

Lemma list_ind3 (P : list byte -> Prop) :
  P [] -> (forall a, P [a]) -> (forall a b, P [a; b]) ->
  (forall a b c rest, P rest -> P (a :: b :: c :: rest)) ->
  forall bs, P bs.
Proof.
  intros H0 H1 H2 H3.
  fix self 1.
  intros [| a [| b [| c rest]]];
    [apply H0 | apply H1 | apply H2 | apply H3, self].
Qed.

(** On whole groups of three bytes the encoder is RFC 4648. *)
Lemma arrayBufferToBase64_whole_groups (buffer : list byte) :
  Z.of_nat (length buffer) mod 3 = 0 ->
  arrayBufferToBase64 buffer = rfc4648_encode buffer.
Proof.
  rewrite arrayBufferToBase64_closed_form.
  induction buffer as [| a | a b | a b c rest IH] using list_ind3; intros Hlen.
  - reflexivity.
  - discriminate Hlen.
  - discriminate Hlen.
  - cbn [unpadded_encode rfc4648_encode]. rewrite IH; [reflexivity |].
    simpl length in Hlen.
    replace (Z.of_nat (S (S (S (length rest))))) with (Z.of_nat (length rest) + 1 * 3) in Hlen by lia.
    now rewrite Z.mod_add in Hlen by lia.
Qed.

Lemma sextet_not_pad (g k : Z) (s t : string) :
  sextet g k +:+ s <> "=" +:+ t.
Proof.
  unfold sextet.
  assert (Hr : 0 <= (g / 64 ^ (3 - k)) mod 64 < 64) by (apply Z.mod_pos_bound; lia).
  remember ((g / 64 ^ (3 - k)) mod 64) as m eqn:Hm. clear Hm.
  assert (Hcases : exists i : nat, (i < 64)%nat /\ m = Z.of_nat i)
    by (exists (Z.to_nat m); lia).
  destruct Hcases as (i & Hi & ->).
  do 64 (destruct i as [| i]; [intros H; cbv in H; discriminate H |]). lia.
Qed.

(** On any other length the last group is not padded: the result differs
    from RFC 4648. *)
Lemma arrayBufferToBase64_partial_group (buffer : list byte) :
  Z.of_nat (length buffer) mod 3 <> 0 ->
  arrayBufferToBase64 buffer <> rfc4648_encode buffer.
Proof.
  rewrite arrayBufferToBase64_closed_form.
  induction buffer as [| a | a b | a b c rest IH] using list_ind3; intros Hlen.
  - now contradict Hlen.
  - cbn [unpadded_encode rfc4648_encode]. intros Heq.
    do 2 apply String.app_inj in Heq.
    now apply (sextet_not_pad _ _ _ "=") in Heq.
  - cbn [unpadded_encode rfc4648_encode]. intros Heq.
    do 3 apply String.app_inj in Heq.
    rewrite <- (string_app_empty_r (sextet _ 3)) in Heq.
    now apply (sextet_not_pad _ _ _ "") in Heq.
  - cbn [unpadded_encode rfc4648_encode]. intros Heq.
    apply String.app_inj in Heq. revert Heq. apply IH.
    simpl length in Hlen.
    replace (Z.of_nat (S (S (S (length rest))))) with (Z.of_nat (length rest) + 1 * 3) in Hlen by lia.
    now rewrite Z.mod_add in Hlen by lia.
Qed.

(** C10 does not hold of the code.  On the one-byte buffer [77] ("M") the encoder returns
    [TQAA]: the two tests [i - 2 < buffer.length] and [i - 1 < buffer.length]
    hold at every pass, so no [=] is ever written; RFC 4648 and [btoa] give
    [TQ==]. *)
Theorem arrayBufferToBase64_one_byte_unpadded :
  arrayBufferToBase64 ["M"%byte] = "TQAA"
  /\ rfc4648_encode ["M"%byte] = "TQ=="
  /\ arrayBufferToBase64 ["M"%byte] <> rfc4648_encode ["M"%byte].
Proof. repeat split. discriminate. Qed.

End Base64Facts.

Module OverlappingFacts.
Import Whisper WhisperFacts.

Lemma awaiting_alone {A} (m : Async A) (st : State) :
  Overlapping.awaiting (fun s => s) m st = m st.
Proof. unfold Overlapping.awaiting. now destruct (m st). Qed.

(** With nothing else running, the call with its suspension points is the
    call. *)
Lemma getTranscriptData_alone (W : World) (OS : PlatformOS)
      (videoId : string) (st : State) :
  Overlapping.getTranscriptData W OS (fun s => s) videoId st
  = getTranscriptData W OS videoId st.
Proof.
  unfold Overlapping.getTranscriptData, getTranscriptData.
  unfold try_catch, mbind, Async_bind, sourceCache_get, sourceCache_set,
    mret, Async_ret, throw.
  destruct (sourceCache st !! videoId) as [[] |].
  - rewrite awaiting_alone.
    destruct (getYouTubeSubtitles W videoId true st) as [[r | e] st1];
      [destruct (usable r); [reflexivity |] |];
      rewrite awaiting_alone;
      destruct (getYouTubeSubtitles W videoId true st1) as [[r1 | e1] st2];
      try (destruct (usable r1); [reflexivity |]);
      rewrite awaiting_alone; reflexivity.
  - rewrite awaiting_alone.
    destruct (transcribeWithWhisper W OS videoId st) as [[r | e] st1];
      [reflexivity |].
    rewrite awaiting_alone.
    destruct (getYouTubeSubtitles W videoId true st1) as [[r1 | e1] st2];
      try (destruct (usable r1); [reflexivity |]);
      rewrite awaiting_alone; reflexivity.
  - rewrite awaiting_alone.
    destruct (getYouTubeSubtitles W videoId true st) as [[r1 | e1] st2];
      try (destruct (usable r1); [reflexivity |]);
      rewrite awaiting_alone; reflexivity.
Qed.

(** Tasks that leave [sourceCache] alone do no harm: overlapped by them
    only, a call that returns has recorded the source of its transcript,
    and a call that throws has changed nothing. *)
Lemma getTranscriptData_amid_readers (W : World) (OS : PlatformOS)
      (meanwhile : State -> State) (videoId : string) (st : State) :
  (forall s, sourceCache (meanwhile s) = sourceCache s) ->
  match Overlapping.getTranscriptData W OS meanwhile videoId st with
  | (Returns r, st') =>
      sourceCache st' = <[videoId := source r]> (sourceCache st)
  | (Throws _, st') => sourceCache st' = sourceCache st
  end.
Proof.
  intros Hkeep.
  assert (Hw : forall st0,
             match Overlapping.awaiting meanwhile
                     (transcribeWithWhisper W OS videoId) st0 with
             | (Returns r, st1) =>
                 source r = whisper /\ sourceCache st1 = sourceCache st0
             | (Throws _, st1) => sourceCache st1 = sourceCache st0
             end).
  { intros st0. unfold Overlapping.awaiting.
    destruct (transcribeWithWhisper W OS videoId st0) as [[r | e] st1] eqn:Hrun.
    - apply transcribeWithWhisper_returns in Hrun as (Hs & Hc & _).
      now rewrite Hkeep.
    - apply transcribeWithWhisper_throws in Hrun as (Hc & _).
      now rewrite Hkeep. }
  assert (Hy : forall st0,
             match Overlapping.awaiting meanwhile
                     (getYouTubeSubtitles W videoId true) st0 with
             | (Returns r, st1) =>
                 source r = youtube /\ sourceCache st1 = sourceCache st0
             | (Throws _, st1) => sourceCache st1 = sourceCache st0
             end).
  { intros st0. unfold Overlapping.awaiting.
    destruct (getYouTubeSubtitles_run W videoId st0) as (o & -> & Ho).
    destruct o as [r | e]; rewrite Hkeep; [split |]; try reflexivity.
    now apply Ho. }
  assert (Hstep2 : forall st1,
             sourceCache st1 = sourceCache st ->
             match Overlapping.awaiting meanwhile
                     (transcribeWithWhisper W OS videoId) st1 with
             | (Returns r, st2) =>
                 <[videoId := whisper]> (sourceCache st2)
                 = <[videoId := source r]> (sourceCache st)
             | (Throws _, st2) => sourceCache st2 = sourceCache st
             end).
  { intros st1 Hc1. specialize (Hw st1).
    destruct (Overlapping.awaiting _ _ st1) as [[r | e] st2].
    - destruct Hw as (-> & ->). now rewrite Hc1.
    - now rewrite Hw. }
  assert (Hstep1 : forall st1,
             sourceCache st1 = sourceCache st ->
             match
               (let (o, st2) :=
                  Overlapping.awaiting meanwhile
                    (getYouTubeSubtitles W videoId true) st1 in
                match o with
                | Returns r =>
                    if usable r
                    then (Returns r,
                          {| sourceCache := <[videoId := youtube]> (sourceCache st2);
                             requests := requests st2 |})
                    else
                      let (o', st3) :=
                        Overlapping.awaiting meanwhile
                          (transcribeWithWhisper W OS videoId) st2 in
                      match o' with
                      | Returns r' =>
                          (Returns r',
                           {| sourceCache := <[videoId := whisper]> (sourceCache st3);
                              requests := requests st3 |})
                      | Throws e' => (Throws e', st3)
                      end
                | Throws _ =>
                    let (o', st3) :=
                      Overlapping.awaiting meanwhile
                        (transcribeWithWhisper W OS videoId) st2 in
                    match o' with
                    | Returns r' =>
                        (Returns r',
                         {| sourceCache := <[videoId := whisper]> (sourceCache st3);
                            requests := requests st3 |})
                    | Throws e' => (Throws e', st3)
                    end
                end) with
             | (Returns r, st') =>
                 sourceCache st' = <[videoId := source r]> (sourceCache st)
             | (Throws _, st') => sourceCache st' = sourceCache st
             end).
  { intros st1 Hc1. specialize (Hy st1).
    destruct (Overlapping.awaiting _ (getYouTubeSubtitles _ _ _) st1)
      as [[r | e] st2].
    - destruct Hy as (Hs & Hc2). destruct (usable r).
      + cbn. now rewrite Hs, Hc2, Hc1.
      + specialize (Hstep2 st2 ltac:(now rewrite Hc2)).
        destruct (Overlapping.awaiting _ _ st2) as [[r' | e'] st3]; exact Hstep2.
    - specialize (Hstep2 st2 ltac:(now rewrite Hy)).
      destruct (Overlapping.awaiting _ _ st2) as [[r' | e'] st3]; exact Hstep2. }
  unfold Overlapping.getTranscriptData.
  unfold try_catch, mbind, Async_bind, sourceCache_get, sourceCache_set,
    mret, Async_ret, throw.
  destruct (sourceCache st !! videoId) as [[] |] eqn:Hpref.
  - specialize (Hy st).
    destruct (Overlapping.awaiting _ (getYouTubeSubtitles _ _ _) st)
      as [[r | e] st1].
    + destruct Hy as (Hs & Hc1). destruct (usable r).
      * rewrite Hc1, Hs. symmetry. now apply insert_id.
      * specialize (Hstep1 st1 Hc1). revert Hstep1.
        destruct (Overlapping.awaiting _ (getYouTubeSubtitles _ _ _) st1)
          as [[r1 | e1] st2]; [destruct (usable r1) |]; cbv beta iota zeta;
          try (destruct (Overlapping.awaiting _ _ st2) as [[r' | e'] st3]);
          trivial.
    + specialize (Hstep1 st1 Hy). revert Hstep1.
      destruct (Overlapping.awaiting _ (getYouTubeSubtitles _ _ _) st1)
        as [[r1 | e1] st2]; [destruct (usable r1) |]; cbv beta iota zeta;
        try (destruct (Overlapping.awaiting _ _ st2) as [[r' | e'] st3]);
        trivial.
  - specialize (Hw st).
    destruct (Overlapping.awaiting _ (transcribeWithWhisper _ _ _) st)
      as [[r | e] st1].
    + destruct Hw as (Hs & Hc1). rewrite Hc1, Hs. symmetry.
      now apply insert_id.
    + specialize (Hstep1 st1 Hw). revert Hstep1.
      destruct (Overlapping.awaiting _ (getYouTubeSubtitles _ _ _) st1)
        as [[r1 | e1] st2]; [destruct (usable r1) |]; cbv beta iota zeta;
        try (destruct (Overlapping.awaiting _ _ st2) as [[r' | e'] st3]);
        trivial.
  - specialize (Hstep1 st eq_refl). revert Hstep1.
    destruct (Overlapping.awaiting _ (getYouTubeSubtitles _ _ _) st)
      as [[r1 | e1] st2]; [destruct (usable r1) |]; cbv beta iota zeta;
      try (destruct (Overlapping.awaiting _ _ st2) as [[r' | e'] st3]);
      trivial.
Qed.

(** C7.  The returns steered by [sourceCache] write nothing, so a call that
    another call overlaps can return a transcript whose source is not the
    one recorded.  The video is remembered as transcribed; the first call
    uploads the audio and waits.  A second call for the video starts then:
    its upload is refused, it falls back on the captions, records 'youtube'
    and returns them.  The first call then returns the transcription, and
    the entry still says 'youtube'.  Run alone, the first call returns the
    same transcription with 'whisper' recorded. *)
Theorem overlapping_call_leaves_winning_source_unrecorded :
  let other := Overlapping.overlappingCall Overlapping.world_busy web "abc" in
  getTranscriptData Overlapping.world_busy web "abc" transcribed_once
  = (Returns Overlapping.transcript_abc, Overlapping.uploading)
  /\ sourceCache Overlapping.uploading !! "abc" = Some whisper
  /\ getTranscriptData Overlapping.world_busy web "abc" Overlapping.uploading
     = (Returns captions_abc, other Overlapping.uploading)
  /\ Overlapping.getTranscriptData Overlapping.world_busy web other "abc"
       transcribed_once
     = (Returns Overlapping.transcript_abc, other Overlapping.uploading)
  /\ source Overlapping.transcript_abc = whisper
  /\ sourceCache (other Overlapping.uploading) !! "abc" = Some youtube
  /\ requests (other Overlapping.uploading)
     = [GetCached "abc" 5000; GetAudioUrl "abc";
        PostTranscribe "abc" "https://cdn/abc.m4a";
        GetCached "abc" 5000; GetAudioUrl "abc";
        PostTranscribe "abc" "https://cdn/abc.m4a";
        GetSubtitles "abc" true].
Proof. cbv zeta. repeat split; vm_compute; reflexivity. Qed.

End OverlappingFacts.

Module WhisperServiceFacts.
Import Whisper WhisperFacts WhisperVocabulary.

Lemma transcribeWithWhisper_result (W : World) (OS : PlatformOS)
      (videoId : string) :
  frame (fun _ => True) (fun res => exists d, res = resultOfWhisperData d)
        (transcribeWithWhisper W OS videoId).
Proof.
  unfold transcribeWithWhisper.
  apply frame_try; [| intros e; apply frame_throw].
  eapply frame_bind
    with (Q := fun res => forall r, res = Some r -> exists d, r = resultOfWhisperData d).
  - intros st. rewrite getWhisperFromCache_spec. eexists [_]. cbn.
    repeat split; [repeat constructor |].
    intros a [= <-] r Hr.
    destruct (cacheHit W (requests st) videoId) as [d |]; [| discriminate].
    injection Hr as <-. now exists d.
  - intros [r |] Hr; [apply frame_ret; now apply Hr |].
    eapply frame_bind with (Q := fun _ => True).
    { intros st.
      destruct (extractAudio_frame W OS videoId st) as (evs & ? & HE & ? & ?).
      exists evs. repeat split; auto.
      eapply Forall_impl; [exact HE | trivial]. }
    intros audioUri _.
    eapply frame_bind with (Q := fun _ => True).
    { destruct OS; [now apply frame_ret |].
      eapply frame_bind with (Q := fun _ => True).
      - now apply frame_await.
      - intros [] _; [now apply frame_ret | apply frame_throw]. }
    intros _ _.
    eapply frame_bind with (Q := fun _ => True); [now apply frame_await |].
    intros response _.
    destruct (negb (ok response)).
    + eapply frame_bind with (Q := fun _ => True); [now apply frame_settle |].
      intros; apply frame_throw.
    + eapply frame_bind with (Q := fun _ => True); [now apply frame_settle |].
      intros data _.
      eapply frame_bind with (Q := fun _ => True).
      { destruct OS; [now apply frame_ret | now apply frame_await]. }
      intros; apply frame_ret. now exists data.
Qed.

Lemma captionsThenWhisper_outcome (W : World) (OS : PlatformOS)
      (videoId : string) (st : State) :
  match (captionsThenWhisper W OS videoId st).1 with
  | Returns r => success r = true /\ (source r = youtube -> usable r = true)
  | Throws e => e = networkError \/ e = unavailableError
  end.
Proof.
  unfold captionsThenWhisper, try_catch, mbind, Async_bind, sourceCache_set,
    mret, Async_ret, throw.
  destruct (getYouTubeSubtitles_frame W videoId true st) as (_ & _ & _ & _ & HP).
  destruct (getYouTubeSubtitles_run W videoId st) as (o & Hrun & _).
  rewrite Hrun in HP |- *. cbn [fst] in HP.
  assert (Hstep2 : forall st0 r st1,
             transcribeWithWhisper W OS videoId st0 = (Returns r, st1) ->
             success r = true /\ (source r = youtube -> usable r = true)).
  { intros st0 r st1 Hw.
    destruct (transcribeWithWhisper_result W OS videoId st0) as (_ & _ & _ & _ & HQ).
    rewrite Hw in HQ. destruct (HQ r eq_refl) as (d & ->).
    split; [reflexivity | discriminate]. }
  assert (Hfall : forall st0,
    match (let (o1, st'0) :=
             let (o1, st'0) := transcribeWithWhisper W OS videoId st0 in
             match o1 with
             | Returns a0 =>
                 (Returns a0,
                  {| sourceCache := <[videoId:=whisper]> (sourceCache st'0);
                     requests := requests st'0 |})
             | Throws e => (Throws e, st'0)
             end in
           match o1 with
           | Returns a0 => (Returns a0, st'0)
           | Throws e =>
               (Throws
                  (if includes e "Network request failed"
                   then "Network connection failed. Please check your internet connection and try again."
                   else "Both YouTube subtitles and Whisper AI are unavailable for this video. Please try a different video or check your connection."),
                st'0)
           end) with
    | (Returns r, st2) =>
        success r = true /\ (source r = youtube -> usable r = true)
    | (Throws e, st2) =>
        "Failed to get transcript: " +:+ e = networkError
        \/ "Failed to get transcript: " +:+ e = unavailableError
    end).
  { intros st0.
    destruct (transcribeWithWhisper W OS videoId st0) as [[r | e] st1] eqn:Hw.
    - eapply Hstep2, Hw.
    - destruct (includes e "Network request failed"); [left | right]; reflexivity. }
  destruct o as [r | e]; [destruct (usable r) eqn:Hus |].
  - cbn. destruct (HP r eq_refl) as (_ & Hs). auto.
  - specialize (Hfall (sent (GetSubtitles videoId true) st)).
    cbv beta iota. revert Hfall.
    destruct (transcribeWithWhisper W OS videoId _) as [[r' | e'] st3];
      cbn; trivial.
  - specialize (Hfall (sent (GetSubtitles videoId true) st)).
    cbv beta iota. revert Hfall.
    destruct (transcribeWithWhisper W OS videoId _) as [[r' | e'] st3];
      cbn; trivial.
Qed.

Lemma getTranscriptData_outcome (W : World) (OS : PlatformOS)
      (videoId : string) (st : State) :
  match (getTranscriptData W OS videoId st).1 with
  | Returns r => success r = true /\ (source r = youtube -> usable r = true)
  | Throws e => e = networkError \/ e = unavailableError
  end.
Proof.
  rewrite getTranscriptData_steered.
  destruct (sourceCache st !! videoId) as [[] |].
  - destruct (getYouTubeSubtitles_frame W videoId true st) as (_ & _ & _ & _ & HP).
    destruct (getYouTubeSubtitles W videoId true st) as [[r | e] st1];
      [destruct (usable r) eqn:Hus |]; try apply captionsThenWhisper_outcome.
    cbn. destruct (HP r eq_refl) as (_ & Hs). auto.
  - destruct (transcribeWithWhisper_result W OS videoId st) as (_ & _ & _ & _ & HQ).
    destruct (transcribeWithWhisper W OS videoId st) as [[r | e] st1];
      [| apply captionsThenWhisper_outcome].
    destruct (HQ r eq_refl) as (d & ->). cbn. split; [reflexivity | discriminate].
  - apply captionsThenWhisper_outcome.
Qed.

Lemma rethrown (e : string) :
  "Failed to get transcript: "
  +:+ (if includes e "Network request failed"
       then "Network connection failed. Please check your internet connection and try again."
       else "Both YouTube subtitles and Whisper AI are unavailable for this video. Please try a different video or check your connection.")
  = if includes e "Network request failed" then networkError
    else unavailableError.
Proof. destruct (includes e "Network request failed"); reflexivity. Qed.

(** [captionsThenWhisper] throws when the transcription it ends with has
    thrown, and words its error after the message of that one. *)
Lemma captionsThenWhisper_throws (W : World) (OS : PlatformOS)
      (videoId : string) (st st' : State) (e : string) :
  captionsThenWhisper W OS videoId st = (Throws e, st') ->
  exists eW,
    transcribeWithWhisper W OS videoId (sent (GetSubtitles videoId true) st)
    = (Throws eW, st')
    /\ e = if includes eW "Network request failed" then networkError
           else unavailableError.
Proof.
  unfold captionsThenWhisper, try_catch, mbind, Async_bind, sourceCache_set,
    mret, Async_ret, throw.
  destruct (getYouTubeSubtitles_run W videoId st) as (o & -> & _).
  assert (Hfall : forall st0,
    (let (o1, st'0) :=
       let (o1, st'0) :=
         let (o1, st'0) := transcribeWithWhisper W OS videoId st0 in
         match o1 with
         | Returns a0 =>
             (Returns a0,
              {| sourceCache := <[videoId:=whisper]> (sourceCache st'0);
                 requests := requests st'0 |})
         | Throws e0 => (Throws e0, st'0)
         end in
       match o1 with
       | Returns a0 => (Returns a0, st'0)
       | Throws e0 =>
           (Throws
              (if includes e0 "Network request failed"
               then "Network connection failed. Please check your internet connection and try again."
               else "Both YouTube subtitles and Whisper AI are unavailable for this video. Please try a different video or check your connection."),
            st'0)
       end in
     match o1 with
     | Returns a0 => (Returns a0, st'0)
     | Throws e0 => (Throws ("Failed to get transcript: " +:+ e0), st'0)
     end) = (Throws e, st') ->
    exists eW,
      transcribeWithWhisper W OS videoId st0 = (Throws eW, st')
      /\ e = if includes eW "Network request failed" then networkError
             else unavailableError).
  { intros st0.
    destruct (transcribeWithWhisper W OS videoId st0) as [[r | eW] st1];
      [discriminate |].
    intros [= <- <-]. exists eW. split; [reflexivity | apply rethrown]. }
  destruct o as [r | e0]; [destruct (usable r) |]; cbv beta iota;
    [discriminate | apply Hfall ..].
Qed.

(** [getTranscriptData] throws only when the transcription attempted last,
    right after a caption request, has thrown, and it throws one of two
    messages: the one about the network when the message of that
    transcription error includes 'Network request failed', the one about
    both sources otherwise.  The errors of the caption attempts never reach
    the caller. *)
Theorem getTranscriptData_throws_two_messages
        (W : World) (OS : PlatformOS) (videoId : string) (st st' : State)
        (e : string) :
  getTranscriptData W OS videoId st = (Throws e, st') ->
  exists earlier eW,
    transcribeWithWhisper W OS videoId
      {| sourceCache := sourceCache st;
         requests := (requests st ++ earlier ++ [GetSubtitles videoId true])%list |}
    = (Throws eW, st')
    /\ e = if includes eW "Network request failed" then networkError
           else unavailableError.
Proof.
  rewrite getTranscriptData_steered.
  assert (Hfall : forall st1 earlier,
             sourceCache st1 = sourceCache st ->
             requests st1 = (requests st ++ earlier)%list ->
             captionsThenWhisper W OS videoId st1 = (Throws e, st') ->
             exists earlier eW,
               transcribeWithWhisper W OS videoId
                 {| sourceCache := sourceCache st;
                    requests := (requests st ++ earlier
                                 ++ [GetSubtitles videoId true])%list |}
               = (Throws eW, st')
               /\ e = if includes eW "Network request failed" then networkError
                      else unavailableError).
  { intros st1 earlier Hc Hreq Hrun.
    apply captionsThenWhisper_throws in Hrun as (eW & Hrun & He).
    exists earlier, eW. split; [| exact He].
    unfold sent in Hrun. now rewrite Hc, Hreq, <- app_assoc in Hrun. }
  destruct (sourceCache st !! videoId) as [[] |].
  - destruct (getYouTubeSubtitles_run W videoId st) as (o & -> & _).
    destruct o as [r | e0]; [destruct (usable r); [discriminate |] |];
      apply (Hfall _ [GetSubtitles videoId true]); reflexivity.
  - destruct (transcribeWithWhisper W OS videoId st) as [[r | e0] st1] eqn:Hw;
      [discriminate |].
    apply transcribeWithWhisper_throws in Hw as (Hc & evs & Hreq & _).
    now apply (Hfall st1 evs).
  - apply (Hfall st []); [reflexivity | now rewrite app_nil_r].
Qed.

Lemma getTranscriptData_throws_two_messages_witness :
  (getTranscriptData world_offline web "abc" fresh).1 = Throws networkError
  /\ (getTranscriptData world_no_audio web "abc" fresh).1
     = Throws unavailableError
  /\ exists earlier eW,
      transcribeWithWhisper world_no_audio web "abc"
        {| sourceCache := sourceCache fresh;
           requests := (requests fresh ++ earlier
                        ++ [GetSubtitles "abc" true])%list |}
      = (Throws eW, (getTranscriptData world_no_audio web "abc" fresh).2)
      /\ unavailableError
         = if includes eW "Network request failed" then networkError
           else unavailableError.
Proof.
  assert (Hnet : getTranscriptData world_offline web "abc" fresh
                 = (Throws networkError,
                    (getTranscriptData world_offline web "abc" fresh).2))
    by (vm_compute; reflexivity).
  assert (Hrun : getTranscriptData world_no_audio web "abc" fresh
                 = (Throws unavailableError,
                    (getTranscriptData world_no_audio web "abc" fresh).2))
    by (vm_compute; reflexivity).
  split; [now rewrite Hnet |]. split; [now rewrite Hrun |].
  exact (getTranscriptData_throws_two_messages
           world_no_audio web "abc" fresh _ unavailableError Hrun).
Defined.

(** A transcript returned as captions is never empty; only a transcription
    can come back without sentences. *)
Theorem returned_captions_are_not_empty
        (W : World) (OS : PlatformOS) (videoId : string) (st : State)
        (r : TranscriptResult) :
  (getTranscriptData W OS videoId st).1 = Returns r ->
  success r = true
  /\ (source r = youtube -> sentences r <> []).
Proof.
  intros Hrun. pose proof (getTranscriptData_outcome W OS videoId st) as H.
  rewrite Hrun in H. destruct H as (Hs & Hy). split; [exact Hs |].
  intros Hsrc Hnil. specialize (Hy Hsrc). unfold usable in Hy.
  rewrite Hnil, Hs in Hy. discriminate Hy.
Qed.

Lemma returned_captions_are_not_empty_witness :
  (getTranscriptData world_captioned web "abc" fresh).1 = Returns captions_abc
  /\ success captions_abc = true
  /\ (source captions_abc = youtube -> sentences captions_abc <> []).
Proof.
  assert (Hrun : (getTranscriptData world_captioned web "abc" fresh).1
                 = Returns captions_abc) by (vm_compute; reflexivity).
  split; [exact Hrun |].
  exact (returned_captions_are_not_empty
           world_captioned web "abc" fresh captions_abc Hrun).
Defined.

(** The cache check never throws.  It sends one request and returns the
    cached transcript, marked as a successful transcription, or [null]:
    [null] when the response takes 5000 ms or more, when the request fails,
    when the response is not [ok] and when its body cannot be read. *)
Theorem cache_check_never_throws
        (W : World) (videoId : string) (st : State) :
  exists res,
    getWhisperFromCache W videoId st
    = (Returns res, sent (GetCached videoId 5000) st)
    /\ (forall r, res = Some r -> success r = true /\ source r = whisper)
    /\ (forall latency reply,
           cached W (requests st) videoId = (latency, reply) ->
           (5000 <= latency
            \/ (exists e, reply = Rejects e)
            \/ (exists resp, reply = Resolves resp /\ ok resp = false)
            \/ (exists resp e, reply = Resolves resp /\ json resp = Rejects e)) ->
           res = None).
Proof.
  rewrite getWhisperFromCache_spec. eexists. split; [reflexivity |]. split.
  - intros r Hr.
    destruct (cacheHit W (requests st) videoId) as [d |]; [| discriminate].
    injection Hr as <-. split; reflexivity.
  - intros latency reply Hworld Hwhy. unfold cacheHit. rewrite Hworld.
    destruct (latency <? cacheTimeoutMs) eqn:Hlat; [| reflexivity].
    apply Z.ltb_lt in Hlat. unfold cacheTimeoutMs in Hlat.
    destruct Hwhy as [Hlate | [(e & ->) | [(resp & -> & Hok) | (resp & e & -> & Hjson)]]].
    + lia.
    + reflexivity.
    + cbn. now rewrite Hok.
    + cbn. rewrite Hjson. now destruct (ok resp).
Qed.

(** Unless the video is remembered as transcribed, the first request of
    [getTranscriptData] is the caption request: on the first call for a
    video as well as after a caption success. *)
Theorem captions_first_unless_transcribed
        (W : World) (OS : PlatformOS) (videoId : string) (st : State) :
  sourceCache st !! videoId <> Some whisper ->
  exists rest,
    requests (getTranscriptData W OS videoId st).2
    = (requests st ++ GetSubtitles videoId true :: rest)%list.
Proof.
  intros Hpref. rewrite getTranscriptData_steered.
  destruct (sourceCache st !! videoId) as [[] |]; [| contradiction |].
  - destruct (getYouTubeSubtitles_run W videoId st) as (o & -> & _).
    assert (Hfall : exists rest,
               requests (captionsThenWhisper W OS videoId
                           (sent (GetSubtitles videoId true) st)).2
               = (requests st ++ GetSubtitles videoId true :: rest)%list).
    { destruct (captionsThenWhisper_requests W OS videoId
                  (sent (GetSubtitles videoId true) st)) as (rest & ->).
      eexists. cbn. now rewrite <- app_assoc. }
    destruct o as [r' | e]; [destruct (usable r') |]; try exact Hfall.
    exists []. reflexivity.
  - apply captionsThenWhisper_requests.
Qed.

Lemma captions_first_unless_transcribed_witness :
  sourceCache fresh !! "abc" <> Some whisper
  /\ exists rest,
      requests (getTranscriptData world_uncaptioned native "abc" fresh).2
      = (requests fresh ++ GetSubtitles "abc" true :: rest)%list.
Proof.
  assert (Hpref : sourceCache fresh !! "abc" <> Some whisper)
    by (vm_compute; discriminate).
  split; [exact Hpref |].
  exact (captions_first_unless_transcribed
           world_uncaptioned native "abc" fresh Hpref).
Defined.

Lemma getYouTubeSubtitles_usable (W : World) (videoId : string) (st : State) :
  captionsUsable W (requests st) videoId = false ->
  forall r, (getYouTubeSubtitles W videoId true st).1 = Returns r ->
            usable r = false.
Proof.
  unfold captionsUsable, getYouTubeSubtitles, try_catch, mbind, Async_bind,
    await, usable.
  destruct (subtitles W (requests st) videoId true) as [data | e];
    [| discriminate].
  destruct (sd_success data), (sd_sentences data) as [ss |]; cbn;
    try discriminate.
  intros Hss r [= <-]. exact Hss.
Qed.

(** A caption hint that has gone stale costs a second caption request: with
    the video remembered as captioned and the captions no longer usable,
    [getTranscriptData] sends the caption request twice in a row before it
    turns to the transcription. *)
Theorem stale_caption_hint_asks_twice
        (W : World) (OS : PlatformOS) (videoId : string) (st : State) :
  sourceCache st !! videoId = Some youtube ->
  captionsUsable W (requests st) videoId = false ->
  exists rest,
    requests (getTranscriptData W OS videoId st).2
    = (requests st
         ++ GetSubtitles videoId true :: GetSubtitles videoId true :: rest)%list.
Proof.
  intros Hpref Hstale. rewrite getTranscriptData_steered, Hpref.
  pose proof (getYouTubeSubtitles_usable W videoId st Hstale) as Hus.
  destruct (getYouTubeSubtitles_run W videoId st) as (o & Hrun & _).
  rewrite Hrun in Hus |- *.
  destruct (captionsThenWhisper_requests W OS videoId
              (sent (GetSubtitles videoId true) st)) as (rest & Hreq).
  exists rest.
  destruct o as [r | e].
  - rewrite (Hus r eq_refl), Hreq. cbn. now rewrite <- app_assoc.
  - rewrite Hreq. cbn. now rewrite <- app_assoc.
Qed.

Lemma stale_caption_hint_asks_twice_witness :
  sourceCache captioned_once !! "abc" = Some youtube
  /\ captionsUsable world_uncaptioned (requests captioned_once) "abc" = false
  /\ exists rest,
      requests (getTranscriptData world_uncaptioned web "abc" captioned_once).2
      = (requests captioned_once
           ++ GetSubtitles "abc" true :: GetSubtitles "abc" true :: rest)%list.
Proof.
  assert (Hpref : sourceCache captioned_once !! "abc" = Some youtube)
    by (vm_compute; reflexivity).
  assert (Hstale : captionsUsable world_uncaptioned (requests captioned_once)
                     "abc" = false) by (vm_compute; reflexivity).
  split; [exact Hpref |]. split; [exact Hstale |].
  exact (stale_caption_hint_asks_twice
           world_uncaptioned web "abc" captioned_once Hpref Hstale).
Defined.

(** On the web build a transcription never touches the file system: no
    download, no file check, no deletion. *)
Theorem web_transcription_touches_no_file
        (W : World) (videoId : string) (st : State) :
  exists evs,
    requests (transcribeWithWhisper W web videoId st).2
    = (requests st ++ evs)%list
    /\ Forall (fun r => touchesFile r = false) evs.
Proof.
  cut (frame (fun r => touchesFile r = false) (fun _ => True)
             (transcribeWithWhisper W web videoId)).
  { intros H. destruct (H st) as (evs & Hreq & HE & _). eauto. }
  unfold transcribeWithWhisper.
  apply frame_try; [| intros e; apply frame_throw].
  eapply frame_bind with (Q := fun _ => True).
  - intros st0. rewrite getWhisperFromCache_spec. eexists [_]. cbn.
    repeat split; repeat constructor.
  - intros [r |] _; [now apply frame_ret |].
    eapply frame_bind with (Q := fun _ => True).
    { unfold extractAudio.
      apply frame_try; [| intros e; apply frame_throw].
      eapply frame_bind with (Q := fun _ => True).
      - now apply frame_await.
      - intros [audioUrl |] _; [| apply frame_throw].
        destruct (String.eqb audioUrl ""); [apply frame_throw |].
        now apply frame_ret. }
    intros audioUri _.
    eapply frame_bind with (Q := fun _ => True); [now apply frame_ret |].
    intros _ _.
    eapply frame_bind with (Q := fun _ => True); [now apply frame_await |].
    intros response _.
    destruct (negb (ok response)).
    + eapply frame_bind with (Q := fun _ => True); [now apply frame_settle |].
      intros; apply frame_throw.
    + eapply frame_bind with (Q := fun _ => True); [now apply frame_settle |].
      intros data _.
      eapply frame_bind with (Q := fun _ => True); [now apply frame_ret |].
      intros; now apply frame_ret.
Qed.

(** On a device the downloaded audio file is deleted only once the
    transcription has succeeded.  A transcript is returned only after the
    upload and the deletion of the file that was uploaded; when the
    transcription throws, either no deletion was requested, so that a file
    downloaded before the failure stays in the cache directory, or the
    deletion itself is what failed, and the transcript is lost with it. *)
Theorem native_audio_file_cleanup
        (W : World) (videoId : string) (st : State) :
  cacheHit W (requests st) videoId = None ->
  match transcribeWithWhisper W native videoId st with
  | (Returns _, st') =>
      exists pre audioUri,
        requests st'
        = (requests st
             ++ pre ++ [PostTranscribe videoId audioUri; Delete audioUri])%list
        /\ Forall (fun r => isDelete r = false) pre
  | (Throws _, st') =>
      exists evs,
        requests st' = (requests st ++ evs)%list
        /\ (Forall (fun r => isDelete r = false) evs
            \/ exists pre audioUri message,
                evs = (pre ++ [Delete audioUri])%list
                /\ Forall (fun r => isDelete r = false) pre
                /\ delete W (requests st ++ pre) audioUri = Rejects message)
  end.
Proof.
  intros Hmiss.
  unfold transcribeWithWhisper, try_catch at 1, mbind at 1, Async_bind at 1.
  rewrite getWhisperFromCache_spec, Hmiss. cbn [fmap option_fmap option_map].
  unfold extractAudio, try_catch, mbind, Async_bind, await, history, settle,
    throw, mret, Async_ret, sent.
  cbn [requests sourceCache].
  repeat (match goal with
          | |- context [match ?x with _ => _ end] =>
              lazymatch x with
              | context [match _ with _ => _ end] => fail
              | _ => destruct x eqn:?
              end
          end; cbv beta iota zeta; cbn [requests sourceCache]).
  all: rewrite <- ?app_assoc; cbn [app].
  all: try (eexists; split; [reflexivity | left; repeat constructor]; fail).
  - eexists [_; _; _; _; _], _. split; [reflexivity | repeat constructor].
  - eexists. split; [reflexivity |]. right.
    eexists [_; _; _; _; _; _], _, _. split; [reflexivity |].
    split; [repeat constructor |].
    match goal with
    | H : delete _ _ _ = Rejects _ |- _ =>
        rewrite <- ?app_assoc in H; cbn [app] in H; exact H
    end.
Qed.

Lemma native_audio_file_cleanup_witness :
  cacheHit world_uncaptioned (requests fresh) "abc" = None
  /\ exists pre audioUri,
      requests (transcribeWithWhisper world_uncaptioned native "abc" fresh).2
      = (requests fresh
           ++ pre ++ [PostTranscribe "abc" audioUri; Delete audioUri])%list
      /\ Forall (fun r => isDelete r = false) pre.
Proof.
  assert (Hmiss : cacheHit world_uncaptioned (requests fresh) "abc" = None)
    by (vm_compute; reflexivity).
  split; [exact Hmiss |].
  exact (native_audio_file_cleanup world_uncaptioned "abc" fresh Hmiss).
Defined.

End WhisperServiceFacts.

Module LoadTranscriptFacts.
Import Whisper WhisperVocabulary LoadTranscript.

(** Whatever made [getTranscriptData] throw, the screen reports a network
    failure: both messages the service throws contain 'connection', which
    the [catch] block tests before it tests for 'both youtube subtitles and
    whisper'.  The sentences on the screen stay as they were, and the alert
    is raised on a device only. *)
Theorem every_service_failure_reads_as_network_failure
        (W : World) (OS : PlatformOS) (videoId : string) (v : View)
        (st : State) (e : string) :
  (getTranscriptData W OS videoId st).1 = Throws e ->
  let v' := (loadTranscript W OS videoId v st).1 in
  transcriptError v' = Some networkMessage
  /\ sentences v' = sentences v
  /\ loading v' = false
  /\ alert v' = match OS with web => alert v | native => Some networkMessage end.
Proof.
  intros Hrun v'. subst v'.
  pose proof (WhisperServiceFacts.getTranscriptData_outcome W OS videoId st) as H.
  unfold loadTranscript.
  destruct (getTranscriptData W OS videoId st) as [[r | e'] st'];
    cbn [fst] in Hrun, H; [discriminate |].
  unfold failed. cbn [fst transcriptError sentences loading alert].
  destruct H as [-> | ->];
    (replace (userMessageOf _) with networkMessage by (vm_compute; reflexivity));
    now destruct OS.
Qed.

Lemma every_service_failure_reads_as_network_failure_witness :
  (getTranscriptData world_offline native "abc" fresh).1 = Throws networkError
  /\ transcriptError (loadTranscript world_offline native "abc" initial fresh).1
     = Some networkMessage.
Proof.
  assert (Hrun : (getTranscriptData world_offline native "abc" fresh).1
                 = Throws networkError) by (vm_compute; reflexivity).
  split; [exact Hrun |].
  exact (proj1 (every_service_failure_reads_as_network_failure
                  world_offline native "abc" initial fresh networkError Hrun)).
Defined.

(** Of the five texts of the [catch] block, [loadTranscript] can show two:
    the network failure, and the default text when a transcription comes
    back without sentences.  The texts about missing subtitles, about an
    inaccessible video and about the failed audio extraction are never
    shown.  A transcript is put on the screen exactly when it has
    sentences; an empty one only ever comes from the transcription. *)
Theorem loadTranscript_shows_two_messages
        (W : World) (OS : PlatformOS) (videoId : string) (v : View)
        (st : State) :
  let v' := (loadTranscript W OS videoId v st).1 in
  loading v' = false
  /\ match (getTranscriptData W OS videoId st).1 with
     | Returns r =>
         if usable r
         then sentences v' = practiceSentence <$> Whisper.sentences r
              /\ sentences v' <> []
              /\ transcriptError v' = transcriptError v
              /\ historySource v' = Some (source r)
         else source r = whisper
              /\ transcriptError v' = Some defaultMessage
              /\ sentences v' = sentences v
              /\ historySource v' = historySource v
     | Throws _ =>
         transcriptError v' = Some networkMessage
         /\ historySource v' = historySource v
     end.
Proof.
  intros v'. subst v'.
  pose proof (WhisperServiceFacts.getTranscriptData_outcome W OS videoId st) as H.
  unfold loadTranscript.
  destruct (getTranscriptData W OS videoId st) as [[r | e'] st'];
    cbn [fst] in H |- *.
  - destruct (usable r) eqn:Hus; cbn [fst]; (split; [reflexivity |]).
    + repeat split. cbn [sentences]. unfold usable in Hus.
      apply andb_true_iff in Hus as [_ Hlen]. apply Z.ltb_lt in Hlen.
      destruct (Whisper.sentences r); [cbn in Hlen; lia | discriminate].
    + destruct H as (_ & Hy). repeat split.
      destruct (source r); [| reflexivity].
      specialize (Hy eq_refl). congruence.
  - split; [reflexivity |]. unfold failed. cbn [transcriptError historySource].
    destruct H as [-> | ->];
      (replace (userMessageOf _) with networkMessage by (vm_compute; reflexivity));
      now split.
Qed.

End LoadTranscriptFacts.

Module EncoderFacts.
Import Base64 Base64Facts.

Lemma sextet_char (g k : Z) :
  exists c, sextet g k = String c ""
            /\ exists j, (j < 64)%nat /\ String.get j chars = Some c.
Proof.
  unfold sextet.
  assert (Hr : 0 <= (g / 64 ^ (3 - k)) mod 64 < 64) by (apply Z.mod_pos_bound; lia).
  remember ((g / 64 ^ (3 - k)) mod 64) as m eqn:Hm. clear Hm.
  assert (Hcases : exists i : nat, (i < 64)%nat /\ m = Z.of_nat i)
    by (exists (Z.to_nat m); lia).
  destruct Hcases as (i & Hi & ->).
  do 64 (destruct i as [| i];
         [match goal with
          | |- context [charAt chars (Z.of_nat ?n)] =>
              eexists; split; [reflexivity |];
              exists n; split; [lia | reflexivity]
          end |]).
  lia.
Qed.

Lemma group_chars (g : Z) (rest : string) :
  exists c0 c1 c2 c3,
    (sextet g 0 +:+ sextet g 1 +:+ sextet g 2 +:+ sextet g 3) +:+ rest
    = String c0 (String c1 (String c2 (String c3 rest)))
    /\ Forall (fun c => exists j, (j < 64)%nat /\ String.get j chars = Some c)
              [c0; c1; c2; c3].
Proof.
  destruct (sextet_char g 0) as (c0 & -> & H0).
  destruct (sextet_char g 1) as (c1 & -> & H1).
  destruct (sextet_char g 2) as (c2 & -> & H2).
  destruct (sextet_char g 3) as (c3 & -> & H3).
  exists c0, c1, c2, c3. split; [reflexivity | repeat constructor; assumption].
Qed.

Lemma unpadded_encode_shape (bs : list byte) :
  String.length (unpadded_encode bs) = (4 * ((length bs + 2) / 3))%nat
  /\ forall k c, String.get k (unpadded_encode bs) = Some c ->
                 exists j, (j < 64)%nat /\ String.get j chars = Some c.
Proof.
  induction bs as [| a | a b | a b c rest IH] using list_ind3.
  - split; [reflexivity | intros k c Hk; destruct k; discriminate Hk].
  - cbn [unpadded_encode]. cbv zeta.
    destruct (group_chars (group24 a x00 x00) "") as (c0 & c1 & c2 & c3 & Heq & Hall).
    rewrite string_app_empty_r in Heq. rewrite Heq.
    split; [reflexivity |].
    intros k c Hk.
    do 4 (destruct k as [| k];
          [injection Hk as <-;
           repeat (apply Forall_cons in Hall as [? Hall]); assumption |]).
    discriminate Hk.
  - cbn [unpadded_encode]. cbv zeta.
    destruct (group_chars (group24 a b x00) "") as (c0 & c1 & c2 & c3 & Heq & Hall).
    rewrite string_app_empty_r in Heq. rewrite Heq.
    split; [reflexivity |].
    intros k c Hk.
    do 4 (destruct k as [| k];
          [injection Hk as <-;
           repeat (apply Forall_cons in Hall as [? Hall]); assumption |]).
    discriminate Hk.
  - cbn [unpadded_encode]. cbv zeta.
    destruct (group_chars (group24 a b c) (unpadded_encode rest))
      as (c0 & c1 & c2 & c3 & -> & Hall).
    destruct IH as (IHlen & IHget). split.
    + cbn [String.length length]. rewrite IHlen.
      replace (S (S (S (length rest))) + 2)%nat
        with (length rest + 2 + 1 * 3)%nat by lia.
      rewrite Nat.div_add by lia. lia.
    + intros k ch Hk.
      do 4 (destruct k as [| k];
            [injection Hk as <-;
             repeat (apply Forall_cons in Hall as [? Hall]); assumption |]).
      cbn [String.get] in Hk. eapply IHget, Hk.
Qed.

(** The encoder writes four characters for every started group of three
    bytes, and every character is one of the 64 of its alphabet: a padding
    character is never written. *)
Theorem arrayBufferToBase64_shape (buffer : list byte) :
  String.length (arrayBufferToBase64 buffer)
  = (4 * ((length buffer + 2) / 3))%nat
  /\ forall k c, String.get k (arrayBufferToBase64 buffer) = Some c ->
                 c <> "="%char
                 /\ exists j, (j < 64)%nat /\ String.get j chars = Some c.
Proof.
  rewrite arrayBufferToBase64_closed_form.
  destruct (unpadded_encode_shape buffer) as (Hlen & Hget).
  split; [exact Hlen |]. intros k c Hk.
  destruct (Hget k c Hk) as (j & Hj & Hc). split; [| eauto].
  intros ->. revert Hc.
  do 64 (destruct j as [| j]; [discriminate |]). lia.
Qed.

(** The encoder agrees with RFC 4648, and so with [btoa], exactly on the
    buffers whose length is a multiple of three. *)
Theorem arrayBufferToBase64_is_rfc4648_iff_whole_groups (buffer : list byte) :
  arrayBufferToBase64 buffer = rfc4648_encode buffer
  <-> Z.of_nat (length buffer) mod 3 = 0.
Proof.
  split.
  - intros Heq. destruct (Z.eq_dec (Z.of_nat (length buffer) mod 3) 0) as [H0 | Hne];
      [exact H0 |].
    now apply arrayBufferToBase64_partial_group in Hne.
  - apply arrayBufferToBase64_whole_groups.
Qed.

End EncoderFacts.

Module DetectorFacts.
Import Practice AudioPlayer AudioPlayerFacts.

Lemma filter_handle_cleared (h : nat) (ts : list (Timers.Timer Task)) :
  filter (fun t => Timers.handle t = h)
         (filter (fun t => Timers.handle t <> h) ts) = [].
Proof.
  induction ts as [| t ts IH]; [reflexivity |].
  rewrite (filter_cons (fun t => Timers.handle t <> h)).
  destruct (decide (Timers.handle t <> h)) as [Hne | Heq]; [| exact IH].
  rewrite filter_cons. destruct (decide (Timers.handle t = h)); [contradiction | exact IH].
Qed.

Lemma intervalTask_ref (s : PS) (h : nat) (t : Task) :
  intervalTask s = Some (h, t) -> vadIntervalRef (snd s) = Some h.
Proof.
  unfold intervalTask. destruct (vadIntervalRef (snd s)) as [h' |]; [| discriminate].
  destruct (filter _ _); [discriminate |]. now intros [= -> _].
Qed.

(** The Silence tick that reaches the threshold. *)
Lemma vadTick_silence_stop (f : Frame) (h : nat) (silenceCount speechCount : Z)
      (s : PS) :
  intervalTask s = Some (h, VadTick true silenceCount speechCount) ->
  analyserRef (snd s) <> None ->
  isSpeech f = false ->
  silenceThreshold <= silenceCount + 1 ->
  let s' := fst (vadTick f h true silenceCount speechCount s) in
  intervalTask s' = None
  /\ vadIntervalRef (snd s') = None
  /\ analyserRef (snd s') = None
  /\ onSilenceDetectedRef (snd s') = None
  /\ filter (fun t => Timers.handle t = h) (Timers.pending (fst s')) = [].
Proof.
  intros Harmed Han Hsp Hge.
  pose proof (intervalTask_ref s h _ Harmed) as Href.
  unfold vadTick. destruct s as [l p]. cbn [snd] in *.
  destruct (analyserRef p); [| congruence]. rewrite Hsp. cbn [negb].
  replace (silenceThreshold <=? silenceCount + 1) with true
    by (symmetry; apply Z.leb_le; exact Hge).
  cbn [stopVoiceActivityDetection fst snd vadIntervalRef analyserRef
       onSilenceDetectedRef].
  rewrite Href. unfold intervalTask. cbn.
  repeat split. apply filter_handle_cleared.
Qed.

Lemma ticks_stopped (frames : list Frame) (s : PS) :
  intervalTask s = None -> ticks frames s = (s, []).
Proof. intros H. destruct frames; cbn [ticks]; [| rewrite H]; reflexivity. Qed.

Lemma silence_run (frames : list Frame) :
  forall (s : PS) (h : nat) (silenceCount speechCount : Z),
    intervalTask s = Some (h, VadTick true silenceCount speechCount) ->
    analyserRef (snd s) <> None ->
    Forall (fun f => isSpeech f = false) frames ->
    frames <> [] ->
    let n := Z.of_nat (length frames) in
    let after := fst (ticks frames s) in
    (silenceCount + n < silenceThreshold ->
     intervalTask after = Some (h, VadTick true (silenceCount + n) 0)
     /\ snd after = snd s)
    /\ (silenceCount < silenceThreshold <= silenceCount + n ->
        intervalTask after = None
        /\ vadIntervalRef (snd after) = None
        /\ analyserRef (snd after) = None
        /\ onSilenceDetectedRef (snd after) = None
        /\ filter (fun t => Timers.handle t = h)
                  (Timers.pending (fst after)) = []).
Proof.
  induction frames as [| f frames IH];
    intros s h silenceCount speechCount Harmed Han Hall Hne n after;
    [congruence |].
  inversion Hall as [| ? ? Hf Hrest]; subst.
  subst after. cbn [ticks]. rewrite Harmed.
  pose proof (vadTick_invokes_nothing f h true silenceCount speechCount s) as Hnone.
  destruct (Z_lt_le_dec (silenceCount + 1) silenceThreshold) as [Hlt | Hge].
  - destruct (vadTick_silence f h silenceCount speechCount s Harmed Han Hf Hlt)
      as (Harmed' & Hp').
    destruct (vadTick f h true silenceCount speechCount s) as [s1 fired].
    cbn [fst snd] in *. subst fired.
    assert (Han' : analyserRef (snd s1) <> None) by now rewrite Hp'.
    destruct frames as [| f' frames'].
    + cbn [ticks fst]. subst n. cbn [length].
      split; [intros _; now split | intros Hstop; lia].
    + specialize (IH s1 h _ _ Harmed' Han' Hrest ltac:(discriminate)).
      cbv zeta in IH. destruct IH as (IHlt & IHstop).
      destruct (ticks (f' :: frames') s1) as [s2 later]. cbn [fst] in *.
      subst n.
      replace (silenceCount + Z.of_nat (length (f :: f' :: frames')))
        with (silenceCount + 1 + Z.of_nat (length (f' :: frames')))
        by (cbn [length]; lia).
      split.
      * intros Hn. destruct (IHlt Hn) as (-> & ->). now split.
      * intros Hstop. apply IHstop. lia.
  - destruct (vadTick_silence_stop f h silenceCount speechCount s Harmed Han Hf Hge)
      as (Hnot & Hstop).
    destruct (vadTick f h true silenceCount speechCount s) as [s1 fired].
    cbn [fst snd] in *. subst fired.
    rewrite (ticks_stopped frames s1 Hnot). cbn [fst]. subst n.
    split; [| intros _; now split].
    intros Hn. cbn [length] in Hn. lia.
Qed.

(** A run of Silence ticks on a sampling detector: below the threshold the
    interval stays pending and [silenceCount] grows by one per tick, with
    [speechCount] back at 0; the tick that brings it to [silenceThreshold]
    (8) clears the interval and empties the refs of the detector, and the
    ticks after it find nothing to run.  No tick of the run invokes a
    callback. *)
Theorem silence_run_stops_sampling_at_threshold
        (frames : list Frame) (s : PS) (h : nat)
        (silenceCount speechCount : Z) :
  intervalTask s = Some (h, VadTick true silenceCount speechCount) ->
  analyserRef (snd s) <> None ->
  Forall (fun f => isSpeech f = false) frames ->
  frames <> [] ->
  let n := Z.of_nat (length frames) in
  let after := fst (ticks frames s) in
  (silenceCount + n < silenceThreshold ->
   counters after = Some (silenceCount + n, 0) /\ snd after = snd s)
  /\ (silenceCount < silenceThreshold <= silenceCount + n ->
      counters after = None
      /\ vadIntervalRef (snd after) = None
      /\ analyserRef (snd after) = None
      /\ onSilenceDetectedRef (snd after) = None
      /\ filter (fun t => Timers.handle t = h)
                (Timers.pending (fst after)) = [])
  /\ snd (ticks frames s) = [].
Proof.
  intros Harmed Han Hall Hne n after.
  destruct (silence_run frames s h silenceCount speechCount Harmed Han Hall Hne)
    as (Hlt & Hstop).
  split; [| split].
  - intros Hn. destruct (Hlt Hn) as (Ht & Hp). split; [| exact Hp].
    unfold counters. subst after. now rewrite Ht.
  - intros Hn. destruct (Hstop Hn) as (Ht & Hrest). split; [| exact Hrest].
    unfold counters. subst after. now rewrite Ht.
  - apply ticks_invoke_nothing.
Qed.

Lemma silence_run_stops_sampling_at_threshold_witness :
  intervalTask Scenarios.fiveSilent = Some (1%nat, VadTick true 5 0)
  /\ counters (fst (ticks (repeat Scenarios.silentFrame 2) Scenarios.fiveSilent))
     = Some (7, 0)
  /\ counters (fst (ticks (repeat Scenarios.silentFrame 3) Scenarios.fiveSilent))
     = None.
Proof.
  assert (Harmed : intervalTask Scenarios.fiveSilent
                   = Some (1%nat, VadTick true 5 0))
    by (vm_compute; reflexivity).
  assert (Han : analyserRef (snd Scenarios.fiveSilent) <> None)
    by (vm_compute; discriminate).
  assert (Hall : forall n, Forall (fun f => isSpeech f = false)
                             (repeat Scenarios.silentFrame n)).
  { intros n. induction n; cbn [repeat]; constructor;
      [vm_compute; reflexivity | assumption]. }
  split; [exact Harmed |]. split.
  - apply (silence_run_stops_sampling_at_threshold
             (repeat Scenarios.silentFrame 2) Scenarios.fiveSilent 1 5 0
             Harmed Han (Hall 2%nat) ltac:(discriminate)).
    vm_compute. reflexivity.
  - apply (silence_run_stops_sampling_at_threshold
             (repeat Scenarios.silentFrame 3) Scenarios.fiveSilent 1 5 0
             Harmed Han (Hall 3%nat) ltac:(discriminate)).
    vm_compute. split; [reflexivity | discriminate].
Defined.

(** A frame without samples, or with no frequency bin in the speech band
    (13 bins or fewer), is Silence: the mean over no samples is [NaN], which
    is above no threshold, and the energy of an empty band is 0. *)
Theorem degenerate_frame_is_silence (f : Frame) :
  dataArray f = [] \/ (length (frequencyData f) <= speechStartBin)%nat ->
  isSpeech f = false.
Proof.
  unfold isSpeech. intros [Hnone | Hshort].
  - rewrite Hnone. reflexivity.
  - unfold speechEnergyOf. rewrite drop_ge by exact Hshort.
    apply andb_false_r.
Qed.

Lemma degenerate_frame_is_silence_witness :
  (dataArray {| dataArray := []; frequencyData := repeat "200"%byte 1024 |} = []
   \/ (length (frequencyData {| dataArray := [];
                                frequencyData := repeat "200"%byte 1024 |})
       <= speechStartBin)%nat)
  /\ isSpeech {| dataArray := []; frequencyData := repeat "200"%byte 1024 |}
     = false.
Proof.
  assert (H : dataArray {| dataArray := [];
                           frequencyData := repeat "200"%byte 1024 |} = []
              \/ (length (frequencyData
                            {| dataArray := [];
                               frequencyData := repeat "200"%byte 1024 |})
                  <= speechStartBin)%nat) by (left; reflexivity).
  split; [exact H |].
  exact (degenerate_frame_is_silence _ H).
Defined.

(** [pause] on the web tears the detector down: the audio is paused where it
    is, the refs of the detector, with the callback, are emptied, and the
    timers that leave the queue are exactly the ones [vadIntervalRef] and
    [endCheckInterval] held.  On a device the queue is not touched.  On both
    platforms a second [pause] changes nothing. *)
Theorem pause_tears_down_and_is_idempotent (E : Env) (s : PS) :
  let s' := pause E s in
  pause E s' = s'
  /\ forall a, audioRef (snd s) = Some a ->
       isPlaying (snd s') = false
       /\ audioRef (snd s')
          = Some {| paused := true;
                    positionMs := currentTimeMs a (Timers.now (fst s));
                    since := Timers.now (fst s) |}
       /\ (OS E = native -> fst s' = fst s)
       /\ (OS E = web ->
           vadIntervalRef (snd s') = None
           /\ analyserRef (snd s') = None
           /\ onSilenceDetectedRef (snd s') = None
           /\ endCheckInterval (snd s') = None
           /\ sentenceEndTime (snd s') = None
           /\ Timers.now (fst s') = Timers.now (fst s)
           /\ Timers.nextHandle (fst s') = Timers.nextHandle (fst s)
           /\ forall t, t ∈ Timers.pending (fst s') <->
                t ∈ Timers.pending (fst s)
                /\ vadIntervalRef (snd s) <> Some (Timers.handle t)
                /\ endCheckInterval (snd s) <> Some (Timers.handle t)).
Proof.
  destruct s as [l p]. cbv zeta. cbn [fst snd].
  destruct p as [pl se ar ac anr vi onr ec att]. cbn [audioRef].
  destruct ar as [a |]; [| split; [reflexivity | discriminate]].
  destruct E as [os g an pr]. cbn [OS]. destruct os.
  - unfold pause. cbn -[filter Z.add].
    assert (Hnow : forall r (l0 : Timers.Loop Task),
               Timers.now (Timers.clearRef r l0) = Timers.now l0)
      by (intros [h |] l0; reflexivity).
    assert (Hnext : forall r (l0 : Timers.Loop Task),
               Timers.nextHandle (Timers.clearRef r l0) = Timers.nextHandle l0)
      by (intros [h |] l0; reflexivity).
    split.
    + rewrite !Hnow. unfold audio_pause, currentTimeMs. cbn.
      now rewrite Z.add_0_r.
    + intros a0 [= <-]. split; [reflexivity |]. split; [reflexivity |].
      split; [discriminate |].
      intros _. repeat (split; [reflexivity |]).
      split; [now rewrite !Hnow |]. split; [now rewrite !Hnext |].
      intros t.
      destruct vi as [h1 |], ec as [h2 |];
        cbn [Timers.clearRef Timers.clearTimer Timers.pending];
        rewrite ?list_elem_of_filter; split.
      all: try (intros (H2 & H1 & Hin)); try (intros (H1 & Hin));
        try (intros (Hin & H1 & H2)); try intros Hin;
        repeat split; try assumption; try discriminate; congruence.
  - unfold pause. cbn -[Z.add].
    split.
    + unfold audio_pause, currentTimeMs. cbn. now rewrite Z.add_0_r.
    + intros a0 [= <-]. split; [reflexivity |]. split; [reflexivity |].
      split; [reflexivity | discriminate].
Qed.

End DetectorFacts.

Module PlaybackFacts.
Import Practice Screen Handlers ScreenFacts.

Lemma autoAdvance_flag (b : bool) (sentence : PracticeSentence) (cl : Closure)
      (a : App) :
  autoAdvance sentence cl (on_screen (setIsAutoPlay b) a)
  = on_screen (setIsAutoPlay b) (autoAdvance sentence cl a).
Proof.
  unfold autoAdvance. destruct (Practice.isAutoPlay cl); [| reflexivity].
  destruct (_ <? _); [| reflexivity].
  destruct (at_ _ _); reflexivity.
Qed.

Lemma playSentenceOnly_flag (b : bool) (sentence : PracticeSentence)
      (cl : Closure) (a : App) :
  playSentenceOnly sentence cl (on_screen (setIsAutoPlay b) a)
  = on_screen (setIsAutoPlay b) (playSentenceOnly sentence cl a).
Proof.
  unfold playSentenceOnly.
  cbn [on_screen with_screen screen setIsAutoPlay audioPlayerRef].
  destruct (audioPlayerRef (screen a)); [| reflexivity]. cbn [negb].
  cbn [on_screen with_screen with_ps with_loop screen env loop player ps
       setIsAutoPlay setIsPlaying setCurrentSentence fired].
  destruct (AudioPlayer.OS (env a)); [reflexivity |].
  cbn [on_screen with_screen with_ps with_loop screen env loop player ps
       setIsAutoPlay setIsPlaying setCurrentSentence fired fst snd].
  destruct (Timers.setTimeout _ _ _) as [stopTimer l]. reflexivity.
Qed.

Lemma onSilenceDetected_flag (b : bool) (sentence : PracticeSentence)
      (cl : Closure) (a : App) :
  onSilenceDetected sentence cl (on_screen (setIsAutoPlay b) a)
  = on_screen (setIsAutoPlay b) (onSilenceDetected sentence cl a).
Proof.
  unfold onSilenceDetected.
  cbn [on_screen with_screen screen env loop player fired].
  rewrite <- autoAdvance_flag. reflexivity.
Qed.

(** Playback follows the [isAutoPlay] of the render that started it, not the
    current one: whatever a timer does, it does the same when the flag on
    the screen has been changed in the meantime, and it leaves that flag as
    it finds it.  Turning auto-play off does not stop a chain of sentences
    that was started with auto-play on, nor does turning it on make a
    running sentence advance. *)
Theorem timers_ignore_current_auto_play_flag
        (b : bool) (t : Timers.Timer Task) (a : App) :
  run t (on_screen (setIsAutoPlay b) a) = on_screen (setIsAutoPlay b) (run t a).
Proof.
  unfold run. destruct (Timers.task t) as [s cl | s cl | ip sc spc | | e].
  - unfold stopSentence.
    cbn [on_screen with_screen screen setIsAutoPlay audioPlayerRef].
    destruct (audioPlayerRef (screen a)); [| reflexivity].
    rewrite <- autoAdvance_flag. reflexivity.
  - apply playSentenceOnly_flag.
  - cbn [on_screen with_screen env loop ps player].
    destruct (AudioPlayer.vadTick _ _ _ _ _ _) as [s [[sentence cl] |]];
      cbn [invoke]; [| reflexivity].
    rewrite <- onSilenceDetected_flag. reflexivity.
  - unfold AudioPlayer.vadFallback.
    cbn [on_screen with_screen env loop ps player snd].
    destruct (AudioPlayer.onSilenceDetectedRef (player a)) as [[sentence cl] |];
      cbn [invoke]; [| reflexivity].
    rewrite <- onSilenceDetected_flag. reflexivity.
  - reflexivity.
Qed.

(** *** [currentSentenceIndex] *)

Lemma playSentenceOnly_index (sentence : PracticeSentence) (cl : Closure)
      (a : App) :
  currentSentenceIndex (screen (playSentenceOnly sentence cl a))
  = currentSentenceIndex (screen a).
Proof.
  unfold playSentenceOnly. destruct (negb (audioPlayerRef (screen a))); [reflexivity |].
  cbn [on_screen with_screen screen env with_ps].
  destruct (AudioPlayer.OS (env a)); [reflexivity |].
  cbn [on_screen with_screen screen env with_ps with_loop loop].
  destruct (Timers.setTimeout _ _ _). reflexivity.
Qed.

Lemma run_index (t : Timers.Timer Task) (a : App) :
  currentSentenceIndex (screen (run t a)) = currentSentenceIndex (screen a).
Proof.
  unfold run. destruct (Timers.task t) as [s cl | s cl | ip sc spc | | e].
  - unfold stopSentence. destruct (audioPlayerRef (screen a)); [| reflexivity].
    now rewrite (proj1 (autoAdvance_screen _ _ _)).
  - apply playSentenceOnly_index.
  - destruct (AudioPlayer.vadTick _ _ _ _ _ _) as [s [[sentence cl] |]];
      cbn [invoke]; [| reflexivity].
    unfold onSilenceDetected. now rewrite (proj1 (autoAdvance_screen _ _ _)).
  - unfold AudioPlayer.vadFallback. cbn [invoke snd ps].
    destruct (AudioPlayer.onSilenceDetectedRef (player a)) as [[sentence cl] |];
      cbn [invoke]; [| reflexivity].
    unfold onSilenceDetected. now rewrite (proj1 (autoAdvance_screen _ _ _)).
  - reflexivity.
Qed.

Lemma toggleGlobalPlayback_index (a : App) :
  currentSentenceIndex (screen (toggleGlobalPlayback a))
  = currentSentenceIndex (screen a).
Proof.
  unfold toggleGlobalPlayback.
  destruct (isGlobalPlaying (screen a)).
  - unfold pauseAll.
    destruct (isTTSPlaying (screen a)); cbn [on_screen with_screen screen
      TTSService_stop setIsTTSPlaying set_speaking isAudioPlaying audioPlayerRef];
      destruct (isAudioPlaying (screen a) && audioPlayerRef (screen a));
      cbn [on_screen with_screen with_ps screen setIsAudioPlaying isAutoPlay];
      destruct (isAutoPlay _); cbn [on_screen with_screen screen];
      destruct (sentenceTimerRef _); reflexivity.
  - unfold playCurrent. destruct (at_ _ _) as [current |]; [| reflexivity].
    cbn [on_screen with_screen screen setIsGlobalPlaying playbackMode].
    destruct (playbackMode (screen a)) as [[] |];
      rewrite ?playSentenceOnly_index; reflexivity.
Qed.

Lemma steps_reachable (n : nat) (a0 a : App) :
  reachable a0 a -> reachable a0 (steps n a).
Proof.
  revert a. induction n as [| n IH]; intros a Hreach; [exact Hreach |].
  cbn [steps]. destruct (step a) as [a' |] eqn:Hstep; [| exact Hreach].
  apply IH. eapply reach_step; eassumption.
Qed.

(** Playing never moves the current sentence: through global Play and
    Pause, sentence playback and every timer, auto-advance included,
    [currentSentenceIndex] stays what it was. *)
Theorem playback_keeps_currentSentenceIndex (a0 a : App) :
  reachable a0 a ->
  currentSentenceIndex (screen a) = currentSentenceIndex (screen a0).
Proof.
  intros Hreach. induction Hreach as [| a _ IH | a s _ IH | a a' _ IH Hstep].
  - reflexivity.
  - now rewrite toggleGlobalPlayback_index.
  - now rewrite playSentenceOnly_index.
  - unfold step in Hstep. destruct (Timers.next (loop a)) as [[t l] |];
      [| discriminate].
    injection Hstep as <-. now rewrite run_index.
Qed.

Lemma playback_keeps_currentSentenceIndex_witness :
  reachable (Scenarios.loaded Scenarios.phone true)
            (steps 2 (toggleGlobalPlayback (Scenarios.loaded Scenarios.phone true)))
  /\ Timers.task
       <$> Timers.pending
             (loop (steps 2 (toggleGlobalPlayback
                               (Scenarios.loaded Scenarios.phone true))))
     = [StopSentence Scenarios.sentence_13_15
          (closure (Scenarios.loaded Scenarios.phone true))]
  /\ currentSentenceIndex
       (screen (steps 2 (toggleGlobalPlayback
                           (Scenarios.loaded Scenarios.phone true))))
     = 0.
Proof.
  assert (Hreach : reachable (Scenarios.loaded Scenarios.phone true)
                     (steps 2 (toggleGlobalPlayback
                                 (Scenarios.loaded Scenarios.phone true)))).
  { apply steps_reachable, reach_toggle, reach_start. }
  split; [exact Hreach |]. split; [vm_compute; reflexivity |].
  exact (playback_keeps_currentSentenceIndex _ _ Hreach).
Defined.

(** *** Auto-advance *)

Lemma findIndex_first (start0 : Z) (ss : list PracticeSentence) :
  forall (i : nat) (k : Z) (s : PracticeSentence),
    nth_error ss i = Some s -> start s = start0 ->
    (forall j s', (j < i)%nat -> nth_error ss j = Some s' -> start s' <> start0) ->
    findIndex start0 ss k = k + Z.of_nat i.
Proof.
  induction ss as [| x ss IH]; intros i k s Hi Hs Hbefore.
  - destruct i; discriminate Hi.
  - cbn [findIndex]. destruct i as [| i].
    + injection Hi as ->. rewrite Hs, Z.eqb_refl. lia.
    + destruct (start x =? start0) eqn:Hx.
      * apply Z.eqb_eq in Hx. exfalso.
        apply (Hbefore 0%nat x); [lia | reflexivity | exact Hx].
      * rewrite (IH i (k + 1) s); [lia | exact Hi | exact Hs |].
        intros j s' Hj Hs'. apply (Hbefore (S j) s'); [lia | exact Hs'].
Qed.

(** With auto-play on in its closure, the end of a sentence arms one timer,
    500 ms later, that plays the sentence following it in the list of that
    closure, and nothing after the last sentence.  The sentence is found by
    its start time: what follows is the successor of the first sentence
    that starts when it does. *)
Theorem auto_advance_plays_the_following_sentence
        (sentence : PracticeSentence) (cl : Closure) (a : App) (i : nat) :
  Practice.isAutoPlay cl = true ->
  nth_error (Practice.sentences cl) i = Some sentence ->
  (forall j s', (j < i)%nat -> nth_error (Practice.sentences cl) j = Some s' ->
                start s' <> start sentence) ->
  autoAdvance sentence cl a
  = match nth_error (Practice.sentences cl) (S i) with
    | Some next =>
        with_loop (snd (Timers.setTimeout (PlayNext next cl) 500 (loop a))) a
    | None => a
    end.
Proof.
  intros Hauto Hi Hfirst. unfold autoAdvance. rewrite Hauto.
  rewrite (findIndex_first (start sentence) _ i 0 sentence Hi eq_refl Hfirst).
  unfold at_. rewrite Z.add_0_l.
  replace (Z.of_nat i + 1 <? 0) with false by (symmetry; apply Z.ltb_ge; lia).
  replace (Z.to_nat (Z.of_nat i + 1)) with (S i) by lia.
  destruct (nth_error (Practice.sentences cl) (S i)) as [next |] eqn:Hnext.
  - assert (Hlt : (S i < length (Practice.sentences cl))%nat)
      by (apply nth_error_Some; congruence).
    replace (Z.of_nat i <? Z.of_nat (length (Practice.sentences cl)) - 1)
      with true by (symmetry; apply Z.ltb_lt; lia).
    reflexivity.
  - destruct (_ <? _); reflexivity.
Qed.

Lemma auto_advance_plays_the_following_sentence_witness :
  autoAdvance Scenarios.sentence_10_13
    (closure (Scenarios.loaded Scenarios.phone true))
    (Scenarios.loaded Scenarios.phone true)
  = with_loop
      (snd (Timers.setTimeout
              (PlayNext Scenarios.sentence_13_15
                 (closure (Scenarios.loaded Scenarios.phone true)))
              500 (loop (Scenarios.loaded Scenarios.phone true))))
      (Scenarios.loaded Scenarios.phone true).
Proof.
  apply (auto_advance_plays_the_following_sentence
           Scenarios.sentence_10_13
           (closure (Scenarios.loaded Scenarios.phone true))
           (Scenarios.loaded Scenarios.phone true) 0 eq_refl eq_refl).
  intros j s' Hj. lia.
Defined.

(** *** The Auto button *)

(** The Auto button never starts playback.  Pressed while auto-play is off,
    it turns the flag on, selects Original mode if no mode is selected, and
    runs [startAutoPlay] from the render in which the flag is still off,
    which only resets [isGlobalPlaying]: no timer is armed, the player and
    the timer queue are untouched.  Pressed while auto-play is on, it arms
    nothing either. *)
Theorem auto_button_starts_nothing (a : App) :
  snd (handleAutoPlay a) = None
  /\ (isAutoPlay (screen a) = false ->
      let a' := fst (handleAutoPlay a) in
      loop a' = loop a
      /\ player a' = player a
      /\ fired a' = fired a
      /\ isAutoPlay (screen a') = true
      /\ isGlobalPlaying (screen a') = false
      /\ isPlaying (screen a') = isPlaying (screen a)
      /\ currentSentenceIndex (screen a') = currentSentenceIndex (screen a)
      /\ playbackMode (screen a')
         = Some (default original (playbackMode (screen a)))).
Proof.
  unfold handleAutoPlay, startAutoPlay.
  destruct (isAutoPlay (screen a)) eqn:Hauto.
  - split; [reflexivity | discriminate].
  - cbn [negb orb]. split; [reflexivity |]. intros _.
    destruct (playbackMode (screen a)) eqn:Hmode;
      cbn [fst on_screen with_screen loop player fired screen isAutoPlay
           isGlobalPlaying isPlaying currentSentenceIndex playbackMode
           setIsGlobalPlaying setPlaybackMode setIsAutoPlay default];
      rewrite ?Hmode; repeat split.
Qed.

(** Pressed while auto-play is on, the Auto button stops for good what the
    global pause leaves running: the player is paused whatever
    [isAudioPlaying] says, the flags of the screen are reset, and the stop
    timer is cleared. *)
Theorem auto_button_stop_pauses_the_player (a : App) (au : AudioPlayer.Audio) :
  isAutoPlay (screen a) = true ->
  audioPlayerRef (screen a) = true ->
  AudioPlayer.audioRef (player a) = Some au ->
  let a' := fst (handleAutoPlay a) in
  AudioPlayer.audioRef (player a')
  = Some (AudioPlayer.audio_pause (Timers.now (loop a)) au)
  /\ AudioPlayer.isPlaying (player a') = false
  /\ isAutoPlay (screen a') = false
  /\ isGlobalPlaying (screen a') = false
  /\ isPlaying (screen a') = false
  /\ isTTSPlaying (screen a') = false
  /\ isAudioPlaying (screen a') = false
  /\ sentenceTimerRef (screen a') = None
  /\ forall t, t ∈ Timers.pending (loop a') ->
       t ∈ Timers.pending (loop a)
       /\ sentenceTimerRef (screen a) <> Some (Timers.handle t).
Proof.
  intros Hauto Href Hau a'. subst a'.
  destruct a as [[os g an pr] l p sc fi].
  destruct p as [pl se ar ac anr vi onr ec att].
  destruct sc as [ss idx ip iap iaud pm itts igp cs str apr sp].
  cbn in Hauto, Href, Hau. subst iap apr ar.
  destruct os, itts, str as [h |], vi as [h1 |], ec as [h2 |];
    cbn -[filter Z.add AudioPlayer.audio_pause];
    repeat (split; [reflexivity |]);
    intros t Hin;
    repeat (apply list_elem_of_filter in Hin as [? Hin]);
    (split; [assumption | first [discriminate | congruence]]).
Qed.

Lemma auto_button_stop_pauses_the_player_witness :
  let playing := toggleGlobalPlayback (Scenarios.loaded Scenarios.phone true) in
  isAutoPlay (screen playing) = true
  /\ AudioPlayer.paused <$> AudioPlayer.audioRef (player playing) = Some false
  /\ AudioPlayer.paused
       <$> AudioPlayer.audioRef (player (fst (handleAutoPlay playing)))
     = Some true
  /\ Timers.pending (loop (fst (handleAutoPlay playing))) = [].
Proof.
  cbv zeta.
  pose proof (auto_button_stop_pauses_the_player
                (toggleGlobalPlayback (Scenarios.loaded Scenarios.phone true))
                {| AudioPlayer.paused := false; AudioPlayer.positionMs := 10000;
                   AudioPlayer.since := 0 |}
                eq_refl eq_refl eq_refl) as H.
  cbv zeta in H. destruct H as (Hau & _).
  split; [reflexivity |]. split; [reflexivity |].
  split; [now rewrite Hau | vm_compute; reflexivity].
Defined.

(** *** A press on a sentence *)

(** A press on a sentence while something is playing only stops it: the
    player is paused, the current sentence stays, nothing is started.  The
    stop timer of the sentence that was playing is not cleared; on a device,
    where the pause of the player touches no timer, the whole queue is left
    as it was, so the stop timer still fires and, with auto-play on in its
    closure, still starts the next sentence. *)
Theorem press_while_playing_keeps_the_stop_timer (index : Z) (a : App) :
  isPlaying (screen a) || isTTSPlaying (screen a) = true ->
  let a' := fst (handleSentencePress index a) in
  snd (handleSentencePress index a) = false
  /\ currentSentenceIndex (screen a') = currentSentenceIndex (screen a)
  /\ sentenceTimerRef (screen a') = sentenceTimerRef (screen a)
  /\ isTTSPlaying (screen a') = false
  /\ speaking (screen a') = None
  /\ (audioPlayerRef (screen a) = true ->
      isPlaying (screen a') = false
      /\ (loop a', player a') = AudioPlayer.pause (env a) (ps a))
  /\ (AudioPlayer.OS (env a) = native -> loop a' = loop a).
Proof.
  intros Hplaying a'. subst a'. unfold handleSentencePress. rewrite Hplaying.
  destruct a as [E l p sc fi].
  cbn [on_screen with_screen with_ps screen env loop player ps fired fst snd
       TTSService_stop].
  destruct (audioPlayerRef sc) eqn:Href;
    cbn [on_screen with_screen with_ps screen env loop player ps fired fst snd
         setIsTTSPlaying set_speaking setIsPlaying currentSentenceIndex
         sentenceTimerRef isTTSPlaying speaking isPlaying].
  - repeat (split; [reflexivity |]). split.
    + intros _. split; [reflexivity |].
      now destruct (AudioPlayer.pause E _).
    + intros Hos. unfold AudioPlayer.pause, ps. cbn [loop player].
      rewrite Hos. now destruct (AudioPlayer.audioRef p).
  - repeat (split; [reflexivity |]). split; [discriminate | reflexivity].
Qed.

Lemma press_while_playing_keeps_the_stop_timer_witness :
  let playing := toggleGlobalPlayback (Scenarios.loaded Scenarios.phone true) in
  isPlaying (screen playing) || isTTSPlaying (screen playing) = true
  /\ Timers.task <$> Timers.pending (loop (fst (handleSentencePress 1 playing)))
     = [StopSentence Scenarios.sentence_10_13
          (closure (Scenarios.loaded Scenarios.phone true))]
  /\ currentSentenceIndex (screen (fst (handleSentencePress 1 playing))) = 0.
Proof.
  cbv zeta.
  pose proof (press_while_playing_keeps_the_stop_timer 1
                (toggleGlobalPlayback (Scenarios.loaded Scenarios.phone true))
                eq_refl) as H.
  cbv zeta in H. destruct H as (_ & Hidx & _ & _ & _ & _ & Hloop).
  split; [reflexivity |]. split.
  - rewrite (Hloop eq_refl). vm_compute. reflexivity.
  - rewrite Hidx. reflexivity.
Defined.

(** *** Timers that no ref holds *)

(** The global pause takes off the queue only timers held in a ref: the
    stop timer of [sentenceTimerRef] and, when it reaches the player, the
    two intervals of the detector.  Every other pending timer stays armed:
    the 500 ms delay of an auto-advance and the 5 second fallback of the
    detector fire after a global pause as if nothing had happened. *)
Theorem global_pause_clears_only_referenced_timers
        (t : Timers.Timer Task) (a : App) :
  t ∈ Timers.pending (loop a) ->
  sentenceTimerRef (screen a) <> Some (Timers.handle t) ->
  AudioPlayer.vadIntervalRef (player a) <> Some (Timers.handle t) ->
  AudioPlayer.endCheckInterval (player a) <> Some (Timers.handle t) ->
  t ∈ Timers.pending (loop (pauseAll a)).
Proof.
  intros Hin Hstop Hvad Hend.
  destruct a as [[os g an pr] l p sc fi].
  destruct p as [pl se ar ac anr vi onr ec att].
  destruct sc as [ss idx ip iap iaud pm itts igp cs str apr sp].
  cbn in Hin, Hstop, Hvad, Hend.
  unfold pauseAll.
  destruct itts, iaud, apr, iap, str as [h |], ar as [au |], os,
    vi as [h1 |], ec as [h2 |];
    cbn -[filter Z.add AudioPlayer.audio_pause];
    rewrite ?list_elem_of_filter;
    repeat split; try assumption; congruence.
Qed.

Lemma global_pause_clears_only_referenced_timers_witness :
  let advancing :=
    steps 1 (toggleGlobalPlayback (Scenarios.loaded Scenarios.phone true)) in
  Timers.task <$> Timers.pending (loop advancing)
  = [PlayNext Scenarios.sentence_13_15
       (closure (Scenarios.loaded Scenarios.phone true))]
  /\ isGlobalPlaying (screen advancing) = true
  /\ Timers.task <$> Timers.pending (loop (toggleGlobalPlayback advancing))
     = [PlayNext Scenarios.sentence_13_15
          (closure (Scenarios.loaded Scenarios.phone true))]
  /\ isAutoPlay (screen (toggleGlobalPlayback advancing)) = false
  /\ Timers.task
       <$> Timers.pending (loop (steps 1 (toggleGlobalPlayback advancing)))
     = [StopSentence Scenarios.sentence_13_15
          (closure (Scenarios.loaded Scenarios.phone true))].
Proof.
  cbv zeta.
  set (advancing :=
         steps 1 (toggleGlobalPlayback (Scenarios.loaded Scenarios.phone true))).
  set (t := {| Timers.handle := 2%nat; Timers.due := 3700;
               Timers.every := None;
               Timers.task :=
                 PlayNext Scenarios.sentence_13_15
                   (closure (Scenarios.loaded Scenarios.phone true)) |}).
  assert (Hpend : Timers.pending (loop advancing) = [t])
    by (vm_compute; reflexivity).
  assert (Hin : t ∈ Timers.pending (loop advancing))
    by (rewrite Hpend; left).
  pose proof (global_pause_clears_only_referenced_timers t advancing Hin
                ltac:(vm_compute; discriminate)
                ltac:(vm_compute; discriminate)
                ltac:(vm_compute; discriminate)) as Hkept.
  split; [vm_compute; reflexivity |]. split; [vm_compute; reflexivity |].
  split; [| split; vm_compute; reflexivity].
  assert (Hsub : Timers.pending (loop (pauseAll advancing)) = [t])
    by (vm_compute; reflexivity).
  change (toggleGlobalPlayback advancing) with (pauseAll advancing).
  rewrite Hsub. reflexivity.
Defined.

End PlaybackFacts.

Module DeviceFacts.
Import Practice Screen Handlers.

Lemma earliest_in (ts : list (Timers.Timer Task)) (t : Timers.Timer Task) :
  Timers.earliest ts = Some t -> t ∈ ts.
Proof.
  revert t. induction ts as [| x ts IH]; intros t; [discriminate |].
  cbn [Timers.earliest].
  destruct (Timers.earliest ts) as [t' |].
  - destruct (Timers.due t' <? Timers.due x); intros [= <-];
      [right; now apply IH | left].
  - intros [= <-]. left.
Qed.

Lemma NoDup_filter_handles (q : Timers.Timer Task -> Prop)
      `{forall t, Decision (q t)} (ts : list (Timers.Timer Task)) :
  NoDup (Timers.handle <$> ts) -> NoDup (Timers.handle <$> filter q ts).
Proof.
  induction ts as [| x ts IH]; intros Hnd; [constructor |].
  rewrite fmap_cons in Hnd. apply NoDup_cons in Hnd as [Hx Hnd].
  rewrite filter_cons. destruct (decide (q x)); [| now apply IH].
  rewrite fmap_cons. apply NoDup_cons. split; [| now apply IH].
  intros Hin. apply Hx.
  apply list_elem_of_fmap in Hin as (y & Hy & Hin).
  apply list_elem_of_filter in Hin as [_ Hin].
  apply list_elem_of_fmap. now exists y.
Qed.

(** A timer taken off the queue, with the clock moved or not. *)
Lemma wt_filter (l : Timers.Loop Task) (ref : option nat) (h : nat) (now' : Z) :
  wellTimedAt l ref ->
  wellTimedAt {| Timers.now := now'; Timers.nextHandle := Timers.nextHandle l;
                 Timers.pending :=
                   filter (fun t => Timers.handle t <> h) (Timers.pending l) |}
              ref.
Proof.
  intros [Htasks Href Hnd Hbelow Hrb].
  constructor; cbn [Timers.pending Timers.nextHandle].
  - intros t Hin. apply list_elem_of_filter in Hin as [_ Hin]. now apply Htasks.
  - intros t Hin. apply list_elem_of_filter in Hin as [_ Hin]. now apply Href.
  - now apply NoDup_filter_handles.
  - intros t Hin. apply list_elem_of_filter in Hin as [_ Hin]. now apply Hbelow.
  - exact Hrb.
Qed.

(** [clearTimeout(sentenceTimerRef.current); sentenceTimerRef.current = null] *)
Lemma wt_clear (l : Timers.Loop Task) (h : nat) :
  wellTimedAt l (Some h) -> wellTimedAt (Timers.clearTimer h l) None.
Proof.
  intros Hwt. pose proof (wt_filter l (Some h) h (Timers.now l) Hwt) as H.
  destruct H as [Htasks Href Hnd Hbelow Hrb].
  constructor; try assumption; [| discriminate].
  intros t Hin Htr. pose proof (Href t Hin Htr) as Heq.
  cbn [Timers.pending] in Hin. apply list_elem_of_filter in Hin as [Hne _].
  congruence.
Qed.

(** The 500 ms delay of an auto-advance. *)
Lemma wt_delay (l : Timers.Loop Task) (ref : option nat)
      (s : PracticeSentence) (cl : Closure) (delay : Z) :
  wellTimedAt l ref ->
  wellTimedAt (snd (Timers.setTimeout (PlayNext s cl) delay l)) ref.
Proof.
  intros [Htasks Href Hnd Hbelow Hrb].
  constructor; cbn [Timers.setTimeout Timers.schedule snd Timers.pending
                    Timers.nextHandle].
  - intros t Hin. apply elem_of_app in Hin as [Hin | Hin]; [now apply Htasks |].
    apply list_elem_of_singleton in Hin as ->. split; reflexivity.
  - intros t Hin Htr. apply elem_of_app in Hin as [Hin | Hin]; [now apply Href |].
    apply list_elem_of_singleton in Hin as ->. discriminate Htr.
  - rewrite fmap_app. apply NoDup_app. split; [exact Hnd |]. split.
    + intros x Hx Hnew. cbn in Hnew. apply list_elem_of_singleton in Hnew as ->.
      apply list_elem_of_fmap in Hx as (y & Hy & Hin).
      specialize (Hbelow y Hin). lia.
    + cbn. apply NoDup_singleton.
  - intros t Hin. apply elem_of_app in Hin as [Hin | Hin].
    + specialize (Hbelow t Hin). lia.
    + apply list_elem_of_singleton in Hin as ->. cbn. lia.
  - intros h Hh. specialize (Hrb h Hh). lia.
Qed.

(** The stop timer of [playSentenceOnly], armed before the previous one is
    cleared. *)
Lemma wt_stop_timer (l : Timers.Loop Task) (ref : option nat)
      (s : PracticeSentence) (cl : Closure) (delay : Z) :
  wellTimedAt l ref ->
  wellTimedAt
    (Timers.clearRef ref (snd (Timers.setTimeout (StopSentence s cl) delay l)))
    (Some (Timers.nextHandle l)).
Proof.
  intros [Htasks Href Hnd Hbelow Hrb].
  set (new := {| Timers.handle := Timers.nextHandle l;
                 Timers.due := Timers.now l + Z.max 0 delay;
                 Timers.every := None;
                 Timers.task := StopSentence s cl |}).
  assert (Hin_new : forall t,
             t ∈ Timers.pending
                   (Timers.clearRef ref
                      (snd (Timers.setTimeout (StopSentence s cl) delay l))) ->
             (t ∈ Timers.pending l /\ ref <> Some (Timers.handle t)) \/ t = new).
  { intros t Hin. destruct ref as [h |];
      cbn [Timers.clearRef Timers.clearTimer Timers.setTimeout Timers.schedule
           snd Timers.pending] in Hin.
    - apply list_elem_of_filter in Hin as [Hne Hin].
      apply elem_of_app in Hin as [Hin | Hin].
      + left. split; [exact Hin | congruence].
      + right. now apply list_elem_of_singleton in Hin.
    - apply elem_of_app in Hin as [Hin | Hin].
      + left. split; [exact Hin | discriminate].
      + right. now apply list_elem_of_singleton in Hin. }
  assert (Hnext : Timers.nextHandle
                    (Timers.clearRef ref
                       (snd (Timers.setTimeout (StopSentence s cl) delay l)))
                  = S (Timers.nextHandle l))
    by (destruct ref; reflexivity).
  constructor.
  - intros t Hin. destruct (Hin_new t Hin) as [[Hold _] | ->];
      [now apply Htasks | split; reflexivity].
  - intros t Hin Htr. destruct (Hin_new t Hin) as [[Hold Hne] | ->];
      [| reflexivity].
    exfalso. apply Hne. now apply Href.
  - assert (Hall : NoDup (Timers.handle
                           <$> Timers.pending
                                 (snd (Timers.setTimeout (StopSentence s cl)
                                         delay l)))).
    { cbn [Timers.setTimeout Timers.schedule snd Timers.pending].
      rewrite fmap_app. apply NoDup_app. split; [exact Hnd |]. split.
      + intros x Hx Hnew. cbn in Hnew. apply list_elem_of_singleton in Hnew as ->.
        apply list_elem_of_fmap in Hx as (y & Hy & Hin).
        specialize (Hbelow y Hin). lia.
      + cbn. apply NoDup_singleton. }
    destruct ref as [h |]; [| exact Hall].
    cbn [Timers.clearRef Timers.clearTimer Timers.pending].
    now apply NoDup_filter_handles.
  - intros t Hin. rewrite Hnext. destruct (Hin_new t Hin) as [[Hold _] | ->].
    + specialize (Hbelow t Hold). lia.
    + cbn. lia.
  - intros h [= <-]. rewrite Hnext. lia.
Qed.

(** At most one trigger is armed on a well-timed queue. *)
Lemma wt_one_trigger (l : Timers.Loop Task) (ref : option nat) :
  wellTimedAt l ref ->
  (length (List.filter isTrigger (Timers.pending l)) <= 1)%nat.
Proof.
  intros [_ Href Hnd _ _]. revert Href Hnd.
  generalize (Timers.pending l). intros ts Href Hnd.
  induction ts as [| x ts IH]; [cbn; lia |].
  rewrite fmap_cons in Hnd. apply NoDup_cons in Hnd as [Hx Hnd].
  assert (IH' : (length (List.filter isTrigger ts) <= 1)%nat).
  { apply IH; [| exact Hnd]. intros t Hin. apply Href. now right. }
  cbn [List.filter]. destruct (isTrigger x) eqn:Htx; [| exact IH'].
  assert (Hnone : List.filter isTrigger ts = []).
  { apply TimersFacts.none_selected. intros t Hin Ht.
    apply Hx. apply list_elem_of_fmap. exists t. split; [| exact Hin].
    pose proof (Href x ltac:(left) Htx) as H1.
    pose proof (Href t ltac:(now right) Ht) as H2. congruence. }
  rewrite Hnone. cbn. lia.
Qed.

Lemma wt_autoAdvance (s : PracticeSentence) (cl : Closure) (a : App) :
  wellTimed a -> wellTimed (autoAdvance s cl a).
Proof.
  intros [Hos Hwt]. unfold autoAdvance.
  destruct (Practice.isAutoPlay cl); [| now split].
  destruct (_ <? _); [| now split].
  destruct (at_ _ _) as [next |]; [| now split].
  split; [exact Hos |]. now apply wt_delay.
Qed.

Lemma wt_playSentenceOnly (s : PracticeSentence) (cl : Closure) (a : App) :
  wellTimed a -> wellTimed (playSentenceOnly s cl a).
Proof.
  intros [Hos Hwt]. unfold playSentenceOnly.
  destruct (audioPlayerRef (screen a)) eqn:Href; [| now split]. cbn [negb].
  open_app a. cbn in Hos, Hwt, Href. subst.
  destruct ar as [au |].
  all: split; [reflexivity |].
  all: cbn -[Z.add Z.mul Z.max filter Timers.clearRef Timers.setTimeout].
  all: eapply (wt_stop_timer _ _ s cl) in Hwt; exact Hwt.
Qed.

Lemma wt_stopSentence (s : PracticeSentence) (cl : Closure) (a : App) :
  wellTimed a -> wellTimed (stopSentence s cl a).
Proof.
  intros Hwt. unfold stopSentence.
  destruct (audioPlayerRef (screen a)); [| exact Hwt].
  apply wt_autoAdvance. destruct Hwt as [Hos Hwt].
  open_app a. cbn in Hos, Hwt. subst.
  destruct ar as [au |]; (split; [reflexivity | exact Hwt]).
Qed.

Lemma wt_pauseAll (a : App) : wellTimed a -> wellTimed (pauseAll a).
Proof.
  intros [Hos Hwt]. open_app a. cbn in Hos, Hwt. subst.
  unfold pauseAll.
  destruct itts, iaud, apr, iap, str as [h |], ar as [au |];
    cbn -[filter Z.add AudioPlayer.audio_pause];
    (split; [reflexivity |]);
    first [exact Hwt | exact (wt_clear _ _ Hwt)].
Qed.

Lemma wt_screen (f : Screen -> Screen) (a : App) :
  (forall sc, sentenceTimerRef (f sc) = sentenceTimerRef sc) ->
  wellTimed a -> wellTimed (on_screen f a).
Proof.
  intros Hf [Hos Hwt]. split; [exact Hos |].
  cbn [on_screen with_screen loop screen]. now rewrite Hf.
Qed.

Lemma wt_playCurrent (a : App) : wellTimed a -> wellTimed (playCurrent a).
Proof.
  intros Hwt. unfold playCurrent.
  destruct (at_ _ _) as [current |]; [| exact Hwt].
  cbn [on_screen with_screen screen setIsGlobalPlaying playbackMode].
  destruct (playbackMode (screen a)) as [[] |].
  - unfold speakSentence. repeat (apply wt_screen; [reflexivity |]). exact Hwt.
  - apply wt_playSentenceOnly. now apply wt_screen.
  - apply wt_playSentenceOnly. repeat (apply wt_screen; [reflexivity |]). exact Hwt.
  - apply wt_playSentenceOnly. repeat (apply wt_screen; [reflexivity |]). exact Hwt.
Qed.

Lemma wt_handleAutoPlay (a : App) :
  wellTimed a -> wellTimed (fst (handleAutoPlay a)).
Proof.
  intros [Hos Hwt]. open_app a. cbn in Hos, Hwt. subst.
  unfold handleAutoPlay, startAutoPlay.
  destruct iap, itts, apr, str as [h |], ar as [au |], pm as [m |];
    cbn -[filter Z.add AudioPlayer.audio_pause];
    (split; [reflexivity |]);
    first [exact Hwt | exact (wt_clear _ _ Hwt)].
Qed.

Lemma wt_handleSentencePress (i : Z) (a : App) :
  wellTimed a -> wellTimed (fst (handleSentencePress i a)).
Proof.
  intros Hwt. unfold handleSentencePress.
  destruct (isPlaying (screen a) || isTTSPlaying (screen a)).
  - destruct Hwt as [Hos Hwt]. open_app a. cbn in Hos, Hwt. subst.
    destruct apr, ar as [au |];
      cbn -[filter Z.add AudioPlayer.audio_pause];
      (split; [reflexivity | exact Hwt]).
  - destruct (playbackMode (screen a)) as [mode |]; cbn [fst];
      [| now apply wt_screen].
    set (a1 := on_screen (setCurrentSentenceIndex i) a).
    assert (H1 : wellTimed a1) by now apply wt_screen.
    set (a2 := match sentenceTimerRef (screen a1) with
               | Some h =>
                   on_screen (set_sentenceTimerRef None)
                     (with_loop (Timers.clearTimer h (loop a1)) a1)
               | None => a1
               end).
    assert (H2 : wellTimed a2).
    { subst a2. destruct H1 as [Hos Hwt1].
      destruct (sentenceTimerRef (screen a1)) as [h |] eqn:Hh;
        [| split; [exact Hos | rewrite Hh; exact Hwt1]].
      split; [exact Hos |]. cbn [on_screen with_screen with_loop loop screen
                                 set_sentenceTimerRef sentenceTimerRef].
      now apply wt_clear. }
    clearbody a2. clear H1. clearbody a1.
    destruct mode, (at_ (sentences (screen a)) i) as [sentence |]; cbn [fst].
    + unfold speakSentence, TTSService_stop.
      repeat (apply wt_screen; [reflexivity |]). exact H2.
    + unfold TTSService_stop. now apply wt_screen.
    + now apply wt_playSentenceOnly.
    + destruct (audioPlayerRef (screen a2)); [| exact H2].
      repeat (apply wt_screen; [reflexivity |]). exact H2.
    + exact H2.
    + exact H2.
Qed.

Lemma wt_step (a a' : App) : wellTimed a -> step a = Some a' -> wellTimed a'.
Proof.
  intros [Hos Hwt] Hstep. unfold step, Timers.next in Hstep.
  destruct (Timers.earliest (Timers.pending (loop a))) as [t |] eqn:Hearly;
    [| discriminate].
  apply earliest_in in Hearly.
  destruct (wt_tasks _ _ Hwt t Hearly) as (Htask & Hevery).
  rewrite Hevery in Hstep. injection Hstep as <-.
  set (l' := {| Timers.now := Z.max (Timers.now (loop a)) (Timers.due t);
                Timers.nextHandle := Timers.nextHandle (loop a);
                Timers.pending :=
                  filter (fun x => Timers.handle x <> Timers.handle t)
                         (Timers.pending (loop a)) |}).
  assert (H1 : wellTimed (with_loop l' a)).
  { split; [exact Hos |]. cbn [with_loop loop screen]. now apply wt_filter. }
  unfold run. unfold isStopOrNext in Htask.
  destruct (Timers.task t); try discriminate Htask.
  - now apply wt_stopSentence.
  - now apply wt_playSentenceOnly.
Qed.

(** On a device at most one end-of-sentence trigger is armed, whatever the
    user does: through global Play and Pause, the Auto button, presses on
    sentences, mode changes, the end of a speech and every timer that fires,
    the stop timers on the queue number at most one, and it is the one
    [sentenceTimerRef] holds. *)
Theorem device_arms_at_most_one_stop_timer (a0 a : App) :
  wellTimed a0 -> reaches a0 a ->
  (length (armedTriggers a) <= 1)%nat
  /\ forall t, t ∈ armedTriggers a ->
               sentenceTimerRef (screen a) = Some (Timers.handle t).
Proof.
  intros H0 Hreach.
  assert (Hwt : wellTimed a).
  { induction Hreach as [| a _ IH | a _ IH | a i _ IH | a m _ IH | a _ IH
                         | a a' _ IH Hstep].
    - exact H0.
    - unfold toggleGlobalPlayback. destruct (isGlobalPlaying (screen a));
        [now apply wt_pauseAll | now apply wt_playCurrent].
    - now apply wt_handleAutoPlay.
    - now apply wt_handleSentencePress.
    - now apply wt_screen.
    - unfold speechDone. repeat (apply wt_screen; [reflexivity |]). exact IH.
    - eapply wt_step; eassumption. }
  destruct Hwt as [_ Hwt]. split.
  - unfold armedTriggers. eapply wt_one_trigger, Hwt.
  - intros t Hin. unfold armedTriggers in Hin.
    apply list_elem_of_In, filter_In in Hin as [Hin Htr].
    apply (wt_ref _ _ Hwt t); [now apply list_elem_of_In | exact Htr].
Qed.

Lemma wellTimed_loaded (autoPlay : bool) :
  wellTimed (Scenarios.loaded Scenarios.phone autoPlay).
Proof.
  split; [reflexivity |].
  constructor; cbn;
    try (intros t Hin; now apply elem_of_nil in Hin);
    [constructor | discriminate].
Qed.

Lemma device_arms_at_most_one_stop_timer_witness :
  let a0 := Scenarios.loaded Scenarios.phone true in
  let a := fst (handleSentencePress 1 (steps 1 (toggleGlobalPlayback a0))) in
  wellTimed a0
  /\ reaches a0 a
  /\ Timers.task <$> Timers.pending (loop a)
     = [PlayNext Scenarios.sentence_13_15 (closure a0);
        StopSentence Scenarios.sentence_13_15 (closure a0)]
  /\ (length (armedTriggers a) <= 1)%nat.
Proof.
  cbv zeta.
  assert (Hreach :
    reaches (Scenarios.loaded Scenarios.phone true)
      (fst (handleSentencePress 1
              (steps 1 (toggleGlobalPlayback
                          (Scenarios.loaded Scenarios.phone true)))))).
  { apply reaches_press.
    eapply reaches_step; [apply reaches_toggle, reaches_start |].
    vm_compute. reflexivity. }
  split; [apply wellTimed_loaded |]. split; [exact Hreach |].
  split; [vm_compute; reflexivity |].
  exact (proj1 (device_arms_at_most_one_stop_timer _ _
                  (wellTimed_loaded true) Hreach)).
Defined.

End DeviceFacts.

Module GlobalPauseFacts.
Import Practice Screen Handlers ScreenFacts.

Lemma handleAutoPlay_isAudioPlaying (a : App) :
  isAudioPlaying (screen a) = false ->
  isAudioPlaying (screen (fst (handleAutoPlay a))) = false.
Proof.
  intros Hno. open_app a. cbn in Hno. subst.
  unfold handleAutoPlay, startAutoPlay.
  destruct iap, itts, apr, str as [h |], pm as [m |];
    cbn -[filter Z.add AudioPlayer.pause]; reflexivity.
Qed.

Lemma handleSentencePress_isAudioPlaying (i : Z) (a : App) :
  isAudioPlaying (screen (fst (handleSentencePress i a)))
  = isAudioPlaying (screen a).
Proof.
  unfold handleSentencePress.
  destruct (isPlaying (screen a) || isTTSPlaying (screen a)).
  - destruct (audioPlayerRef (screen a)); reflexivity.
  - destruct (playbackMode (screen a)) as [mode |]; [| reflexivity].
    cbn [on_screen with_screen screen setCurrentSentenceIndex sentenceTimerRef].
    destruct mode, (at_ (sentences (screen a)) i) as [sentence |],
      (sentenceTimerRef (screen a)) as [h |];
      cbn [fst]; rewrite ?playSentenceOnly_isAudioPlaying;
      try reflexivity.
    all: cbn [on_screen with_screen with_loop screen set_sentenceTimerRef
              setCurrentSentenceIndex audioPlayerRef];
      destruct (audioPlayerRef (screen a)); reflexivity.
Qed.

(** Nothing ever sets [isAudioPlaying]: it is false in every state the
    screen can reach through its buttons, its sentences and its timers, so
    the global pause never pauses the audio player. *)
Theorem global_pause_never_reaches_the_player (a0 a : App) :
  isAudioPlaying (screen a0) = false ->
  reaches a0 a ->
  isAudioPlaying (screen a) = false /\ player (pauseAll a) = player a.
Proof.
  intros H0 Hreach.
  assert (Hno : isAudioPlaying (screen a) = false).
  { induction Hreach as [| a _ IH | a _ IH | a i _ IH | a m _ IH | a _ IH
                         | a a' _ IH Hstep].
    - exact H0.
    - now apply toggleGlobalPlayback_isAudioPlaying.
    - now apply handleAutoPlay_isAudioPlaying.
    - now rewrite handleSentencePress_isAudioPlaying.
    - exact IH.
    - exact IH.
    - unfold step in Hstep. destruct (Timers.next (loop a)) as [[t l] |];
        [| discriminate].
      injection Hstep as <-. now rewrite run_isAudioPlaying. }
  split; [exact Hno |].
  unfold pauseAll.
  destruct (isTTSPlaying (screen a)); cbn [on_screen with_screen screen
    TTSService_stop setIsTTSPlaying set_speaking isAudioPlaying];
    rewrite Hno; cbn [andb];
    destruct (isAutoPlay _); cbn [on_screen with_screen screen];
    destruct (sentenceTimerRef _); reflexivity.
Qed.

Lemma global_pause_never_reaches_the_player_witness :
  let a0 := Scenarios.loaded Scenarios.browser true in
  let a := fst (handleSentencePress 1 (fst (handleAutoPlay (toggleGlobalPlayback a0)))) in
  isAudioPlaying (screen a0) = false
  /\ reaches a0 a
  /\ AudioPlayer.isPlaying (player a) = true
  /\ player (pauseAll a) = player a.
Proof.
  cbv zeta.
  assert (Hreach :
    reaches (Scenarios.loaded Scenarios.browser true)
      (fst (handleSentencePress 1
              (fst (handleAutoPlay
                      (toggleGlobalPlayback
                         (Scenarios.loaded Scenarios.browser true))))))).
  { apply reaches_press, reaches_auto, reaches_toggle, reaches_start. }
  split; [reflexivity |]. split; [exact Hreach |].
  split; [vm_compute; reflexivity |].
  exact (proj2 (global_pause_never_reaches_the_player
                  (Scenarios.loaded Scenarios.browser true) _ eq_refl Hreach)).
Defined.

End GlobalPauseFacts.

Module BrowserFacts.
Import Practice Screen Handlers.






End BrowserFacts.

Module SubtitlesFacts.
Import Subtitles.

Lemma trimEnd_idempotent (s : string) : trimEnd (trimEnd s) = trimEnd s.
Proof.
  induction s as [| c r IH]; [reflexivity |].
  cbn [trimEnd]. destruct (trimEnd r) as [| d r'] eqn:Hr.
  - destruct (isSpace c) eqn:Hc; [reflexivity |].
    cbn [trimEnd]. now rewrite Hc.
  - cbn [trimEnd]. cbn [trimEnd] in IH. rewrite IH. reflexivity.
Qed.

Lemma trimStart_shape (s : string) :
  trimStart s = ""
  \/ exists c r, trimStart s = String c r /\ isSpace c = false.
Proof.
  induction s as [| c r IH]; [now left |].
  cbn [trimStart]. destruct (isSpace c) eqn:Hc; [exact IH |].
  right. now exists c, r.
Qed.

Lemma trimEnd_head (c : ascii) (r : string) :
  isSpace c = false -> exists r', trimEnd (String c r) = String c r'.
Proof.
  intros Hc. cbn [trimEnd]. destruct (trimEnd r); [rewrite Hc |]; eauto.
Qed.

Lemma trim_idempotent (s : string) : trim (trim s) = trim s.
Proof.
  unfold trim. destruct (trimStart_shape s) as [-> | (c & r & -> & Hc)];
    [reflexivity |].
  destruct (trimEnd_head c r Hc) as (r' & Hr). rewrite Hr.
  cbn [trimStart]. rewrite Hc, <- Hr. apply trimEnd_idempotent.
Qed.

Lemma endsSentence_nonempty (t : string) : endsSentence t = true -> t <> "".
Proof. now intros H ->. Qed.

Lemma forEach_closers (subtitles : list Subtitle) :
  forall (sentences : list Sentence) (current : Current),
    length (fst (forEach subtitles (sentences, current)))
    = (length sentences + closers subtitles)%nat
    /\ (subtitles <> [] -> snd (forEach subtitles (sentences, current)) = reset).
Proof.
  induction subtitles as [| x rest IH]; intros sentences current.
  - cbn. split; [lia | congruence].
  - cbn [forEach]. destruct rest as [| y rest'].
    + cbn [forEach closers]. unfold visit. rewrite orb_true_r.
      cbn [fst snd]. rewrite length_app. cbn [length]. split; [lia | reflexivity].
    + assert (Hv : exists s1 c1,
                 visit x false (sentences, current) = (s1, c1)
                 /\ length s1
                    = (length sentences
                       + if endsSentence (trim (text x)) then 1 else 0)%nat).
      { unfold visit. rewrite orb_false_r.
        destruct (endsSentence (trim (text x))); eexists _, _;
          (split; [reflexivity |]); rewrite ?length_app; cbn [length]; lia. }
      destruct Hv as (s1 & c1 & -> & Hs1).
      change (closers (x :: y :: rest'))
        with ((if endsSentence (trim (text x)) then 1 else 0)
              + closers (y :: rest'))%nat.
      destruct (IH s1 c1) as (Hlen & Hreset).
      rewrite Hlen, Hs1. split; [lia | intros _; apply Hreset; discriminate].
Qed.

Lemma closers_positive (subtitles : list Subtitle) :
  subtitles <> [] -> (0 < closers subtitles)%nat.
Proof.
  induction subtitles as [| x rest IH]; [congruence |]. intros _.
  destruct rest as [| y rest']; [cbn; lia |].
  change (closers (x :: y :: rest'))
    with ((if endsSentence (trim (text x)) then 1 else 0)
          + closers (y :: rest'))%nat.
  specialize (IH ltac:(discriminate)). lia.
Qed.

(** [processYouTubeSubtitles] returns one sentence for every caption that
    ends in [.], [!] or [?] once trimmed, and one for the last caption
    whatever it ends in: captions are never dropped at the end of the list,
    and no sentence is made of an empty list. *)
Theorem processYouTubeSubtitles_one_sentence_per_closer
        (subtitles : list Subtitle) :
  length (processYouTubeSubtitles subtitles) = closers subtitles
  /\ (processYouTubeSubtitles subtitles = [] <-> subtitles = []).
Proof.
  unfold processYouTubeSubtitles.
  destruct (forEach_closers subtitles [] reset) as (Hlen & _).
  cbn [length] in Hlen. rewrite Nat.add_0_l in Hlen. split; [exact Hlen |].
  split.
  - intros Hnil. rewrite Hnil in Hlen. cbn [length] in Hlen.
    destruct subtitles as [| x rest]; [reflexivity |].
    pose proof (closers_positive (x :: rest) ltac:(discriminate)). lia.
  - intros ->. reflexivity.
Qed.

Lemma forEach_punctuated (subtitles : list Subtitle) :
  Forall (fun x => endsSentence (trim (text x)) = true) subtitles ->
  forall sentences,
    forEach subtitles (sentences, reset)
    = ((sentences ++ map alone subtitles)%list, reset).
Proof.
  induction 1 as [| x rest Hx _ IH]; intros sentences.
  - cbn. now rewrite app_nil_r.
  - cbn [forEach]. unfold visit. rewrite Hx. cbn [orb reset c_text].
    cbn [String.eqb c_text c_start c_end].
    rewrite trim_idempotent, IH. cbn [map]. rewrite <- app_assoc. reflexivity.
Qed.

(** Captions that each end a sentence are turned into sentences one to one:
    the trimmed text, the start, and start plus duration as the end. *)
Theorem punctuated_captions_map_one_to_one (subtitles : list Subtitle) :
  Forall (fun x => endsSentence (trim (text x)) = true) subtitles ->
  processYouTubeSubtitles subtitles = map alone subtitles.
Proof.
  intros Hall. unfold processYouTubeSubtitles.
  now rewrite (forEach_punctuated subtitles Hall []).
Qed.

Lemma punctuated_captions_map_one_to_one_witness :
  Forall (fun x => endsSentence (trim (text x)) = true) twoCaptions
  /\ s_text <$> processYouTubeSubtitles twoCaptions
     = ["Hello there."; "How are you?"].
Proof.
  assert (Hall : Forall (fun x => endsSentence (trim (text x)) = true)
                        twoCaptions)
    by (repeat constructor).
  split; [exact Hall |].
  rewrite (punctuated_captions_map_one_to_one twoCaptions Hall). reflexivity.
Defined.

End SubtitlesFacts.

Module TTSFacts.
Import TTS.

Lemma last_snoc_call (c : Call) (t : Service) :
  last (calls (call c t)) = Some c.
Proof. cbn [call calls]. apply last_snoc. Qed.

Lemma stopSpeech_spec (t : Service) :
  isPlaying (stopSpeech t) = false
  /\ last (calls (stopSpeech t)) = Some SpeechStop
  /\ sound (stopSpeech t) = sound t.
Proof.
  unfold stopSpeech. cbn [set_isPlaying isPlaying calls sound call].
  repeat split. apply last_snoc.
Qed.

Lemma finishes_stop (t : Service) (threw : bool) (final : Service) :
  finishes (stop t) threw final ->
  threw = false
  /\ isPlaying final = false
  /\ last (calls final) = Some SpeechStop.
Proof.
  unfold stop, stopWith, speechStop, await.
  destruct (sound t) as [s |]; cbn [finishes].
  - intros (stopped & t1 & Hrun).
    destruct stopped as [[] |], (sound t1) as [s' |]; cbn [finishes] in Hrun.
    + destruct Hrun as (unloaded & t2 & Hrun).
      destruct unloaded as [[] |]; cbn [finishes] in Hrun;
        destruct Hrun as (<- & <-);
        (split; [reflexivity |]);
        match goal with
        | |- context [stopSpeech ?x] =>
            destruct (stopSpeech_spec x) as (Hp & Hl & _)
        end; now split.
    + destruct Hrun as (<- & <-). split; [reflexivity |].
      destruct (stopSpeech_spec t1) as (Hp & Hl & _). now split.
    + destruct Hrun as (<- & <-). split; [reflexivity |].
      destruct (stopSpeech_spec t1) as (Hp & Hl & _). now split.
    + destruct Hrun as (<- & <-). split; [reflexivity |].
      destruct (stopSpeech_spec t1) as (Hp & Hl & _). now split.
  - intros (<- & <-). split; [reflexivity |].
    destruct (stopSpeech_spec t) as (Hp & Hl & _). now split.
Qed.

(** [stop] catches what [stopAsync] and [unloadAsync] throw and nothing
    else: awaited on its own, it throws exactly when [Speech.stop()]
    throws.  [Speech.stop()] is always its last call.  [isPlaying] is reset
    when [Speech.stop()] returns; when it throws, [isPlaying] is reset only
    if the sound was unloaded before.  The sound is given up only when
    [stopAsync] and [unloadAsync] both succeed: when either is refused the
    service keeps a sound it no longer plays. *)
Theorem stop_throws_only_what_Speech_stop_throws
        (world : forall c, list Call -> option (Answer c))
        (speechStops : bool) (t : Service) :
  let '(threw, final) := complete world (stopWith speechStops t) in
  threw = negb speechStops
  /\ last (calls final) = Some SpeechStop
  /\ match sound t with
     | None =>
         sound final = None
         /\ isPlaying final = negb speechStops && isPlaying t
         /\ calls final = (calls t ++ [SpeechStop])%list
     | Some s =>
         match world (StopAsync s) (calls t ++ [StopAsync s])%list with
         | None =>
             sound final = Some s
             /\ isPlaying final = negb speechStops && isPlaying t
             /\ calls final = (calls t ++ [StopAsync s; SpeechStop])%list
         | Some _ =>
             match world (UnloadAsync s)
                         (calls t ++ [StopAsync s; UnloadAsync s])%list with
             | None =>
                 sound final = Some s
                 /\ isPlaying final = negb speechStops && isPlaying t
             | Some _ => sound final = None /\ isPlaying final = false
             end
             /\ calls final
                = (calls t ++ [StopAsync s; UnloadAsync s; SpeechStop])%list
         end
     end.
Proof.
  unfold stopWith, await. destruct t as [[s |] playing log];
    cbn [sound complete call calls isPlaying].
  - destruct (world (StopAsync s) (log ++ [StopAsync s])%list) as [[] |];
      cbn [complete call calls sound isPlaying set_sound set_isPlaying].
    + rewrite <- !app_assoc. cbn [app].
      destruct (world (UnloadAsync s) _) as [[] |], speechStops;
        cbn [speechStop complete call calls sound isPlaying set_sound
             set_isPlaying stopSpeech negb andb];
        rewrite <- ?app_assoc; cbn [app];
        repeat split; rewrite last_app; reflexivity.
    + destruct speechStops;
        cbn [speechStop complete call calls sound isPlaying set_sound
             set_isPlaying stopSpeech negb andb];
        rewrite <- ?app_assoc; cbn [app];
        repeat split; rewrite last_app; reflexivity.
  - destruct speechStops;
      cbn [speechStop complete stopSpeech set_isPlaying call calls sound
           isPlaying negb andb];
      repeat split; apply last_snoc.
Qed.

(** The speech [speakSentence] starts with [expo-speech] is stopped by the
    [stop()] with which [speakWithOpenAI] begins.  With no sound loaded this
    happens before [speakSentence] returns: [Speech.speak] is followed at
    once by [Speech.stop], and [isPlaying] is false again.  With a sound
    loaded, [stop] first awaits [stopAsync], and calls [Speech.stop] however
    it goes on. *)
Theorem speakSentence_stops_the_speech_it_starts
        (hasBtoa : bool) (text selectedVoice : string) (t : Service) :
  let request :=
    FetchSpeech text (Whisper.or_string (Some selectedVoice) "nova") 1 in
  let after := speakSentence hasBtoa text selectedVoice t in
  match sound t with
  | None =>
      calls after = (calls t ++ [SpeechSpeak text; SpeechStop; request])%list
      /\ isPlaying after = false
  | Some s =>
      calls after = (calls t ++ [SpeechSpeak text; StopAsync s; request])%list
      /\ isPlaying after = true
      /\ forall threw final,
           finishes (stop (speakWithExpoSpeech text t)) threw final ->
           isPlaying final = false /\ last (calls final) = Some SpeechStop
  end.
Proof.
  cbv zeta.
  assert (Hspeed : speedOr1 (Some 1%float) = 1%float) by reflexivity.
  destruct t as [[s |] playing log]; cbn [sound].
  - split; [| split].
    + unfold speakSentence, speakWithOpenAI, speakWithExpoSpeech, stop, stopWith,
        speechStop, await.
      cbn [sound yielded call calls isPlaying set_isPlaying stopSpeech voice
           speed]. rewrite Hspeed, <- !app_assoc. reflexivity.
    + reflexivity.
    + intros threw final Hrun. now apply finishes_stop in Hrun.
  - split.
    + unfold speakSentence, speakWithOpenAI, speakWithExpoSpeech, stop, stopWith,
        speechStop, await.
      cbn [sound yielded call calls isPlaying set_isPlaying stopSpeech voice
           speed]. rewrite Hspeed, <- !app_assoc. reflexivity.
    + reflexivity.
Qed.

(** The speech file is written from the body of the response as it is: when
    the request is answered [ok] and the body is read, the next call of
    [speakWithOpenAI] writes the encoding of the bytes of that body, and it
    writes no other file.  Where [btoa] is missing the manual encoder is
    used, so the file holds RFC 4648 base64 exactly when the body has a
    whole number of three-byte groups. *)
Theorem speech_file_is_base64_on_whole_groups_only
        (world : forall c, list Call -> option (Answer c))
        (hasBtoa : bool) (text : string) (options : TTSOptions) (t : Service)
        (uint8Array : list byte) :
  let request :=
    FetchSpeech text (Whisper.or_string (voice options) "nova")
                (speedOr1 (speed options)) in
  let log := (calls (yielded (stop t)) ++ [request; ArrayBuffer])%list in
  let base64Audio :=
    if hasBtoa then Base64.rfc4648_encode uint8Array
    else Base64.arrayBufferToBase64 uint8Array in
  let final := (complete world (speakWithOpenAI hasBtoa text options t)).2 in
  world request (calls (yielded (stop t)) ++ [request])%list = Some true ->
  world ArrayBuffer log = Some uint8Array ->
  (calls final = (log ++ [WriteFile base64Audio])%list
   \/ calls final = (log ++ [WriteFile base64Audio; CreateSound])%list)
  /\ (base64Audio = Base64.rfc4648_encode uint8Array
      <-> hasBtoa = true \/ Z.of_nat (length uint8Array) mod 3 = 0).
Proof.
  cbv zeta. intros Hok Hbody. split.
  - unfold speakWithOpenAI, await. cbn [complete call calls].
    rewrite Hok. cbn [complete call calls].
    rewrite <- !app_assoc. cbn [app]. rewrite Hbody.
    cbn [complete call calls].
    destruct (world (WriteFile _) _) as [[] |]; cbn [complete call calls snd].
    + destruct (world CreateSound _) as [s |];
        cbn [complete call calls snd set_isPlaying set_sound];
        right; rewrite <- !app_assoc; reflexivity.
    + left. rewrite <- !app_assoc. reflexivity.
  - destruct hasBtoa.
    + split; [now left | reflexivity].
    + split.
      * intros Heq. right.
        destruct (Z.eq_dec (Z.of_nat (length uint8Array) mod 3) 0) as [H0 | Hne];
          [exact H0 |].
        now apply Base64Facts.arrayBufferToBase64_partial_group in Hne.
      * intros [Habs | H0]; [discriminate |].
        now apply Base64Facts.arrayBufferToBase64_whole_groups.
Qed.

Lemma speech_file_is_base64_on_whole_groups_only_witness :
  let options := {| voice := None; speed := None |} in
  let request := FetchSpeech "Hi" "nova" 1 in
  let body := ["H"; "e"; "l"; "l"; "o"]%byte in
  hello request [SpeechStop; request] = Some true
  /\ hello ArrayBuffer [SpeechStop; request; ArrayBuffer] = Some body
  /\ calls (complete hello (speakWithOpenAI false "Hi" options silent)).2
     = [SpeechStop; request; ArrayBuffer; WriteFile "SGVsbG8A"; CreateSound]
  /\ Base64.rfc4648_encode body = "SGVsbG8="
  /\ ("SGVsbG8A" = Base64.rfc4648_encode body
      <-> false = true \/ Z.of_nat (length body) mod 3 = 0).
Proof.
  cbv zeta.
  split; [reflexivity |]. split; [reflexivity |].
  split; [vm_compute; reflexivity |]. split; [vm_compute; reflexivity |].
  exact (proj2 (speech_file_is_base64_on_whole_groups_only
                  hello false "Hi" {| voice := None; speed := None |} silent
                  ["H"; "e"; "l"; "l"; "o"]%byte eq_refl eq_refl)).
Defined.

End TTSFacts.

Module IntervalFacts.
Import Practice AudioPlayer Handlers.

(** *** The queue under the operations on timers *)

Lemma tidy_now (l : Timers.Loop Task) (vi ec : option nat) (now' : Z) :
  tidyAt l vi ec ->
  tidyAt {| Timers.now := now'; Timers.nextHandle := Timers.nextHandle l;
            Timers.pending := Timers.pending l |} vi ec.
Proof. intros [H1 H2 H3 H4]. now constructor. Qed.

Lemma tidy_clearTimer (l : Timers.Loop Task) (vi ec : option nat) (h : nat) :
  tidyAt l vi ec -> tidyAt (Timers.clearTimer h l) vi ec.
Proof.
  intros [H1 H2 H3 H4].
  constructor; cbn [Timers.clearTimer Timers.pending Timers.nextHandle].
  - intros t Hin. apply list_elem_of_filter in Hin as [_ Hin]. now apply H1.
  - intros t Hin. apply list_elem_of_filter in Hin as [_ Hin]. now apply H2.
  - now apply DeviceFacts.NoDup_filter_handles.
  - intros t Hin. apply list_elem_of_filter in Hin as [_ Hin]. now apply H4.
Qed.

Lemma tidy_clearRef (l : Timers.Loop Task) (vi ec r : option nat) :
  tidyAt l vi ec -> tidyAt (Timers.clearRef r l) vi ec.
Proof. destruct r; [apply tidy_clearTimer | trivial]. Qed.

(** [clearInterval(vadIntervalRef.current); vadIntervalRef.current = null] *)
Lemma tidy_clear_sampling (l : Timers.Loop Task) (vi ec : option nat) :
  tidyAt l vi ec -> tidyAt (Timers.clearRef vi l) None ec.
Proof.
  intros Ht. pose proof (tidy_clearRef l vi ec vi Ht) as [H1 H2 H3 H4].
  constructor; try assumption.
  intros t Hin Hs. pose proof (H1 t Hin Hs) as Hvi. rewrite Hvi in Hin.
  cbn [Timers.clearRef Timers.clearTimer Timers.pending] in Hin.
  apply list_elem_of_filter in Hin as [Hne _]. congruence.
Qed.

(** [clearInterval(endCheckInterval.current); endCheckInterval.current = null] *)
Lemma tidy_clear_check (l : Timers.Loop Task) (vi ec : option nat) :
  tidyAt l vi ec -> tidyAt (Timers.clearRef ec l) vi None.
Proof.
  intros Ht. pose proof (tidy_clearRef l vi ec ec Ht) as [H1 H2 H3 H4].
  constructor; try assumption.
  intros t Hin Hs. pose proof (H2 t Hin Hs) as Hec. rewrite Hec in Hin.
  cbn [Timers.clearRef Timers.clearTimer Timers.pending] in Hin.
  apply list_elem_of_filter in Hin as [Hne _]. congruence.
Qed.

(** A new timer, with the ref that holds it when it is an interval of the
    player. *)
Lemma tidy_schedule (l : Timers.Loop Task) (vi ec vi' ec' : option nat)
      (every : option Z) (task : Task) (delay : Z) :
  tidyAt l vi ec ->
  let new := {| Timers.handle := Timers.nextHandle l;
                Timers.due := Timers.now l + Z.max 0 delay;
                Timers.every := every; Timers.task := task |} in
  (if isSampling new then vi = None /\ vi' = Some (Timers.nextHandle l)
   else vi' = vi) ->
  (if isCheckEnd new then ec = None /\ ec' = Some (Timers.nextHandle l)
   else ec' = ec) ->
  tidyAt (snd (Timers.schedule every task delay l)) vi' ec'.
Proof.
  intros [H1 H2 H3 H4] new Hvi Hec.
  constructor; cbn [Timers.schedule snd Timers.pending Timers.nextHandle].
  - intros t Hin Hs. apply elem_of_app in Hin as [Hin | Hin].
    + pose proof (H1 t Hin Hs) as Hold.
      destruct (isSampling new); [destruct Hvi; congruence | congruence].
    + apply list_elem_of_singleton in Hin. subst t. fold new in Hs.
      rewrite Hs in Hvi. now destruct Hvi.
  - intros t Hin Hs. apply elem_of_app in Hin as [Hin | Hin].
    + pose proof (H2 t Hin Hs) as Hold.
      destruct (isCheckEnd new); [destruct Hec; congruence | congruence].
    + apply list_elem_of_singleton in Hin. subst t. fold new in Hs.
      rewrite Hs in Hec. now destruct Hec.
  - rewrite fmap_app. apply NoDup_app. split; [exact H3 |]. split.
    + intros x Hx Hnew. cbn in Hnew. apply list_elem_of_singleton in Hnew as ->.
      apply list_elem_of_fmap in Hx as (y & Hy & Hin).
      specialize (H4 y Hin). lia.
    + cbn. apply NoDup_singleton.
  - intros t Hin. apply elem_of_app in Hin as [Hin | Hin].
    + specialize (H4 t Hin). lia.
    + apply list_elem_of_singleton in Hin as ->. cbn. lia.
Qed.

Lemma fmap_handle_map (g : Timers.Timer Task -> Timers.Timer Task)
      (ts : list (Timers.Timer Task)) :
  (forall t, Timers.handle (g t) = Timers.handle t) ->
  Timers.handle <$> map g ts = Timers.handle <$> ts.
Proof.
  intros Hg. induction ts as [| t ts IH]; [reflexivity |].
  cbn [map]. rewrite !fmap_cons, Hg, IH. reflexivity.
Qed.

(** The timers with the handle [h] are given a task; the queue stays tidy
    when the new task is of the kind of the old one, or is a sampling tick
    and [h] is what [vadIntervalRef] holds. *)
Lemma tidy_map (l : Timers.Loop Task) (vi ec : option nat) (h : nat)
      (g : Timers.Timer Task -> Timers.Timer Task) (now' : Z) :
  tidyAt l vi ec ->
  (forall t, Timers.handle (g t) = Timers.handle t) ->
  (forall t, t ∈ Timers.pending l ->
             (isSampling (g t) = true ->
              isSampling t = true \/ vi = Some (Timers.handle t))
             /\ (isCheckEnd (g t) = true -> isCheckEnd t = true)) ->
  tidyAt {| Timers.now := now'; Timers.nextHandle := Timers.nextHandle l;
            Timers.pending := map g (Timers.pending l) |} vi ec.
Proof.
  intros [H1 H2 H3 H4] Hg Hkind.
  constructor; cbn [Timers.pending Timers.nextHandle].
  - intros t Hin Hs. apply list_elem_of_In, in_map_iff in Hin as (y & <- & Hy).
    apply list_elem_of_In in Hy. rewrite Hg.
    destruct (proj1 (Hkind y Hy) Hs) as [Hold | Hvi]; [now apply H1 | exact Hvi].
  - intros t Hin Hs. apply list_elem_of_In, in_map_iff in Hin as (y & <- & Hy).
    apply list_elem_of_In in Hy. rewrite Hg.
    apply H2; [exact Hy | now apply (Hkind y Hy)].
  - now rewrite fmap_handle_map.
  - intros t Hin. apply list_elem_of_In, in_map_iff in Hin as (y & <- & Hy).
    apply list_elem_of_In in Hy. rewrite Hg. now apply H4.
Qed.

Lemma tidy_retask (l : Timers.Loop Task) (ec : option nat) (h : nat)
      (ip : bool) (sc spc : Z) :
  tidyAt l (Some h) ec ->
  tidyAt (Timers.retask h (VadTick ip sc spc) l) (Some h) ec.
Proof.
  intros Ht. unfold Timers.retask.
  apply (tidy_map l (Some h) ec h _ (Timers.now l) Ht).
  - intros t. destruct (Nat.eqb (Timers.handle t) h) eqn:Hh; [| reflexivity].
    cbn. symmetry. now apply Nat.eqb_eq.
  - intros t Hin. destruct (Nat.eqb (Timers.handle t) h) eqn:Hh.
    + apply Nat.eqb_eq in Hh. split; [intros _; right; congruence | discriminate].
    + split; [now left | trivial].
Qed.

(** At most one timer of a kind whose timers all carry the same handle. *)
Lemma at_most_one (q : Timers.Timer Task -> bool) (ref : option nat)
      (ts : list (Timers.Timer Task)) :
  (forall t, t ∈ ts -> q t = true -> ref = Some (Timers.handle t)) ->
  NoDup (Timers.handle <$> ts) ->
  (length (List.filter q ts) <= 1)%nat.
Proof.
  intros Href Hnd. induction ts as [| x ts IH]; [cbn; lia |].
  rewrite fmap_cons in Hnd. apply NoDup_cons in Hnd as [Hx Hnd].
  assert (IH' : (length (List.filter q ts) <= 1)%nat).
  { apply IH; [| exact Hnd]. intros t Hin. apply Href. now right. }
  cbn [List.filter]. destruct (q x) eqn:Htx; [| exact IH'].
  assert (Hnone : List.filter q ts = []).
  { apply TimersFacts.none_selected. intros t Hin Ht.
    apply Hx. apply list_elem_of_fmap. exists t. split; [| exact Hin].
    pose proof (Href x ltac:(left) Htx) as E1.
    pose proof (Href t ltac:(now right) Ht) as E2. congruence. }
  rewrite Hnone. cbn. lia.
Qed.

(** *** The player *)

Lemma tidy_stopVoiceActivityDetection (s : PS) :
  tidy s -> tidy (stopVoiceActivityDetection s).
Proof. destruct s as [l p]. apply tidy_clear_sampling. Qed.

Lemma tidy_stopped (l : Timers.Loop Task) (p : Player) :
  tidy (l, p) ->
  tidyAt (Timers.clearRef (endCheckInterval p)
            (Timers.clearRef (vadIntervalRef p) l)) None None.
Proof. intros H. now apply tidy_clear_check, tidy_clear_sampling. Qed.

Lemma tidy_startVoiceActivityDetection (E : Env) (isPlaying0 : bool)
      (cb : Callback) (s : PS) :
  tidy s -> tidy (startVoiceActivityDetection E isPlaying0 cb s).
Proof.
  intros H. unfold startVoiceActivityDetection.
  destruct (OS E); [| exact H].
  destruct s as [l p]. apply tidy_clear_sampling in H.
  cbn [stopVoiceActivityDetection set_onSilenceDetectedRef attempts].
  destruct (graph E (attempts p)).
  - exact (tidy_schedule _ _ _ _ _ (Some 100) (VadTick isPlaying0 0 0) 100 H
             (conj eq_refl eq_refl) eq_refl).
  - exact (tidy_schedule _ _ _ _ _ None VadFallback 5000 H eq_refl eq_refl).
  - exact H.
  - exact (tidy_schedule _ _ _ _ _ None VadFallback 5000 H eq_refl eq_refl).
Qed.

Lemma tidy_vadTick (f : Frame) (h : nat) (isPlaying0 : bool)
      (silenceCount speechCount : Z) (s : PS) :
  tidy s -> vadIntervalRef (snd s) = Some h ->
  tidy (fst (vadTick f h isPlaying0 silenceCount speechCount s)).
Proof.
  intros H Hh. destruct s as [l p]. unfold tidy in H. cbn [fst snd] in H, Hh.
  rewrite Hh in H. unfold vadTick.
  destruct (analyserRef p); [| unfold tidy; cbn [fst snd]; now rewrite Hh].
  destruct (negb isPlaying0); [unfold tidy; cbn [fst snd]; now rewrite Hh |].
  destruct (isSpeech f).
  - unfold tidy. cbn [fst snd]. rewrite Hh. now apply tidy_retask.
  - destruct (silenceThreshold <=? silenceCount + 1).
    + apply (tidy_retask l _ h isPlaying0 (silenceCount + 1) 0) in H.
      apply (tidy_clear_sampling _ (Some h)) in H.
      unfold tidy. cbn [stopVoiceActivityDetection fst snd vadIntervalRef
                        endCheckInterval]. rewrite Hh. exact H.
    + unfold tidy. cbn [fst snd]. rewrite Hh. now apply tidy_retask.
Qed.

Lemma tidy_checkAndStopAtSentenceEnd (e0 : option Z) (s : PS) :
  tidy s -> tidy (checkAndStopAtSentenceEnd e0 s).
Proof.
  intros H. destruct s as [l p]. unfold checkAndStopAtSentenceEnd.
  destruct (audioRef p) as [a |]; [| exact H].
  destruct e0 as [e |]; [| exact H].
  destruct (_ <=? _); [| exact H].
  exact (tidy_stopped l p H).
Qed.

Lemma tidy_stopCurrent (a : Audio) (s : PS) : tidy s -> tidy (stopCurrent a s).
Proof.
  intros H. destruct s as [l p]. unfold stopCurrent.
  destruct (isPlaying p); [| exact H].
  exact (tidy_stopped l p H).
Qed.

Lemma tidy_seekTo (timeInSeconds : Z) (s : PS) :
  tidy s -> tidy (seekTo timeInSeconds s).
Proof.
  intros H. destruct s as [l p]. unfold seekTo.
  destruct (audioRef p); exact H.
Qed.

Lemma tidy_play (E : Env) (s : PS) : tidy s -> tidy (play E s).
Proof.
  intros H. destruct s as [l p]. unfold play.
  destruct (audioRef p) as [a |]; [| exact H].
  destruct (OS E); [| exact H].
  apply (tidy_stopCurrent a) in H.
  destruct (stopCurrent a (l, p)) as [l1 p1].
  destruct (playRejects E _); exact H.
Qed.

Lemma tidy_pause (E : Env) (s : PS) : tidy s -> tidy (pause E s).
Proof.
  intros H. destruct s as [l p]. unfold pause.
  destruct (audioRef p) as [a |]; [| exact H].
  destruct (OS E); [| exact H].
  exact (tidy_stopped l p H).
Qed.

Lemma tidy_playWithVAD (E : Env) (cb : Callback) (endTime : Z) (s : PS) :
  tidy s -> tidy (playWithVAD E cb endTime s).
Proof.
  intros H. destruct s as [l0 p0]. unfold playWithVAD.
  destruct (audioRef p0) as [a |]; [| exact H].
  destruct (OS E) eqn:Hos; [| exact H].
  apply (tidy_stopCurrent a) in H.
  destruct (stopCurrent a (l0, p0)) as [l1 p1].
  assert (H2 : tidy
                 (if endTime =? 0 then (l1, p1)
                  else
                    let p := setSentenceEndTime (Some endTime) p1 in
                    let l := Timers.clearRef (endCheckInterval p) l1 in
                    let '(h, l) :=
                      Timers.setInterval (CheckEnd (sentenceEndTime p0)) 100 l in
                    (l, set_endCheckInterval (Some h) p))).
  { destruct (endTime =? 0); [exact H |].
    apply tidy_clear_check in H.
    exact (tidy_schedule _ _ _ _ _ (Some 100) (CheckEnd (sentenceEndTime p0))
             100 H eq_refl (conj eq_refl eq_refl)). }
  destruct (if endTime =? 0 then _ else _) as [l2 p2].
  destruct (playRejects E _); [exact H2 |].
  apply tidy_startVoiceActivityDetection. exact H2.
Qed.

(** *** The screen *)

Import Screen.

Lemma tidy_with_ps (s : PS) (a : App) : tidy s -> tidy (ps (with_ps s a)).
Proof. destruct s. trivial. Qed.

Lemma tidy_schedule_other (a : App) (task : Task) (delay : Z) :
  isSampling {| Timers.handle := 0; Timers.due := 0; Timers.every := None;
                Timers.task := task |} = false ->
  isCheckEnd {| Timers.handle := 0; Timers.due := 0; Timers.every := None;
                Timers.task := task |} = false ->
  tidy (ps a) ->
  tidy (ps (with_loop (snd (Timers.setTimeout task delay (loop a))) a)).
Proof.
  intros Hs Hc H.
  refine (tidy_schedule _ _ _ _ _ None task delay H _ _).
  - unfold isSampling in *. cbn [Timers.task] in *. now rewrite Hs.
  - unfold isCheckEnd in *. cbn [Timers.task] in *. now rewrite Hc.
Qed.

Lemma tidy_autoAdvance (s : PracticeSentence) (cl : Closure) (a : App) :
  tidy (ps a) -> tidy (ps (autoAdvance s cl a)).
Proof.
  intros H. unfold autoAdvance.
  destruct (Practice.isAutoPlay cl); [| exact H].
  destruct (_ <? _); [| exact H].
  destruct (at_ _ _) as [next |]; [| exact H].
  now apply (tidy_schedule_other a (PlayNext next cl) 500).
Qed.

Lemma tidy_onSilenceDetected (s : PracticeSentence) (cl : Closure) (a : App) :
  tidy (ps a) -> tidy (ps (onSilenceDetected s cl a)).
Proof. intros H. unfold onSilenceDetected. apply tidy_autoAdvance. exact H. Qed.

Lemma tidy_invoke (cb : option Callback) (a : App) :
  tidy (ps a) -> tidy (ps (invoke cb a)).
Proof.
  intros H. destruct cb as [[s cl] |]; [| exact H].
  now apply tidy_onSilenceDetected.
Qed.

Lemma tidy_stopSentence (s : PracticeSentence) (cl : Closure) (a : App) :
  tidy (ps a) -> tidy (ps (stopSentence s cl a)).
Proof.
  intros H. unfold stopSentence.
  destruct (audioPlayerRef (screen a)); [| exact H].
  apply tidy_autoAdvance. now apply tidy_with_ps, tidy_pause.
Qed.

Lemma tidy_playSentenceOnly (s : PracticeSentence) (cl : Closure) (a : App) :
  tidy (ps a) -> tidy (ps (playSentenceOnly s cl a)).
Proof.
  intros H. unfold playSentenceOnly.
  destruct (negb (audioPlayerRef (screen a))); [exact H |]. cbv zeta.
  set (a1 := on_screen (setIsPlaying true) _).
  assert (H1 : tidy (ps a1)) by exact H. clearbody a1.
  set (a2 := with_ps (seekTo (start s) (ps a1)) a1).
  assert (H2 : tidy (ps a2)) by now apply tidy_with_ps, tidy_seekTo.
  clearbody a2.
  destruct (OS (env a2)).
  - now apply tidy_with_ps, tidy_playWithVAD.
  - set (a3 := with_ps (play (env a2) (ps a2)) a2).
    assert (H3 : tidy (ps a3)) by now apply tidy_with_ps, tidy_play.
    clearbody a3.
    exact (tidy_clearRef _ _ _ (sentenceTimerRef (screen a3))
             (tidy_schedule _ _ _ _ _ None (StopSentence s cl)
                (duration s * 1000 + paddingMs) H3 eq_refl eq_refl)).
Qed.

Lemma tidy_on_screen (f : Screen -> Screen) (a : App) :
  tidy (ps a) -> tidy (ps (on_screen f a)).
Proof. trivial. Qed.

Lemma tidy_clear_stop_timer (a : App) :
  tidy (ps a) ->
  tidy (ps match sentenceTimerRef (screen a) with
           | Some h =>
               on_screen (set_sentenceTimerRef None)
                 (with_loop (Timers.clearTimer h (loop a)) a)
           | None => a
           end).
Proof.
  intros H. destruct (sentenceTimerRef (screen a)) as [h |]; [| exact H].
  exact (tidy_clearTimer _ _ _ h H).
Qed.

Lemma tidy_pauseAll (a : App) : tidy (ps a) -> tidy (ps (pauseAll a)).
Proof.
  intros H. unfold pauseAll.
  set (a1 := if isTTSPlaying (screen a) then _ else a).
  assert (H1 : tidy (ps a1)) by (subst a1; destruct (isTTSPlaying _); exact H).
  clearbody a1.
  set (a2 := if isAudioPlaying (screen a1) && audioPlayerRef (screen a1)
             then _ else a1).
  assert (H2 : tidy (ps a2)).
  { subst a2. destruct (_ && _); [| exact H1].
    now apply tidy_with_ps, tidy_pause. }
  clearbody a2.
  set (a3 := if isAutoPlay (screen a2) then _ else a2).
  assert (H3 : tidy (ps a3)) by (subst a3; destruct (isAutoPlay _); exact H2).
  clearbody a3.
  apply tidy_on_screen. now apply tidy_clear_stop_timer.
Qed.

Lemma tidy_playCurrent (a : App) : tidy (ps a) -> tidy (ps (playCurrent a)).
Proof.
  intros H. unfold playCurrent.
  destruct (at_ _ _) as [current |]; [| exact H].
  cbn [on_screen with_screen screen setIsGlobalPlaying playbackMode].
  destruct (playbackMode (screen a)) as [[] |];
    [exact H | now apply tidy_playSentenceOnly ..].
Qed.

Lemma tidy_handleAutoPlay (a : App) :
  tidy (ps a) -> tidy (ps (fst (handleAutoPlay a))).
Proof.
  intros H. unfold handleAutoPlay.
  destruct (isAutoPlay (screen a)).
  - cbn [fst].
    set (a1 := on_screen (setIsAudioPlaying false) _).
    assert (H1 : tidy (ps a1)) by exact H. clearbody a1.
    set (a2 := if audioPlayerRef (screen a1) then _ else a1).
    assert (H2 : tidy (ps a2)).
    { subst a2. destruct (audioPlayerRef _); [| exact H1].
      now apply tidy_with_ps, tidy_pause. }
    clearbody a2.
    set (a3 := if isTTSPlaying (screen a) then _ else a2).
    assert (H3 : tidy (ps a3)) by (subst a3; destruct (isTTSPlaying _); exact H2).
    clearbody a3.
    now apply tidy_clear_stop_timer.
  - unfold startAutoPlay.
    destruct (playbackMode (screen a)); destruct (_ || _); cbn [fst];
      try exact H; destruct (_ && _); exact H.
Qed.

Lemma tidy_handleSentencePress (i : Z) (a : App) :
  tidy (ps a) -> tidy (ps (fst (handleSentencePress i a))).
Proof.
  intros H. unfold handleSentencePress.
  destruct (isPlaying (screen a) || isTTSPlaying (screen a)).
  - cbn [fst]. apply tidy_on_screen. unfold TTSService_stop.
    apply tidy_on_screen.
    destruct (audioPlayerRef (screen a)); [| exact H].
    now apply tidy_with_ps, tidy_pause.
  - destruct (playbackMode (screen a)) as [mode |]; cbn [fst]; [| exact H].
    set (a1 := on_screen (setCurrentSentenceIndex i) a).
    assert (H1 : tidy (ps a1)) by exact H. clearbody a1.
    pose proof (tidy_clear_stop_timer a1 H1) as H2.
    set (a2 := match sentenceTimerRef (screen a1) with
               | Some h => _ | None => a1 end) in *.
    clearbody a2.
    destruct mode, (at_ (sentences (screen a)) i) as [sentence |]; cbn [fst];
      try exact H2.
    + now apply tidy_playSentenceOnly.
    + destruct (audioPlayerRef (screen a2)); exact H2.
Qed.

Lemma same_handle (ts : list (Timers.Timer Task)) (x t : Timers.Timer Task) :
  NoDup (Timers.handle <$> ts) -> x ∈ ts -> t ∈ ts ->
  Timers.handle x = Timers.handle t -> x = t.
Proof.
  induction ts as [| y ts IH]; intros Hnd Hx Ht Heq;
    [now apply elem_of_nil in Hx |].
  rewrite fmap_cons in Hnd. apply NoDup_cons in Hnd as [Hy Hnd].
  apply elem_of_cons in Hx as [-> | Hx]; apply elem_of_cons in Ht as [-> | Ht].
  - reflexivity.
  - exfalso. apply Hy. rewrite Heq. apply list_elem_of_fmap. now exists t.
  - exfalso. apply Hy. rewrite <- Heq. apply list_elem_of_fmap. now exists x.
  - now apply IH.
Qed.

(** The timer taken off the queue was on it, and the queue is tidy after. *)
Lemma tidy_next (l l' : Timers.Loop Task) (vi ec : option nat)
      (t : Timers.Timer Task) :
  tidyAt l vi ec -> Timers.next l = Some (t, l') ->
  t ∈ Timers.pending l /\ tidyAt l' vi ec.
Proof.
  intros H Hnext. unfold Timers.next in Hnext.
  destruct (Timers.earliest (Timers.pending l)) as [t0 |] eqn:Hearly;
    [| discriminate].
  apply DeviceFacts.earliest_in in Hearly. injection Hnext as -> <-.
  split; [exact Hearly |].
  destruct (Timers.every t) as [period |].
  - apply (tidy_map l vi ec (Timers.handle t)); [exact H | |].
    + intros x. destruct (Nat.eqb _ _) eqn:Hh; [| reflexivity].
      cbn. symmetry. now apply Nat.eqb_eq.
    + intros x Hx. destruct (Nat.eqb _ _) eqn:Hh; [| now split; [left |]].
      apply Nat.eqb_eq in Hh.
      pose proof (same_handle _ x t (tidy_distinct _ _ _ H) Hx Hearly Hh) as ->.
      split; [now left | trivial].
  - exact (tidy_now _ _ _ _ (tidy_clearTimer _ _ _ (Timers.handle t) H)).
Qed.

Lemma tidy_step (a a' : App) : tidy (ps a) -> step a = Some a' -> tidy (ps a').
Proof.
  intros H Hstep. unfold step in Hstep.
  destruct (Timers.next (loop a)) as [[t l'] |] eqn:Hnext; [| discriminate].
  injection Hstep as <-.
  destruct (tidy_next _ _ _ _ _ H Hnext) as [Hin H'].
  assert (Ha : tidy (ps (with_loop l' a))) by exact H'.
  unfold run. destruct (Timers.task t) as [s cl | s cl | ip sc spc | | e0] eqn:Htask.
  - now apply tidy_stopSentence.
  - now apply tidy_playSentenceOnly.
  - assert (Hvi : vadIntervalRef (player a) = Some (Timers.handle t)).
    { apply (tidy_sampling _ _ _ H t Hin). unfold isSampling. now rewrite Htask. }
    pose proof (tidy_vadTick
                  (analyse (env (with_loop l' a)) (Timers.now (loop (with_loop l' a))))
                  (Timers.handle t) ip sc spc
                  (ps (with_loop l' a)) Ha Hvi) as Hv.
    destruct (vadTick _ _ _ _ _ _) as [s cb]. apply tidy_invoke.
    now apply tidy_with_ps.
  - unfold vadFallback. now apply tidy_invoke.
  - now apply tidy_with_ps, tidy_checkAndStopAtSentenceEnd.
Qed.

Lemma tidy_reaches (a0 a : App) : tidy (ps a0) -> reaches a0 a -> tidy (ps a).
Proof.
  intros H0 Hreach.
  induction Hreach as [| a _ IH | a _ IH | a i _ IH | a m _ IH | a _ IH
                       | a a' _ IH Hstep].
  - exact H0.
  - unfold toggleGlobalPlayback. destruct (isGlobalPlaying (screen a));
      [now apply tidy_pauseAll | now apply tidy_playCurrent].
  - now apply tidy_handleAutoPlay.
  - now apply tidy_handleSentencePress.
  - exact IH.
  - exact IH.
  - eapply tidy_step; eassumption.
Qed.

(** The player never runs two detectors or two end checks at once: whatever
    the user does and whichever timers fire, at most one sampling interval
    and at most one end check are pending, and they are the ones
    [vadIntervalRef] and [endCheckInterval] hold. *)
Theorem one_sampling_interval_and_one_end_check (a0 a : App) :
  tidy (ps a0) -> reaches a0 a ->
  (length (List.filter isSampling (Timers.pending (loop a))) <= 1)%nat
  /\ (length (List.filter isCheckEnd (Timers.pending (loop a))) <= 1)%nat
  /\ forall t, t ∈ Timers.pending (loop a) ->
               (isSampling t = true ->
                vadIntervalRef (player a) = Some (Timers.handle t))
               /\ (isCheckEnd t = true ->
                   endCheckInterval (player a) = Some (Timers.handle t)).
Proof.
  intros H0 Hreach. pose proof (tidy_reaches a0 a H0 Hreach) as [H1 H2 H3 H4].
  cbn [ps fst snd] in *.
  split; [now apply (at_most_one _ (vadIntervalRef (player a))) |].
  split; [now apply (at_most_one _ (endCheckInterval (player a))) |].
  intros t Hin. split; [now apply H1 | now apply H2].
Qed.

Lemma tidy_loaded (E : Env) (autoPlay : bool) :
  tidy (ps (Scenarios.loaded E autoPlay)).
Proof.
  constructor; cbn;
    try (intros t Hin; now apply elem_of_nil in Hin); constructor.
Qed.

Lemma one_sampling_interval_and_one_end_check_witness :
  let a0 := Scenarios.loaded Scenarios.browser false in
  let a := toggleGlobalPlayback (toggleGlobalPlayback (toggleGlobalPlayback a0)) in
  tidy (ps a0)
  /\ reaches a0 a
  /\ Timers.task <$> Timers.pending (loop a)
     = [CheckEnd (Some 13); VadTick true 0 0]
  /\ (length (List.filter isSampling (Timers.pending (loop a))) <= 1)%nat.
Proof.
  cbv zeta.
  assert (Hreach :
    reaches (Scenarios.loaded Scenarios.browser false)
      (toggleGlobalPlayback
         (toggleGlobalPlayback
            (toggleGlobalPlayback (Scenarios.loaded Scenarios.browser false))))).
  { do 3 apply reaches_toggle. apply reaches_start. }
  split; [apply tidy_loaded |]. split; [exact Hreach |].
  split; [vm_compute; reflexivity |].
  exact (proj1 (one_sampling_interval_and_one_end_check _ _
                  (tidy_loaded _ _) Hreach)).
Defined.


End IntervalFacts.
